(** * FAPI order service: pricing, exchange rates and order transactions

    A shallow embedding of the TypeScript sources

    - [packages/shared/src/utils/vat.ts]       (VAT breakdown),
    - [apps/api/src/services/cnbRates.service.ts] (CNB rate fetch, parse, convert),
    - [apps/api/src/services/orders.service.ts]   (order creation, enrichment),
    - [apps/api/src/controllers/orders.controller.ts] (order summary),
    - [apps/api/src/lib/errors.ts]              (error classes),

    together with the properties the specification states about them.

    JavaScript numbers are IEEE 754 binary64 values.  They are modelled by
    the standard library's [spec_float] with its binary64 operations
    ([prec = 53], [emax = 1024]), which compute, so every concrete figure
    below is evaluated with the rounding the running program performs.
    JavaScript strings are sequences of UTF-16 code units. *)

From Stdlib Require Import ZArith NArith List Bool Lia.
From Stdlib Require Import Reals Lra.
From Stdlib Require Import Strings.String Strings.Ascii.
From Stdlib Require Import Floats.SpecFloat.
From stdpp Require Import base option list gmap.
Import ListNotations.

Local Open Scope Z_scope.

(* ===================================================================== *)
(** * JavaScript numbers                                                  *)
(* ===================================================================== *)

Module Number.

Definition number : Type := spec_float.

Definition prec : Z := 53.
Definition emax : Z := 1024.

Definition NaN : number := S754_nan.
Definition Infinity : number := S754_infinity false.
Definition pzero : number := S754_zero false.
Definition nzero : number := S754_zero true.

(** [Number.MAX_VALUE], the largest finite binary64 value. *)
Definition MAX_VALUE : number := S754_finite false (2 ^ 53 - 1) 971.

(** Conversion of a mathematical integer, rounding to nearest (ties to
    even); exact for every integer of magnitude at most 2^53. *)
Definition ofZ (z : Z) : number := binary_normalize prec emax z 0 false.

(** The binary64 value nearest to the fraction [n / d]. *)
Definition ofRatio (s : bool) (n d : positive) : number :=
  let '(q, e, l) := SFdiv_core_binary prec emax (Zpos n) 0 (Zpos d) 0 in
  binary_round_aux prec emax s q e l.

(** The binary64 value nearest to the decimal [m * 10^e10], the value of
    a numeric literal or of a parsed decimal string. *)
Definition ofDecimal (s : bool) (m : N) (e10 : Z) : number :=
  match m with
  | N0 => S754_zero s
  | Npos p =>
      match e10 with
      | Z0 => binary_round prec emax s p 0
      | Zpos k => binary_round prec emax s (p * 10 ^ k) 0
      | Zneg k => ofRatio s p (10 ^ k)
      end
  end.

Definition add : number -> number -> number := SFadd prec emax.
Definition sub : number -> number -> number := SFsub prec emax.
Definition mul : number -> number -> number := SFmul prec emax.
Definition div : number -> number -> number := SFdiv prec emax.

(** [x < y], [x > y] and [x === y] on numbers. *)
Definition lt (x y : number) : bool := SFltb x y.
Definition gt (x y : number) : bool := SFltb y x.
Definition strictEq (x y : number) : bool := SFeqb x y.

(** [Number.isFinite] and [isNaN]. *)
Definition isFinite (x : number) : bool :=
  match x with
  | S754_zero _ | S754_finite _ _ _ => true
  | S754_infinity _ | S754_nan => false
  end.

Definition isNaN (x : number) : bool :=
  match x with
  | S754_nan => true
  | _ => false
  end.

(** [Math.max(a, b)]: NaN if either is NaN; [+0] is larger than [-0]. *)
Definition max (a b : number) : number :=
  match SFcompare a b with
  | None => S754_nan
  | Some Lt => b
  | Some Gt => a
  | Some Eq =>
      match a with
      | S754_zero true => b
      | _ => a
      end
  end.

(** The mathematical integer [floor (v + 1/2)] for [v = (-1)^s * m * 2^e]. *)
Definition roundHalfUpZ (s : bool) (m : positive) (e : Z) : Z :=
  let sm := cond_Zopp s (Zpos m) in
  match e with
  | Zneg k => (2 * sm + 2 ^ Zpos k) / 2 ^ (Zpos k + 1)
  | _ => sm * 2 ^ e
  end.

(** [Math.round]: non-finite and integral values are returned unchanged;
    a value in (0, 0.5) gives [+0], a value in [-0.5, 0) gives [-0];
    otherwise the nearest integer, the larger one on a tie. *)
Definition round (x : number) : number :=
  match x with
  | S754_finite s m e =>
      match e with
      | Zneg _ =>
          match roundHalfUpZ s m e with
          | Z0 => S754_zero s
          | z => ofZ z
          end
      | _ => x
      end
  | _ => x
  end.

(** The real value of a finite number ([0] for the others). *)
Definition toR (x : number) : R :=
  match x with
  | S754_finite s m e => (IZR (cond_Zopp s (Zpos m)) * powerRZ 2 e)%R
  | _ => 0%R
  end.

(** A well-formed binary64 datum: canonical mantissa and exponent. *)
Definition valid (x : number) : bool := valid_binary prec emax x.

End Number.

Import Number.

(* ===================================================================== *)
(** * JavaScript strings                                                  *)
(* ===================================================================== *)

Module JsString.

(** A string is its sequence of UTF-16 code units. *)
Definition jsstring : Type := list N.

Definition ofString (s : string) : jsstring :=
  map N_of_ascii (list_ascii_of_string s).

Definition eqb (a b : jsstring) : bool := bool_decide (a = b).

(** WhiteSpace and LineTerminator code points, the characters that
    [String.prototype.trim], [parseInt] and [parseFloat] strip. *)
Definition isWhiteSpace (c : N) : bool :=
  (   (c =? 9) || (c =? 10) || (c =? 11) || (c =? 12) || (c =? 13)
   || (c =? 32) || (c =? 160) || (c =? 5760)
   || ((8192 <=? c) && (c <=? 8202))
   || (c =? 8232) || (c =? 8233) || (c =? 8239) || (c =? 8287)
   || (c =? 12288) || (c =? 65279))%N.

Fixpoint trimStart (s : jsstring) : jsstring :=
  match s with
  | c :: rest => if isWhiteSpace c then trimStart rest else s
  | [] => []
  end.

Definition trimEnd (s : jsstring) : jsstring := rev (trimStart (rev s)).

Definition trim (s : jsstring) : jsstring := trimEnd (trimStart s).

(** [s.split(sep)] for a separator of one code unit; the result is never
    empty: [[].split(sep)] is [[ [] ]]. *)
Fixpoint split (sep : N) (s : jsstring) : list jsstring :=
  match s with
  | [] => [[]]
  | c :: rest =>
      if (c =? sep)%N then [] :: split sep rest
      else
        match split sep rest with
        | w :: ws => (c :: w) :: ws
        | [] => [[c]]
        end
  end.

(** [s.replace(pat, rep)] for one-unit strings: only the first
    occurrence is replaced. *)
Fixpoint replaceFirst (pat rep : N) (s : jsstring) : jsstring :=
  match s with
  | [] => []
  | c :: rest =>
      if (c =? pat)%N then rep :: rest else c :: replaceFirst pat rep rest
  end.

Fixpoint startsWith (p s : jsstring) : bool :=
  match p, s with
  | [], _ => true
  | a :: p', b :: s' => (a =? b)%N && startsWith p' s'
  | _ :: _, [] => false
  end.

(** Decimal rendering of an integer, as template literals produce it. *)
Fixpoint showPosFuel (fuel : nat) (n : N) (acc : jsstring) : jsstring :=
  match fuel with
  | O => acc
  | S fuel' =>
      let acc' := (48 + n mod 10)%N :: acc in
      if (n <? 10)%N then acc' else showPosFuel fuel' (n / 10)%N acc'
  end.

Definition showN (n : N) : jsstring := showPosFuel (S (N.to_nat (N.log2 n))) n [].

Definition showZ (z : Z) : jsstring :=
  match z with
  | Zneg p => 45%N :: showN (Npos p)
  | _ => showN (Z.to_N z)
  end.

(** Longest prefix of decimal digits, as digit values, and the rest. *)
Fixpoint takeDigits (s : jsstring) : list N * jsstring :=
  match s with
  | c :: rest =>
      if ((48 <=? c) && (c <=? 57))%N then
        let '(ds, r) := takeDigits rest in ((c - 48)%N :: ds, r)
      else ([], s)
  | [] => ([], [])
  end.

Definition digitsValue (ds : list N) : N :=
  fold_left (fun acc d => (10 * acc + d)%N) ds 0%N.

(** An optional leading sign: [(negative, rest)]. *)
Definition takeSign (s : jsstring) : bool * jsstring :=
  match s with
  | 45%N :: rest => (true, rest)
  | 43%N :: rest => (false, rest)
  | _ => (false, s)
  end.

(** [parseInt(s, 10)]: leading white space, an optional sign, then the
    longest run of decimal digits; [NaN] when there is no digit. *)
Definition parseInt (s : jsstring) : number :=
  let '(neg, s1) := takeSign (trimStart s) in
  let '(ds, _) := takeDigits s1 in
  match ds with
  | [] => NaN
  | _ => ofDecimal neg (digitsValue ds) 0
  end.

(** [parseFloat(s)]: leading white space, then the longest prefix that
    is a StrDecimalLiteral: a sign, then [Infinity] or digits with an
    optional fraction and an optional complete exponent part. *)
Definition parseFloat (s : jsstring) : number :=
  let '(neg, s1) := takeSign (trimStart s) in
  if startsWith (ofString "Infinity") s1 then S754_infinity neg
  else
    let '(ip, s2) := takeDigits s1 in
    let '(fp, s3) :=
      match s2 with
      | 46%N :: r => takeDigits r
      | _ => ([], s2)
      end in
    match ip ++ fp with
    | [] => NaN
    | ds =>
        let e10 :=
          match s3 with
          | c :: r =>
              if ((c =? 101) || (c =? 69))%N then
                let '(eneg, r1) := takeSign r in
                let '(eds, _) := takeDigits r1 in
                match eds with
                | [] => 0
                | _ => cond_Zopp eneg (Z.of_N (digitsValue eds))
                end
              else 0
          | [] => 0
          end in
        ofDecimal neg (digitsValue ds) (e10 - Z.of_nat (length fp))
    end.

End JsString.

Import JsString.

(* ===================================================================== *)
(** * packages/shared: constants and VAT utilities                        *)
(* ===================================================================== *)

Module Vat.

(** [DEFAULT_VAT_RATE = 0.21] (constants.ts). *)
Definition DEFAULT_VAT_RATE : number := ofDecimal false 21 (-2).

Record VatCalculationInput := {
  unitPriceCzk : number;
  quantity : number;
  vatRate : option number
}.

Record VatBreakdown := {
  subtotalCzk : number;
  vatAmountCzk : number;
  totalCzk : number;
  vatRateUsed : number
}.

(** [Math.round(value * 100) / 100] *)
Definition roundToTwoDecimals (value : number) : number :=
  div (round (mul value (ofZ 100))) (ofZ 100).

Definition sanitizeQuantity (quantity : number) : number :=
  if negb (isFinite quantity) || lt quantity pzero then pzero
  else max pzero (round quantity).

Definition sanitizePrice (price : number) : number :=
  if negb (isFinite price) || lt price pzero then pzero
  else max pzero price.

Definition calculateVatBreakdown (input : VatCalculationInput) : VatBreakdown :=
  let unitPrice := sanitizePrice (unitPriceCzk input) in
  let quantity := sanitizeQuantity (quantity input) in
  let vatRate := default DEFAULT_VAT_RATE (vatRate input) in
  let subtotalCzk := roundToTwoDecimals (mul unitPrice quantity) in
  let vatAmountCzk := roundToTwoDecimals (mul subtotalCzk vatRate) in
  let totalCzk := roundToTwoDecimals (add subtotalCzk vatAmountCzk) in
  {| subtotalCzk := subtotalCzk;
     vatAmountCzk := vatAmountCzk;
     totalCzk := totalCzk;
     vatRateUsed := vatRate |}.

Definition calculateVatAmount (priceBeforeVat : number) (vatRate : option number) : number :=
  let vatRate := default DEFAULT_VAT_RATE vatRate in
  let sanitizedPrice := sanitizePrice priceBeforeVat in
  roundToTwoDecimals (mul sanitizedPrice vatRate).

Definition calculateTotalWithVat (priceBeforeVat : number) (vatRate : option number) : number :=
  let vatRate := default DEFAULT_VAT_RATE vatRate in
  let sanitizedPrice := sanitizePrice priceBeforeVat in
  let vatAmount := calculateVatAmount sanitizedPrice (Some vatRate) in
  roundToTwoDecimals (add sanitizedPrice vatAmount).

Definition calculatePriceBeforeVat (priceWithVat : number) (vatRate : option number) : number :=
  let vatRate := default DEFAULT_VAT_RATE vatRate in
  let sanitizedPrice := sanitizePrice priceWithVat in
  roundToTwoDecimals (div sanitizedPrice (add (ofZ 1) vatRate)).

End Vat.

Import Vat.

(* ===================================================================== *)
(** * The runtime: outbound HTTP and the clock                            *)
(* ===================================================================== *)

Module Runtime.

(** A value caught by [catch (error)]: an [Error] with its message, or
    something that is not an [Error]. *)
Inductive Thrown :=
  | ThrownError (message : jsstring)
  | ThrownOther.

(** What [await response.text()] does. *)
Inductive BodyOutcome :=
  | BodyText (text : jsstring)
  | BodyFails (e : Thrown).

(** What the network does with one request: the promise rejects (DNS,
    connection reset, ...), or a response with a status arrives.
    [latencyMs] is the time until either happens; [bodyMs] is the time
    that reading the body of a response then takes, until the text is
    there or the reading fails.  Both are finite: a body that never
    ends, on which the caller would wait for ever, is not described. *)
Inductive FetchBehaviour :=
  | Rejects (e : Thrown)
  | Responds (status : N) (body : BodyOutcome).

Record FetchOutcome := {
  latencyMs : N;
  bodyMs : N;
  behaviour : FetchBehaviour
}.

(** The message of the [AbortError] with which [fetch] rejects when its
    [AbortController] fires. *)
Definition abortMessage : jsstring := ofString "This operation was aborted".

(** [response.ok] *)
Definition ok (status : N) : bool := ((200 <=? status) && (status <=? 299))%N.

(** The network answers the n-th outbound request of a run. *)
Definition Network : Type := nat -> FetchOutcome.

(** The part of the world the rate service touches: the clock (epoch
    milliseconds) and the log of outbound requests, latest first. *)
Record Net := {
  clock : N;
  requests : list jsstring
}.

End Runtime.

Import Runtime.

(* ===================================================================== *)
(** * apps/api: services/cnbRates.service.ts                              *)
(* ===================================================================== *)

Module Cnb.

Inductive SupportedCurrency := EUR | USD | PLN.

Definition SUPPORTED_CURRENCIES : list SupportedCurrency := [EUR; USD; PLN].

Definition codeString (c : SupportedCurrency) : jsstring :=
  match c with
  | EUR => ofString "EUR"
  | USD => ofString "USD"
  | PLN => ofString "PLN"
  end.

(** [SUPPORTED_CURRENCIES.includes(code)], giving the member found. *)
Definition supported (code : jsstring) : option SupportedCurrency :=
  find (fun c => JsString.eqb (codeString c) code) SUPPORTED_CURRENCIES.

(** [CnbRates = Record<SupportedCurrency, number | null>] *)
Record CnbRates := {
  rEUR : option number;
  rUSD : option number;
  rPLN : option number
}.

Definition getRate (rates : CnbRates) (c : SupportedCurrency) : option number :=
  match c with
  | EUR => rEUR rates
  | USD => rUSD rates
  | PLN => rPLN rates
  end.

Definition setRate (c : SupportedCurrency) (v : number) (rates : CnbRates) : CnbRates :=
  match c with
  | EUR => {| rEUR := Some v; rUSD := rUSD rates; rPLN := rPLN rates |}
  | USD => {| rEUR := rEUR rates; rUSD := Some v; rPLN := rPLN rates |}
  | PLN => {| rEUR := rEUR rates; rUSD := rUSD rates; rPLN := Some v |}
  end.

Definition noRates : CnbRates := {| rEUR := None; rUSD := None; rPLN := None |}.

Record FetchRatesResult := {
  success : bool;
  rates : option CnbRates;
  error : option jsstring;
  fetchedAt : option N
}.

Record CurrencyConversionResult := {
  code : SupportedCurrency;
  amount : option number;
  formatted : jsstring
}.

Record ConversionResult := {
  originalCzk : number;
  fxAvailable : bool;
  conversions : list CurrencyConversionResult
}.

Definition CNB_API_URL : jsstring :=
  ofString "https://www.cnb.cz/cs/financni-trhy/devizovy-trh/kurzy-devizoveho-trhu/kurzy-devizoveho-trhu/denni_kurz.txt".

Definition FETCH_TIMEOUT_MS : N := 10000.

(** The body of the [for] loop of [parseRatesText] for one line. *)
Definition parseLine (rates : CnbRates) (line : jsstring) : CnbRates :=
  match line with
  | [] => rates
  | _ =>
      let parts := split 124 line in
      if (length parts <? 5)%nat then rates
      else
        let code := trim (nth 3 parts []) in
        let amountStr := trim (nth 2 parts []) in
        let rateStr := trim (nth 4 parts []) in
        match supported code with
        | None => rates
        | Some c =>
            let amount := parseInt amountStr in
            let rate := parseFloat (replaceFirst 44 46 rateStr) in
            if isNaN amount || isNaN rate || strictEq amount pzero then rates
            else setRate c (div rate amount) rates
        end
  end.

(** The loop [for (let i = 2; i < lines.length; i++)]. *)
Definition parseLines (lines : list jsstring) : CnbRates :=
  fold_left parseLine (drop 2 lines) noRates.

Definition parseRatesText (text : jsstring) : CnbRates :=
  parseLines (split 10 (trim text)).

Definition notAvailable : jsstring := ofString "N/A".

(** The message the [catch] block extracts. *)
Definition errorMessage (e : Thrown) : jsstring :=
  match e with
  | ThrownError m => m
  | ThrownOther => ofString "Unknown error"
  end.

Definition failed (message : jsstring) : FetchRatesResult :=
  {| success := false; rates := None; error := Some message; fetchedAt := None |}.

(** What [await fetch(CNB_API_URL, { signal })] gives under the 10 s
    abort timer: the response status and body, or the rejection. *)
Definition awaitFetch (o : FetchOutcome) : Thrown + (N * BodyOutcome) :=
  if (FETCH_TIMEOUT_MS <=? latencyMs o)%N then inl (ThrownError abortMessage)
  else
    match behaviour o with
    | Rejects e => inl e
    | Responds status body => inr (status, body)
    end.

(** [fetchCnbRates]: one outbound request, every time it is called.
    The abort timer runs until the response arrives and is cleared
    before the body is read ([clearTimeout] precedes
    [await response.text()]), so the reading of the body of an accepted
    response adds its own time, which the timer does not bound. *)
Definition fetchCnbRates (net : Network) (w : Net) : FetchRatesResult * Net :=
  let o := net (length (requests w)) in
  let w' := {| clock := (clock w + N.min (latencyMs o) FETCH_TIMEOUT_MS)%N;
               requests := CNB_API_URL :: requests w |} in
  match awaitFetch o with
  | inl e =>
      (failed (ofString "Failed to fetch rates: " ++ errorMessage e), w')
  | inr (status, body) =>
      if negb (ok status) then
        (failed (ofString "CNB API returned status " ++ showN status), w')
      else
        let w'' := {| clock := (clock w' + bodyMs o)%N; requests := requests w' |} in
        match body with
        | BodyFails e =>
            (failed (ofString "Failed to fetch rates: " ++ errorMessage e), w'')
        | BodyText text =>
            ({| success := true;
                rates := Some (parseRatesText text);
                error := None;
                fetchedAt := Some (clock w'') |}, w'')
        end
  end.

Section Formatting.

(** [formatPrice] of [@fapi/shared] is [Intl.NumberFormat] of the
    platform; it is a parameter. *)
Variable formatPrice : number -> jsstring -> jsstring.

(** One iteration of [for (const code of SUPPORTED_CURRENCIES)]; the
    second component tells whether the currency converted. *)
Definition convertOne (amountCzk : number) (rates : option CnbRates)
    (code : SupportedCurrency) : CurrencyConversionResult * bool :=
  match rates ≫= (fun r => getRate r code) with
  | Some rate =>
      if gt rate pzero then
        let convertedAmount := div amountCzk rate in
        let roundedAmount := div (round (mul convertedAmount (ofZ 100))) (ofZ 100) in
        ({| code := code;
            amount := Some roundedAmount;
            formatted := formatPrice roundedAmount (codeString code) |}, true)
      else
        ({| code := code; amount := None; formatted := notAvailable |}, false)
  | None =>
      ({| code := code; amount := None; formatted := notAvailable |}, false)
  end.

Definition convertFromCzk (amountCzk : number) (rates : option CnbRates)
    : ConversionResult :=
  let results := map (convertOne amountCzk rates) SUPPORTED_CURRENCIES in
  {| originalCzk := amountCzk;
     fxAvailable := existsb snd results;
     conversions := map fst results |}.

Definition fetchAndConvert (net : Network) (amountCzk : number) (w : Net)
    : ConversionResult * Net :=
  let '(r, w') := fetchCnbRates net w in
  (convertFromCzk amountCzk (rates r), w').

End Formatting.

End Cnb.

Import Cnb.

(* ===================================================================== *)
(** * apps/api: lib/errors.ts                                             *)
(* ===================================================================== *)

Module Errors.

Record ApiError := {
  statusCode : Z;
  message : jsstring;
  code : option jsstring;
  name : jsstring
}.

(** [new NotFoundError(resource, id)]; an [id] of 0 is falsy. *)
Definition NotFoundError (resource : jsstring) (id : Z) : ApiError :=
  {| statusCode := 404;
     message :=
       if (id =? 0)%Z then resource ++ ofString " not found"
       else resource ++ ofString " with ID " ++ showZ id ++ ofString " not found";
     code := Some (ofString "NOT_FOUND");
     name := ofString "NotFoundError" |}.

Definition ConflictError (message : jsstring) : ApiError :=
  {| statusCode := 409;
     message := message;
     code := Some (ofString "CONFLICT");
     name := ofString "ConflictError" |}.

(** What a service call can throw: one of the API errors above, or an
    error raised by the storage client (constraint violation, lost
    connection, failed commit). *)
Inductive Exception :=
  | Api (e : ApiError)
  | StorageFailure (what : jsstring).

Inductive Result (A : Type) :=
  | Ok (a : A)
  | Throws (e : Exception).
Arguments Ok {A} a.
Arguments Throws {A} e.

Definition isNotFound (e : Exception) : bool :=
  match e with
  | Api a => (statusCode a =? 404)%Z && bool_decide (code a = Some (ofString "NOT_FOUND"))
  | StorageFailure _ => false
  end.

Definition isConflict (e : Exception) : bool :=
  match e with
  | Api a => (statusCode a =? 409)%Z && bool_decide (code a = Some (ofString "CONFLICT"))
  | StorageFailure _ => false
  end.

End Errors.

Import Errors.

(* ===================================================================== *)
(** * The storage port: tables and the transaction client                 *)
(* ===================================================================== *)

Module Product.
Record t := {
  id : Z;
  title : jsstring;
  description : option jsstring;
  priceCzk : number;
  quantity : Z;
  createdAt : N
}.

Definition withQuantity (q : Z) (p : t) : t :=
  {| id := id p; title := title p; description := description p;
     priceCzk := priceCzk p; quantity := q; createdAt := createdAt p |}.
End Product.

Module Customer.
Record t := {
  name : jsstring;
  email : jsstring;
  phone : jsstring;
  addressLine1 : jsstring;
  addressLine2 : option jsstring;
  city : jsstring;
  country : jsstring;
  zipCode : jsstring
}.
End Customer.

Module Order.
(** The [data] of [tx.order.create]. *)
Record data := {
  dProductId : Z;
  dCustomer : Customer.t;
  dQuantity : Z;
  dUnitPriceCzk : number;
  dSubtotalCzk : number;
  dVatRate : number;
  dVatAmountCzk : number;
  dTotalPriceCzk : number
}.

(** A row of the order table. *)
Record t := {
  id : Z;
  createdAt : N;
  productId : Z;
  customer : Customer.t;
  quantity : Z;
  unitPriceCzk : number;
  subtotalCzk : number;
  vatRate : number;
  vatAmountCzk : number;
  totalPriceCzk : number
}.

Definition ofData (id : Z) (now : N) (d : data) : t :=
  {| id := id; createdAt := now; productId := dProductId d;
     customer := dCustomer d; quantity := dQuantity d;
     unitPriceCzk := dUnitPriceCzk d; subtotalCzk := dSubtotalCzk d;
     vatRate := dVatRate d; vatAmountCzk := dVatAmountCzk d;
     totalPriceCzk := dTotalPriceCzk d |}.
End Order.

Module Storage.

(** The product table is keyed by id; the order table is the list of
    its rows in insertion order (rows are only ever added). *)
Record Tables := {
  products : gmap Z Product.t;
  orders : list Order.t
}.

Definition findOrderRow (id : Z) (t : Tables) : option Order.t :=
  find (fun o => (Order.id o =? id)%Z) (orders t).

(** An order row with the relation [product] loaded
    ([include: { product: true }]). *)
Definition OrderWithProduct : Type := Order.t * Product.t.

(** The statements of a transaction against the client [tx], in
    continuation form: each constructor is one awaited call. *)
Inductive Tx (A : Type) : Type :=
  | TxReturn (a : A)
  | TxThrow (e : Exception)
  | ProductFindUnique (id : Z) (k : option Product.t -> Tx A)
  | OrderCreate (d : Order.data) (k : OrderWithProduct -> Tx A)
  | ProductDecrement (id : Z) (n : Z) (k : Product.t -> Tx A).
Arguments TxReturn {A} a.
Arguments TxThrow {A} e.
Arguments ProductFindUnique {A} id k.
Arguments OrderCreate {A} d k.
Arguments ProductDecrement {A} id n k.

Fixpoint bind {A B : Type} (m : Tx A) (f : A -> Tx B) : Tx B :=
  match m with
  | TxReturn a => f a
  | TxThrow e => TxThrow e
  | ProductFindUnique id k => ProductFindUnique id (fun r => bind (k r) f)
  | OrderCreate d k => OrderCreate d (fun r => bind (k r) f)
  | ProductDecrement id n k => ProductDecrement id n (fun r => bind (k r) f)
  end.

Definition findUnique (id : Z) : Tx (option Product.t) := ProductFindUnique id TxReturn.
Definition create (d : Order.data) : Tx OrderWithProduct := OrderCreate d TxReturn.
Definition decrement (id n : Z) : Tx Product.t := ProductDecrement id n TxReturn.

(** The awaited calls a transaction makes, for naming the one at which
    the storage fails. *)
Inductive Statement := SFind | SCreate | SUpdate | SCommit.

Definition Faults : Type := Statement -> bool.
Definition noFaults : Faults := fun _ => false.

Definition failure (s : Statement) : Exception :=
  StorageFailure
    match s with
    | SFind => ofString "product.findUnique failed"
    | SCreate => ofString "order.create failed"
    | SUpdate => ofString "product.update failed"
    | SCommit => ofString "commit failed"
    end.

(** The database: the committed tables, the order-id sequence (which a
    rollback does not rewind) and the database clock. *)
Record Db := {
  tables : Tables;
  orderSeq : Z;
  dbClock : N
}.

(** One transaction run alone on its private view of the tables. *)
Fixpoint runTx {A : Type} (faulty : Faults) (now : N) (p : Tx A)
    (t : Tables) (seq : Z) : Result A * Tables * Z :=
  match p with
  | TxReturn a => (Ok a, t, seq)
  | TxThrow e => (Throws e, t, seq)
  | ProductFindUnique id k =>
      if faulty SFind then (Throws (failure SFind), t, seq)
      else runTx faulty now (k (products t !! id)) t seq
  | OrderCreate d k =>
      if faulty SCreate then (Throws (failure SCreate), t, seq)
      else
        match products t !! Order.dProductId d with
        | None => (Throws (StorageFailure (ofString "foreign key violation")), t, seq)
        | Some p =>
            let row := Order.ofData seq now d in
            runTx faulty now (k (row, p))
              {| products := products t; orders := orders t ++ [row] |}
              (seq + 1)
        end
  | ProductDecrement id n k =>
      if faulty SUpdate then (Throws (failure SUpdate), t, seq)
      else
        match products t !! id with
        | None => (Throws (StorageFailure (ofString "record to update not found")), t, seq)
        | Some p =>
            let p' := Product.withQuantity (Product.quantity p - n) p in
            runTx faulty now (k p')
              {| products := <[id := p']> (products t); orders := orders t |}
              seq
        end
  end.

(** [prisma.$transaction(callback)]: the callback's writes are committed
    together when it returns, and discarded when it (or the commit)
    throws. *)
Definition transaction {A : Type} (faulty : Faults) (p : Tx A) (db : Db)
    : Result A * Db :=
  match runTx faulty (dbClock db) p (tables db) (orderSeq db) with
  | (Ok a, t', seq') =>
      if faulty SCommit then
        (Throws (failure SCommit),
         {| tables := tables db; orderSeq := seq'; dbClock := dbClock db |})
      else
        (Ok a, {| tables := t'; orderSeq := seq'; dbClock := dbClock db |})
  | (Throws e, _, seq') =>
      (Throws e, {| tables := tables db; orderSeq := seq'; dbClock := dbClock db |})
  end.

End Storage.

Import Storage.

(* ===================================================================== *)
(** * apps/api: services/orders.service.ts                                *)
(* ===================================================================== *)

Module CreateOrderInput.
Record t := {
  productId : Z;
  quantity : Z;
  customer : Customer.t
}.
End CreateOrderInput.

Module ProductDTO.
Record t := {
  id : Z;
  title : jsstring;
  description : option jsstring;
  priceCzk : number;
  formattedPrice : jsstring;
  available : bool;
  quantity : Z
}.
End ProductDTO.

Module CurrencyConversion.
(** [CurrencyConversion] of the shared types: the amount is a number. *)
Record t := {
  code : SupportedCurrency;
  amount : number;
  formatted : jsstring
}.
End CurrencyConversion.

Module OrderWithConversions.
(** The order's own fields are kept together in [order]. *)
Record t := {
  order : Order.t;
  product : ProductDTO.t;
  conversions : list CurrencyConversion.t
}.
End OrderWithConversions.

Module OrderBasic.
Record t := {
  id : Z;
  createdAt : N;
  productId : Z;
  productTitle : jsstring;
  quantity : Z;
  customerName : jsstring;
  customerEmail : jsstring;
  unitPriceCzk : number;
  subtotalCzk : number;
  vatRate : number;
  vatAmountCzk : number;
  totalPriceCzk : number
}.
End OrderBasic.

(** The state the services act on: the database and the network side. *)
Record World := {
  db : Db;
  net : Net
}.

Module OrdersService.

Definition insufficientStock (available requested : Z) : jsstring :=
  ofString "Insufficient stock. Available: " ++ showZ available
    ++ ofString ", Requested: " ++ showZ requested.

(** The callback of [prisma.$transaction] in [create], steps 1 to 5. *)
Definition createTx (input : CreateOrderInput.t) : Tx OrderWithProduct :=
  ProductFindUnique (CreateOrderInput.productId input) (fun product =>
    match product with
    | None =>
        TxThrow (Api (NotFoundError (ofString "Product") (CreateOrderInput.productId input)))
    | Some product =>
        if (Product.quantity product <? CreateOrderInput.quantity input)%Z then
          TxThrow (Api (ConflictError
            (insufficientStock (Product.quantity product) (CreateOrderInput.quantity input))))
        else
          let unitPriceCzk := Product.priceCzk product in
          let vatBreakdown :=
            calculateVatBreakdown
              {| Vat.unitPriceCzk := unitPriceCzk;
                 Vat.quantity := ofZ (CreateOrderInput.quantity input);
                 Vat.vatRate := Some DEFAULT_VAT_RATE |} in
          OrderCreate
            {| Order.dProductId := CreateOrderInput.productId input;
               Order.dCustomer := CreateOrderInput.customer input;
               Order.dQuantity := CreateOrderInput.quantity input;
               Order.dUnitPriceCzk := unitPriceCzk;
               Order.dSubtotalCzk := Vat.subtotalCzk vatBreakdown;
               Order.dVatRate := Vat.vatRateUsed vatBreakdown;
               Order.dVatAmountCzk := Vat.vatAmountCzk vatBreakdown;
               Order.dTotalPriceCzk := Vat.totalCzk vatBreakdown |}
            (fun createdOrder =>
          ProductDecrement (CreateOrderInput.productId input)
            (CreateOrderInput.quantity input) (fun _ =>
          TxReturn createdOrder))
    end).

Section Formatting.

(** [formatPrice] and [formatPriceCZK] of [@fapi/shared] format with the
    platform's [Intl.NumberFormat]; they are parameters. *)
Variable formatPrice : number -> jsstring -> jsstring.
Variable formatPriceCZK : number -> jsstring.

Definition enrichOrderWithConversions (network : Network)
    (order : OrderWithProduct) (w : Net) : OrderWithConversions.t * Net :=
  let totalCzk := Order.totalPriceCzk (fst order) in
  let '(fxResult, w') := fetchAndConvert formatPrice network totalCzk w in
  let conversions :=
    map (fun c =>
           {| CurrencyConversion.code := Cnb.code c;
              CurrencyConversion.amount := default (ofZ 0) (Cnb.amount c);
              CurrencyConversion.formatted := Cnb.formatted c |})
        (Cnb.conversions fxResult) in
  let productDTO :=
    {| ProductDTO.id := Product.id (snd order);
       ProductDTO.title := Product.title (snd order);
       ProductDTO.description := Product.description (snd order);
       ProductDTO.priceCzk := Product.priceCzk (snd order);
       ProductDTO.formattedPrice := formatPriceCZK (Product.priceCzk (snd order));
       ProductDTO.available := (0 <? Product.quantity (snd order))%Z;
       ProductDTO.quantity := Product.quantity (snd order) |} in
  ({| OrderWithConversions.order := fst order;
      OrderWithConversions.product := productDTO;
      OrderWithConversions.conversions := conversions |}, w').

Definition create (faulty : Faults) (network : Network)
    (input : CreateOrderInput.t) (w : World)
    : Result OrderWithConversions.t * World :=
  match transaction faulty (createTx input) (db w) with
  | (Ok order, db') =>
      let '(r, n') := enrichOrderWithConversions network order (net w) in
      (Ok r, {| db := db'; net := n' |})
  | (Throws e, db') => (Throws e, {| db := db'; net := net w |})
  end.

(** [prisma.order.findUnique({ where: { id }, include: { product } })];
    [readFails] says whether the storage fails this read. *)
Definition findOrder (readFails : bool) (id : Z) (t : Tables)
    : Result (option OrderWithProduct) :=
  if readFails then Throws (StorageFailure (ofString "order.findUnique failed"))
  else
    match findOrderRow id t with
    | None => Ok None
    | Some o =>
        match products t !! Order.productId o with
        | Some p => Ok (Some (o, p))
        | None => Throws (StorageFailure (ofString "inconsistent relation"))
        end
    end.

Definition findById (readFails : bool) (network : Network) (id : Z) (w : World)
    : Result OrderWithConversions.t * World :=
  match findOrder readFails id (tables (db w)) with
  | Throws e => (Throws e, w)
  | Ok None => (Throws (Api (NotFoundError (ofString "Order") id)), w)
  | Ok (Some order) =>
      let '(r, n') := enrichOrderWithConversions network order (net w) in
      (Ok r, {| db := db w; net := n' |})
  end.

Definition findByIdBasic (readFails : bool) (id : Z) (t : Tables)
    : Result OrderBasic.t :=
  match findOrder readFails id t with
  | Throws e => Throws e
  | Ok None => Throws (Api (NotFoundError (ofString "Order") id))
  | Ok (Some (order, product)) =>
      Ok {| OrderBasic.id := Order.id order;
            OrderBasic.createdAt := Order.createdAt order;
            OrderBasic.productId := Order.productId order;
            OrderBasic.productTitle := Product.title product;
            OrderBasic.quantity := Order.quantity order;
            OrderBasic.customerName := Customer.name (Order.customer order);
            OrderBasic.customerEmail := Customer.email (Order.customer order);
            OrderBasic.unitPriceCzk := Order.unitPriceCzk order;
            OrderBasic.subtotalCzk := Order.subtotalCzk order;
            OrderBasic.vatRate := Order.vatRate order;
            OrderBasic.vatAmountCzk := Order.vatAmountCzk order;
            OrderBasic.totalPriceCzk := Order.totalPriceCzk order |}
  end.

End Formatting.

End OrdersService.

(* ===================================================================== *)
(** * apps/api: controllers/orders.controller.ts                          *)
(* ===================================================================== *)

Module OrdersController.

Record Formatted := {
  subtotal : jsstring;
  vatAmount : jsstring;
  total : jsstring
}.

Record CzkTotals := {
  subtotalCzk : number;
  vatAmountCzk : number;
  vatRate : number;
  totalCzk : number;
  formatted : Formatted
}.

Record Fx := {
  available : bool;
  error : option jsstring;
  conversions : list CurrencyConversionResult
}.

Record OrderInfo := {
  id : Z;
  createdAt : N;
  productId : Z;
  productTitle : jsstring;
  quantity : Z;
  customerName : jsstring;
  customerEmail : jsstring
}.

Record Summary := {
  order : OrderInfo;
  czk : CzkTotals;
  fx : Fx
}.

Section Formatting.

Variable formatPrice : number -> jsstring -> jsstring.
Variable formatPriceCZK : number -> jsstring.

(** [getSummary] for an already validated order id: the summary sent
    with [res.json], or the exception handed to the error handler. *)
Definition getSummary (readFails : bool) (network : Network) (id : Z)
    (w : World) : Result Summary * World :=
  match OrdersService.findByIdBasic readFails id (tables (db w)) with
  | Throws e => (Throws e, w)
  | Ok order =>
      let czkTotals :=
        {| subtotalCzk := OrderBasic.subtotalCzk order;
           vatAmountCzk := OrderBasic.vatAmountCzk order;
           vatRate := OrderBasic.vatRate order;
           totalCzk := OrderBasic.totalPriceCzk order;
           formatted :=
             {| subtotal := formatPriceCZK (OrderBasic.subtotalCzk order);
                vatAmount := formatPriceCZK (OrderBasic.vatAmountCzk order);
                total := formatPriceCZK (OrderBasic.totalPriceCzk order) |} |} in
      let '(fxResult, n') := fetchCnbRates network (net w) in
      let conversionResult :=
        convertFromCzk formatPrice (OrderBasic.totalPriceCzk order) (rates fxResult) in
      (Ok {| order :=
               {| id := OrderBasic.id order;
                  createdAt := OrderBasic.createdAt order;
                  productId := OrderBasic.productId order;
                  productTitle := OrderBasic.productTitle order;
                  quantity := OrderBasic.quantity order;
                  customerName := OrderBasic.customerName order;
                  customerEmail := OrderBasic.customerEmail order |};
             czk := czkTotals;
             fx :=
               {| available := fxAvailable conversionResult;
                  error := if success fxResult then None else Cnb.error fxResult;
                  conversions := Cnb.conversions conversionResult |} |},
       {| db := db w; net := n' |})
  end.

End Formatting.

End OrdersController.

(* ===================================================================== *)
(** * Concurrent transactions against one database                        *)
(* ===================================================================== *)

(** [prisma.$transaction(callback)] is called without an [isolationLevel]
    option, so the transactions run at the database's default level, READ
    COMMITTED: a statement reads the rows committed so far (and the
    transaction's own writes); [UPDATE ... SET quantity = quantity - n]
    waits while another open transaction has written the row, then applies
    to the row as then committed; the writes of a transaction become
    visible to the others together, when it commits. *)

Module Concurrent.

(** The writes of an open transaction: the rows it inserted and the
    decrements it applied (it holds the lock of each row it updated). *)
Record Pending := {
  inserted : list Order.t;
  decrements : list (Z * Z)
}.

Definition nothing : Pending := {| inserted := []; decrements := [] |}.

Inductive Client (A : Type) :=
  | Running (p : Tx A) (w : Pending)
  | Committed (a : A)
  | RolledBack (e : Exception).
Arguments Running {A} p w.
Arguments Committed {A} a.
Arguments RolledBack {A} e.

Record State (A : Type) := {
  committed : Tables;
  seq : Z;
  now : N;
  clients : list (Client A)
}.
Arguments committed {A} s.
Arguments seq {A} s.
Arguments now {A} s.
Arguments clients {A} s.

(** Total of the decrements a transaction has applied to row [id]. *)
Definition decrementOf (id : Z) (ds : list (Z * Z)) : Z :=
  fold_right (fun d acc => if (fst d =? id)%Z then snd d + acc else acc) 0 ds.

Definition applyDecrement (d : Z * Z) (ps : gmap Z Product.t) : gmap Z Product.t :=
  alter (fun p => Product.withQuantity (Product.quantity p - snd d) p) (fst d) ps.

(** The product row as the transaction sees it. *)
Definition viewProduct (t : Tables) (w : Pending) (id : Z) : option Product.t :=
  (fun p => Product.withQuantity (Product.quantity p - decrementOf id (decrements w)) p)
    <$> products t !! id.

(** The tables after the transaction's writes are committed. *)
Definition commit (w : Pending) (t : Tables) : Tables :=
  {| products := fold_right applyDecrement (products t) (decrements w);
     orders := orders t ++ rev (inserted w) |}.

Definition holdsLock {A : Type} (id : Z) (c : Client A) : bool :=
  match c with
  | Running _ w => existsb (fun d => (fst d =? id)%Z) (decrements w)
  | _ => false
  end.

(** Whether a client other than the [i]-th holds the lock of row [id]. *)
Definition lockedByOther {A : Type} (i : nat) (id : Z) (cs : list (Client A)) : bool :=
  existsb (fun jc => negb (Nat.eqb (fst jc) i) && holdsLock id (snd jc))
          (imap (fun j c => (j, c)) cs).

Definition setClient {A : Type} (i : nat) (c : Client A) (s : State A) : State A :=
  {| committed := committed s; seq := seq s; now := now s;
     clients := <[i := c]> (clients s) |}.

(** The next statement of client [i]; [None] when the client has
    finished or must wait for a row lock. *)
Definition stepClient {A : Type} (i : nat) (s : State A) : option (State A) :=
  match clients s !! i with
  | Some (Running p w) =>
      match p with
      | TxReturn a =>
          Some {| committed := commit w (committed s); seq := seq s; now := now s;
                  clients := <[i := Committed a]> (clients s) |}
      | TxThrow e => Some (setClient i (RolledBack e) s)
      | ProductFindUnique id k =>
          Some (setClient i (Running (k (viewProduct (committed s) w id)) w) s)
      | OrderCreate d k =>
          match viewProduct (committed s) w (Order.dProductId d) with
          | None =>
              Some (setClient i
                      (RolledBack (StorageFailure (ofString "foreign key violation"))) s)
          | Some p =>
              let row := Order.ofData (seq s) (now s) d in
              Some {| committed := committed s; seq := seq s + 1; now := now s;
                      clients :=
                        <[i := Running (k (row, p))
                                 {| inserted := row :: inserted w;
                                    decrements := decrements w |}]> (clients s) |}
          end
      | ProductDecrement id n k =>
          if lockedByOther i id (clients s) then None
          else
            match viewProduct (committed s) w id with
            | None =>
                Some (setClient i
                        (RolledBack (StorageFailure (ofString "record to update not found"))) s)
            | Some p =>
                let p' := Product.withQuantity (Product.quantity p - n) p in
                Some (setClient i
                        (Running (k p')
                           {| inserted := inserted w;
                              decrements := (id, n) :: decrements w |}) s)
            end
      end
  | _ => None
  end.

(** The storage fails the next statement (or the commit) of client [i]. *)
Definition failClient {A : Type} (i : nat) (s : State A) : option (State A) :=
  match clients s !! i with
  | Some (Running _ _) =>
      Some (setClient i (RolledBack (StorageFailure (ofString "storage failure"))) s)
  | _ => None
  end.

Inductive Event :=
  | Step (i : nat)
  | Fail (i : nat).

Definition exec {A : Type} (s : State A) (e : Event) : State A :=
  match e with
  | Step i => default s (stepClient i s)
  | Fail i => default s (failClient i s)
  end.

(** The state after a schedule of events. *)
Definition run {A : Type} (schedule : list Event) (s : State A) : State A :=
  fold_left exec schedule s.

Definition start {A : Type} (db : Db) (ps : list (Tx A)) : State A :=
  {| committed := tables db; seq := orderSeq db; now := dbClock db;
     clients := map (fun p => Running p nothing) ps |}.

(** Stock of a product and the quantity ordered of it, as a reader of
    the committed tables sees them. *)
Definition stock (t : Tables) (id : Z) : Z :=
  from_option Product.quantity 0 (products t !! id).

Definition orderedOf (id : Z) (os : list Order.t) : Z :=
  fold_right (fun o acc => if (Order.productId o =? id)%Z then Order.quantity o + acc else acc)
             0 os.

Definition isCommitted {A : Type} (c : Client A) : bool :=
  match c with
  | Committed _ => true
  | _ => false
  end.

End Concurrent.

(* ===================================================================== *)
(** * Rounding to binary64: what the error analysis speaks about        *)
(* ===================================================================== *)

Section Bounds.
Local Open Scope R_scope.

(** A shift record [(m, r, s)] places a real [y] in [[m, m + 1)]: at [m],
    below, at or above the middle, as the round and sticky bits say. *)
Definition locates (mrs : shr_record) (y : R) : Prop :=
  (0 <= shr_m mrs)%Z /\
  match shr_r mrs, shr_s mrs with
  | false, false => y = IZR (shr_m mrs)
  | false, true => IZR (shr_m mrs) < y < IZR (shr_m mrs) + 1 / 2
  | true, false => y = IZR (shr_m mrs) + 1 / 2
  | true, true => IZR (shr_m mrs) + 1 / 2 < y < IZR (shr_m mrs) + 1
  end.

(** What rounding a positive real [x] to binary64 with sign [s] yields:
    a well-formed zero or finite number within half a unit in the last
    place. *)
Definition rounds_to (s : bool) (x : R) (r : number) : Prop :=
  (r = S754_zero s \/
   exists m e, r = S754_finite s m e /\ bounded prec emax m e = true)
  /\ Rabs (Rabs (toR r) - x) <= x * powerRZ 2 (-53) + powerRZ 2 (-1075).

(** Rounding yields a zero, a finite number or an infinity, never NaN. *)
Definition roundedOrInfinite (s : bool) (x : R) (r : number) : Prop :=
  rounds_to s x r \/ r = S754_infinity s.

(** A zero or a well-formed positive finite number. *)
Definition fin_nonneg (x : number) : Prop :=
  (exists sg, x = S754_zero sg)
  \/ exists m e, x = S754_finite false m e /\ bounded prec emax m e = true.

(** Unit roundoff and the underflow threshold of binary64. *)
Definition u64 : R := powerRZ 2 (-53).
Definition eta64 : R := powerRZ 2 (-1075).

(** [r] is the rounding of the non-negative real [x]. *)
Definition approx (r : number) (x : R) : Prop :=
  fin_nonneg r /\ Rabs (toR r - x) <= x * u64 + eta64.

End Bounds.

(* ===================================================================== *)
(** * Properties of a VAT breakdown                                     *)
(* ===================================================================== *)

(** [x] is a finite amount within [eps] of the real [y]. *)
Definition closeTo (eps : R) (x : number) (y : R) : Prop :=
  isFinite x = true /\ (Rabs (toR x - y) <= eps)%R.

(** Subtotal plus tax is the total, to within half a cent. *)
Definition sumsUp (b : VatBreakdown) : Prop :=
  isFinite (subtotalCzk b) = true /\ isFinite (vatAmountCzk b) = true
  /\ closeTo (1 / 200) (totalCzk b) (toR (subtotalCzk b) + toR (vatAmountCzk b)).

(** The total is within one cent of its price before tax times [1 + rate]. *)
Definition roundTrips (b : VatBreakdown) : Prop :=
  let net := calculatePriceBeforeVat (totalCzk b) (Some (vatRateUsed b)) in
  isFinite net = true
  /\ closeTo (1 / 100) (totalCzk b) (toR net * (1 + toR (vatRateUsed b))).

(** The amounts 333.33 and 0.21 of the worked example. *)
Definition price33333 : number := ofDecimal false 33333 (-2).
Definition rate21 : number := ofDecimal false 21 (-2).

(** The two comparisons as a program evaluates them, in binary64:
    [Math.abs(total - (subtotal + vat)) <= 0.005] and
    [Math.abs(total - net * (1 + rate)) <= 0.01]. *)
Definition sumsUp64 (b : VatBreakdown) : bool :=
  SFleb (SFabs (sub (totalCzk b) (add (subtotalCzk b) (vatAmountCzk b))))
        (ofDecimal false 5 (-3)).

Definition roundTrips64 (b : VatBreakdown) : bool :=
  let net := calculatePriceBeforeVat (totalCzk b) (Some (vatRateUsed b)) in
  SFleb (SFabs (sub (totalCzk b) (mul net (add (ofZ 1) (vatRateUsed b)))))
        (ofDecimal false 1 (-2)).

(** A breakdown whose four amounts are the given numbers of cents. *)
Definition inCents (b : VatBreakdown) (subtotal vat total net : N) : Prop :=
  subtotalCzk b = ofDecimal false subtotal (-2)
  /\ vatAmountCzk b = ofDecimal false vat (-2)
  /\ totalCzk b = ofDecimal false total (-2)
  /\ calculatePriceBeforeVat (totalCzk b) (Some (vatRateUsed b)) = ofDecimal false net (-2).

(** The prices 22 521 096 153 774.51 and 6 151 755 309 121.73 and the
    rate 0.731 of the cases that fail. *)
Definition price22e12 : number := ofDecimal false 2252109615377451 (-2).
Definition price6e12 : number := ofDecimal false 615175530912173 (-2).
Definition rate731 : number := ofDecimal false 731 (-3).

(* ===================================================================== *)
(** * Rates, rows and sample data                                       *)
(* ===================================================================== *)

(** The rate at which a currency converts: present and strictly positive. *)
Definition usableRate (rates : option CnbRates) (c : SupportedCurrency) : option number :=
  match rates ≫= (fun r => getRate r c) with
  | Some rate => if gt rate pzero then Some rate else None
  | None => None
  end.

(** The three conversions when nothing converts. *)
Definition allUnavailable : list CurrencyConversionResult :=
  map (fun c => {| Cnb.code := c; Cnb.amount := None; Cnb.formatted := notAvailable |})
      SUPPORTED_CURRENCIES.

(** ** Numbers as the description of the format means them *)

Definition decimalDigit (c : N) : bool := ((48 <=? c) && (c <=? 57))%N.

(** The number that a string of decimal digits writes. *)
Definition numeralValue (digits : jsstring) : N :=
  fold_left (fun acc c => (10 * acc + (c - 48))%N) digits 0%N.

(** A non-empty string of decimal digits. *)
Definition allDigits (s : jsstring) : bool :=
  match s with
  | [] => false
  | _ => forallb decimalDigit s
  end.

(** A decimal numeral: its sign, its digits read as one integer, and how
    many of them stand after the point. *)
Record Numeral := {
  negative : bool;
  mantissa : N;
  decimals : nat
}.

(** A leading [-] or [+], taken off. *)
Definition unsigned (s : jsstring) : bool * jsstring :=
  match s with
  | 45%N :: rest => (true, rest)
  | 43%N :: rest => (false, rest)
  | _ => (false, s)
  end.

(** A field is numeric when it is, from its first to its last character,
    an optional sign, digits and optionally a point and more digits. *)
Definition readNumeral (s : jsstring) : option Numeral :=
  let '(neg, body) := unsigned s in
  match split 46 body with
  | [whole] =>
      if allDigits whole then
        Some {| negative := neg; mantissa := numeralValue whole; decimals := 0 |}
      else None
  | [whole; fraction] =>
      if allDigits whole && allDigits fraction then
        Some {| negative := neg;
                mantissa := numeralValue (whole ++ fraction);
                decimals := length fraction |}
      else None
  | _ => None
  end.

(** The binary64 number nearest to the value of a numeral. *)
Definition numberOf (n : Numeral) : number :=
  ofDecimal (negative n) (mantissa n) (- Z.of_nat (decimals n)).

(** The format of a data row, in the words of the description: fields
    separated by a vertical bar, at least the five [country, name,
    amountUnit, currencyCode, rateString]; the row counts when the code is
    a supported one, the amount and the rate (its comma made a point) are
    numeric and the amount is not zero, and then gives the rate for one
    unit, [parsedRate / amountUnit]. *)
Definition validRow (line : jsstring) : option (SupportedCurrency * number) :=
  match split 124 line with
  | _country :: _name :: amountUnit :: currencyCode :: rateString :: _ =>
      match supported (trim currencyCode),
            readNumeral (trim amountUnit),
            readNumeral (replaceFirst 44 46 (trim rateString)) with
      | Some c, Some amount, Some parsedRate =>
          if (mantissa amount =? 0)%N then None
          else Some (c, div (numberOf parsedRate) (numberOf amount))
      | _, _, _ => None
      end
  | _ => None
  end.

Definition sameCurrency (a b : SupportedCurrency) : bool :=
  match a, b with
  | EUR, EUR | USD, USD | PLN, PLN => true
  | _, _ => false
  end.

(** The rate a row gives for currency [c], if it is a valid row for [c]. *)
Definition rowFor (c : SupportedCurrency) (line : jsstring) : option number :=
  match validRow line with
  | Some (c', v) => if sameCurrency c' c then Some v else None
  | None => None
  end.

Definition storeRow (rates : CnbRates) (line : jsstring) : CnbRates :=
  match validRow line with
  | Some (c, v) => setRate c v rates
  | None => rates
  end.

(** ** Fields that are a number throughout, or do not begin with one *)

(** After an optional sign, the field begins with a digit. *)
Definition beginsWithDigit (s : jsstring) : bool :=
  match snd (unsigned s) with
  | c :: _ => decimalDigit c
  | [] => false
  end.

(** After an optional sign, the field begins with a digit, with a point
    and a digit, or with the word Infinity. *)
Definition beginsLikeNumber (s : jsstring) : bool :=
  let body := snd (unsigned s) in
  startsWith (ofString "Infinity") body
  || match body with
     | c :: rest =>
         decimalDigit c
         || ((c =? 46)%N && match rest with
                            | d :: _ => decimalDigit d
                            | [] => false
                            end)
     | [] => false
     end.

(** A numeral without decimals. *)
Definition integerNumeral (s : jsstring) : bool :=
  match readNumeral s with
  | Some n => Nat.eqb (decimals n) 0
  | None => false
  end.

(** An amount that is an integer numeral, or does not begin with a
    number at all. *)
Definition plainAmount (s : jsstring) : bool :=
  integerNumeral s || negb (beginsWithDigit s).

(** A rate that is a numeral, or does not begin with a number at all. *)
Definition plainRate (s : jsstring) : bool :=
  bool_decide (is_Some (readNumeral s)) || negb (beginsLikeNumber s).

(** A row whose amount and rate are plain; rows that the format rejects
    for their number of fields or their code are plain as they are. *)
Definition plainRow (line : jsstring) : bool :=
  match split 124 line with
  | _country :: _name :: amountUnit :: currencyCode :: rateString :: _ =>
      match supported (trim currencyCode) with
      | Some _ =>
          plainAmount (trim amountUnit)
          && plainRate (replaceFirst 44 46 (trim rateString))
      | None => true
      end
  | _ => true
  end.

(** Text that cannot continue an integer: nothing, or something that
    does not begin with a digit. *)
Definition endsInteger (rest : jsstring) : bool :=
  match rest with
  | [] => true
  | c :: _ => negb (decimalDigit c)
  end.

(** Text that cannot continue a decimal numeral: nothing, or something
    that begins with neither a digit, nor a point, nor [e] or [E]. *)
Definition endsDecimal (rest : jsstring) : bool :=
  match rest with
  | [] => true
  | c :: _ => negb (decimalDigit c || (c =? 46)%N || (c =? 101)%N || (c =? 69)%N)
  end.

(** A string without leading white space. *)
Definition noLeadingSpace (s : jsstring) : Prop :=
  match s with
  | c :: _ => isWhiteSpace c = false
  | [] => True
  end.

(** Sample data for the concrete cases. *)
Module Sample.

Definition newline : jsstring := [10%N].

(** A payload in the format of the CNB daily rates. *)
Definition payload : jsstring :=
  ofString "02.01.2024 #1" ++ newline
  ++ ofString "zeme|mena|mnozstvi|kod|kurz" ++ newline
  ++ ofString "EMU|euro|1|EUR|24,725" ++ newline
  ++ ofString "Madarsko|forint|100|HUF|6,399" ++ newline
  ++ ofString "USA|dolar|0|USD|22,500" ++ newline
  ++ ofString "Polsko|zloty|1|PLN|5,500" ++ newline.

(** A payload that is no rate table at all. *)
Definition malformed : jsstring := ofString "<html><body>Service Unavailable</body></html>".

Definition responds (status : N) (text : jsstring) : Network :=
  fun _ => {| latencyMs := 100; bodyMs := 20;
              behaviour := Responds status (BodyText text) |}.

Definition unreachable : Network :=
  fun _ => {| latencyMs := 35; bodyMs := 0;
              behaviour := Rejects (ThrownError (ofString "fetch failed")) |}.

Definition hangs : Network :=
  fun _ => {| latencyMs := 60000; bodyMs := 20;
              behaviour := Responds 200 (BodyText payload) |}.

Definition quiet : Net := {| clock := 1704200000000; requests := [] |}.

Definition customer : Customer.t :=
  {| Customer.name := ofString "Jan Novak";
     Customer.email := ofString "jan@example.com";
     Customer.phone := ofString "+420123456789";
     Customer.addressLine1 := ofString "Vaclavske namesti 1";
     Customer.addressLine2 := None;
     Customer.city := ofString "Praha";
     Customer.country := ofString "Ceska republika";
     Customer.zipCode := ofString "11000" |}.

Definition product (stock : Z) : Product.t :=
  {| Product.id := 1;
     Product.title := ofString "Test Produkt";
     Product.description := None;
     Product.priceCzk := ofZ 1000;
     Product.quantity := stock;
     Product.createdAt := 1704000000000 |}.

Definition database (stock : Z) : Db :=
  {| tables := {| products := {[ 1 := product stock ]}; orders := [] |};
     orderSeq := 1;
     dbClock := 1704200000000 |}.

Definition orderOf (productId quantity : Z) : CreateOrderInput.t :=
  {| CreateOrderInput.productId := productId;
     CreateOrderInput.quantity := quantity;
     CreateOrderInput.customer := customer |}.

Definition order (quantity : Z) : CreateOrderInput.t := orderOf 1 quantity.

(** The shop with product 1 in stock and no order yet. *)
Definition world (stock : Z) : World := {| db := database stock; net := quiet |}.

(** The storage fails the stock update, or the commit. *)
Definition updateFails : Faults :=
  fun s => match s with SUpdate => true | _ => false end.

Definition commitFails : Faults :=
  fun s => match s with SCommit => true | _ => false end.

(** A stored order whose total is zero, with its product. *)
Definition freeOrder : OrderWithProduct :=
  ({| Order.id := 7; Order.createdAt := 1704200000000; Order.productId := 1;
      Order.customer := customer; Order.quantity := 1;
      Order.unitPriceCzk := pzero; Order.subtotalCzk := pzero;
      Order.vatRate := DEFAULT_VAT_RATE; Order.vatAmountCzk := pzero;
      Order.totalPriceCzk := pzero |},
   product 4).

(** A stored order of one unit at 1000 CZK. *)
Definition paidOrder : Order.t :=
  {| Order.id := 7; Order.createdAt := 1704200000000; Order.productId := 1;
     Order.customer := customer; Order.quantity := 1;
     Order.unitPriceCzk := ofZ 1000; Order.subtotalCzk := ofZ 1000;
     Order.vatRate := DEFAULT_VAT_RATE; Order.vatAmountCzk := ofZ 210;
     Order.totalPriceCzk := ofZ 1210 |}.

(** A shop holding that order. *)
Definition shop : World :=
  {| db := {| tables := {| products := {[ 1 := product 4 ]}; orders := [paidOrder] |};
              orderSeq := 8;
              dbClock := 1704200000000 |};
     net := quiet |}.

End Sample.

(* ===================================================================== *)
(** * Order rows written and what a reader can account for              *)
(* ===================================================================== *)

(** The order row that [create] writes for [input] when the product row
    read is [p]: the price of [p], the requested quantity and the VAT
    breakdown at the default rate. *)
Definition pricedOrder (input : CreateOrderInput.t) (p : Product.t) : Order.data :=
  let b := calculateVatBreakdown
             {| Vat.unitPriceCzk := Product.priceCzk p;
                Vat.quantity := ofZ (CreateOrderInput.quantity input);
                Vat.vatRate := Some DEFAULT_VAT_RATE |} in
  {| Order.dProductId := CreateOrderInput.productId input;
     Order.dCustomer := CreateOrderInput.customer input;
     Order.dQuantity := CreateOrderInput.quantity input;
     Order.dUnitPriceCzk := Product.priceCzk p;
     Order.dSubtotalCzk := Vat.subtotalCzk b;
     Order.dVatRate := DEFAULT_VAT_RATE;
     Order.dVatAmountCzk := Vat.vatAmountCzk b;
     Order.dTotalPriceCzk := Vat.totalCzk b |}.

(** The tables with order [row] added and the stock of [p] lowered by the
    quantity of [input]. *)
Definition ordered (input : CreateOrderInput.t) (p : Product.t) (row : Order.t)
    (t : Tables) : Tables :=
  {| products :=
       <[CreateOrderInput.productId input :=
           Product.withQuantity (Product.quantity p - CreateOrderInput.quantity input) p]>
         (products t);
     orders := orders t ++ [row] |}.

Module Interleaving.

Import Concurrent.

(** What a reader of the committed tables can add up for product [id]:
    the stock left and the quantity on the order rows. *)
Definition accounted (t : Tables) (id : Z) : Z :=
  stock t id + orderedOf id (orders t).

(** A transaction with [ins] units of product [id] inserted and [dec]
    units decremented so far is balanced when every way it can still
    return has inserted as many units as it has decremented. *)
Fixpoint balanced {A : Type} (id : Z) (p : Tx A) (ins dec : Z) : Prop :=
  match p with
  | TxReturn _ => ins = dec
  | TxThrow _ => True
  | ProductFindUnique _ k => forall r, balanced id (k r) ins dec
  | OrderCreate d k =>
      forall r,
        balanced id (k r)
          ((if (Order.dProductId d =? id)%Z then Order.dQuantity d else 0) + ins) dec
  | ProductDecrement pid n k =>
      forall r, balanced id (k r) ins ((if (pid =? id)%Z then n else 0) + dec)
  end.

Definition clientOk {A : Type} (id : Z) (t : Tables) (c : Client A) : Prop :=
  match c with
  | Running p w =>
      balanced id p (orderedOf id (inserted w)) (decrementOf id (decrements w))
      /\ Forall (fun d => is_Some (products t !! fst d)) (decrements w)
  | _ => True
  end.

Definition invariant {A : Type} (id : Z) (total : Z) (s : State A) : Prop :=
  accounted (committed s) id = total
  /\ Forall (clientOk id (committed s)) (clients s).

(** Two requests of three units each, the second reading the stock
    before the first has committed. *)
Definition overlapping : list Event :=
  [Step 0; Step 1; Step 0; Step 0; Step 0; Step 1; Step 1; Step 1]%nat.

End Interleaving.

(* ===================================================================== *)
(** * apps/api: services/products.service.ts                              *)
(* ===================================================================== *)

Module ProductsService.

Section Formatting.

Variable formatPriceCZK : number -> jsstring.

(** The order in which the database returns rows for
    [orderBy: { title: 'asc' }]; the collation is the database's. *)
Variable orderByTitle : list Product.t -> list Product.t.

Definition toProductDTO (p : Product.t) : ProductDTO.t :=
  {| ProductDTO.id := Product.id p;
     ProductDTO.title := Product.title p;
     ProductDTO.description := Product.description p;
     ProductDTO.priceCzk := Product.priceCzk p;
     ProductDTO.formattedPrice := formatPriceCZK (Product.priceCzk p);
     ProductDTO.available := (0 <? Product.quantity p)%Z;
     ProductDTO.quantity := Product.quantity p |}.

(** The rows of the product table. *)
Definition productRows (t : Tables) : list Product.t :=
  map snd (map_to_list (products t)).

(** [where: includeOutOfStock ? {} : { quantity: { gt: 0 } }] *)
Definition listed (includeOutOfStock : bool) (p : Product.t) : bool :=
  includeOutOfStock || (0 <? Product.quantity p)%Z.

Definition findAll (readFails : bool) (includeOutOfStock : bool) (t : Tables)
    : Result (list ProductDTO.t) :=
  if readFails then Throws (StorageFailure (ofString "product.findMany failed"))
  else
    Ok (map toProductDTO
          (orderByTitle (List.filter (listed includeOutOfStock) (productRows t)))).

Definition findById (readFails : bool) (id : Z) (t : Tables) : Result ProductDTO.t :=
  if readFails then Throws (StorageFailure (ofString "product.findUnique failed"))
  else
    match products t !! id with
    | None => Throws (Api (NotFoundError (ofString "Product") id))
    | Some product => Ok (toProductDTO product)
    end.

Definition checkAvailability (readFails : bool) (productId requestedQuantity : Z)
    (t : Tables) : Result bool :=
  if readFails then Throws (StorageFailure (ofString "product.findUnique failed"))
  else
    match products t !! productId with
    | None => Ok false
    | Some product => Ok (requestedQuantity <=? Product.quantity product)%Z
    end.

End Formatting.

End ProductsService.

(* ===================================================================== *)
(** * apps/api: lib/validation.ts, the helper [validate]                  *)
(* ===================================================================== *)

Module Validation.

(** An issue of a failed [safeParse]: the path into the data (property
    names and array indexes) and the message. *)
Inductive Segment :=
  | Key (k : jsstring)
  | Index (i : N).

Record ZodIssue := {
  path : list Segment;
  message : jsstring
}.

(** The result of [schema.safeParse(data)]; the schemas are zod's. *)
Inductive SafeParse (A : Type) :=
  | ParseSuccess (data : A)
  | ParseFailure (errors : list ZodIssue).
Arguments ParseSuccess {A} data.
Arguments ParseFailure {A} errors.

(** [details: Record<string, string[]>] *)
Definition Details : Type := gmap jsstring (list jsstring).

(** What a handler can be left with: an [ApiError] (with its [details],
    if any), or another [Error] with its [name] and [message]. *)
Inductive Raised :=
  | RaisedApi (e : ApiError) (details : option Details)
  | RaisedError (name message : jsstring).

(** [new ValidationError(message, details)] of lib/errors.ts. *)
Definition ValidationError (message : jsstring) (details : Details) : Raised :=
  RaisedApi {| statusCode := 400;
               Errors.message := message;
               code := Some (ofString "VALIDATION_ERROR");
               name := ofString "ValidationError" |}
            (Some details).

(** [new InternalError(message)] of lib/errors.ts. *)
Definition InternalError (message : option jsstring) : Raised :=
  RaisedApi {| statusCode := 500;
               Errors.message := default (ofString "An unexpected error occurred") message;
               code := Some (ofString "INTERNAL_ERROR");
               name := ofString "InternalError" |}
            None.

(** [isApiError] *)
Definition isApiError (err : Raised) : bool :=
  match err with
  | RaisedApi _ _ => true
  | RaisedError _ _ => false
  end.

Definition segmentString (s : Segment) : jsstring :=
  match s with
  | Key k => k
  | Index i => showN i
  end.

(** [parts.join(sep)] *)
Fixpoint join (sep : jsstring) (parts : list jsstring) : jsstring :=
  match parts with
  | [] => []
  | [p] => p
  | p :: rest => p ++ sep ++ join sep rest
  end.

Definition pathString (p : list Segment) : jsstring :=
  join (ofString ".") (map segmentString p).

Section Validate.

(** The property names that the object literal [{}] inherits from
    [Object.prototype] ([constructor], [toString], ...): for these
    [details[path]] is truthy before anything was stored. *)
Variable inherited : jsstring -> bool.

(** The message of the [TypeError] for calling [push] on such a value. *)
Variable notAFunction : jsstring.

(** One turn of the loop over [result.error.errors]. *)
Definition addIssue (details : Details) (error : ZodIssue) : Raised + Details :=
  let path := pathString (path error) in
  match details !! path with
  | Some messages => inr (<[path := messages ++ [message error]]> details)
  | None =>
      if inherited path then inl (RaisedError (ofString "TypeError") notAFunction)
      else inr (<[path := [message error]]> details)
  end.

Fixpoint addIssues (details : Details) (errors : list ZodIssue) : Raised + Details :=
  match errors with
  | [] => inr details
  | error :: rest =>
      match addIssue details error with
      | inl e => inl e
      | inr details' => addIssues details' rest
      end
  end.

(** [validate(schema, data)], given what [schema.safeParse(data)]
    returned: the parsed data, or the exception thrown. *)
Definition validate {A : Type} (result : SafeParse A) : Raised + A :=
  match result with
  | ParseSuccess data => inr data
  | ParseFailure errors =>
      match addIssues ∅ errors with
      | inl e => inl e
      | inr details => inl (ValidationError (ofString "Validation failed") details)
      end
  end.

End Validate.

End Validation.

(* ===================================================================== *)
(** * apps/api: middleware/errorHandler.ts and the route handlers         *)
(* ===================================================================== *)

Module Http.

Import Validation.

Record ErrorBody := {
  message : jsstring;
  code : option jsstring;
  details : option Details
}.

(** [res.status(status).json({ success: false, error })] *)
Record ErrorResponse := {
  status : Z;
  error : ErrorBody
}.

(** [errorHandler]; [development] is
    [process.env.NODE_ENV === 'development']. *)
Definition errorHandler (development : bool) (err : Raised) : ErrorResponse :=
  match err with
  | RaisedApi e d =>
      {| status := statusCode e;
         error := {| message := Errors.message e; code := Errors.code e; details := d |} |}
  | RaisedError name msg =>
      if JsString.eqb name (ofString "PrismaClientKnownRequestError") then
        {| status := 500;
           error := {| message := ofString "Database operation failed";
                       code := Some (ofString "DATABASE_ERROR");
                       details := None |} |}
      else
        {| status := 500;
           error := {| message := if development then msg
                                  else ofString "An unexpected error occurred";
                       code := Some (ofString "INTERNAL_ERROR");
                       details := None |} |}
  end.

(** What a route answers: [res.status(status).json(success(data))], or
    the answer of the error handler that [asyncHandler] passes a
    rejection to. *)
Inductive Reply (A : Type) :=
  | Sent (status : Z) (data : A)
  | Failed (r : ErrorResponse).
Arguments Sent {A} status data.
Arguments Failed {A} r.

Definition replyStatus {A : Type} (r : Reply A) : Z :=
  match r with
  | Sent s _ => s
  | Failed e => status e
  end.

Section Handlers.

Variable formatPrice : number -> jsstring -> jsstring.
Variable formatPriceCZK : number -> jsstring.
Variable orderByTitle : list Product.t -> list Product.t.
Variable inherited : jsstring -> bool.
Variable notAFunction : jsstring.
Variable development : bool.

(** The [name] of the error object the storage client throws for a
    failure (the classes are the client library's). *)
Variable storageErrorName : jsstring -> jsstring.

(** The exception of a service as the error handler receives it. *)
Definition raised (e : Exception) : Raised :=
  match e with
  | Api a => RaisedApi a None
  | StorageFailure what => RaisedError (storageErrorName what) what
  end.

Definition rejected {A : Type} (err : Raised) : Reply A :=
  Failed (errorHandler development err).

(** POST /orders: [asyncHandler(ordersController.create)]; [body] is
    what [createOrderSchema.safeParse(req.body)] returns. *)
Definition postOrder (body : SafeParse CreateOrderInput.t) (faulty : Faults)
    (network : Network) (w : World) : Reply OrderWithConversions.t * World :=
  match validate inherited notAFunction body with
  | inl err => (rejected err, w)
  | inr input =>
      match OrdersService.create formatPrice formatPriceCZK faulty network
              {| CreateOrderInput.productId := CreateOrderInput.productId input;
                 CreateOrderInput.quantity := CreateOrderInput.quantity input;
                 CreateOrderInput.customer := CreateOrderInput.customer input |} w with
      | (Ok order, w') => (Sent 201 order, w')
      | (Throws e, w') => (rejected (raised e), w')
      end
  end.

(** GET /orders/:id: [asyncHandler(ordersController.getById)]; [params]
    is what [orderIdSchema.safeParse(req.params)] returns. *)
Definition getOrder (params : SafeParse Z) (readFails : bool) (network : Network)
    (w : World) : Reply OrderWithConversions.t * World :=
  match validate inherited notAFunction params with
  | inl err => (rejected err, w)
  | inr id =>
      match OrdersService.findById formatPrice formatPriceCZK readFails network id w with
      | (Ok order, w') => (Sent 200 order, w')
      | (Throws e, w') => (rejected (raised e), w')
      end
  end.

(** GET /orders/:id/summary: [asyncHandler(ordersController.getSummary)]. *)
Definition getOrderSummary (params : SafeParse Z) (readFails : bool)
    (network : Network) (w : World) : Reply OrdersController.Summary * World :=
  match validate inherited notAFunction params with
  | inl err => (rejected err, w)
  | inr id =>
      match OrdersController.getSummary formatPrice formatPriceCZK readFails network id w with
      | (Ok summary, w') => (Sent 200 summary, w')
      | (Throws e, w') => (rejected (raised e), w')
      end
  end.

(** GET /products: [asyncHandler(productsController.getAll)];
    [includeOutOfStock] is the query parameter, if given. *)
Definition getProducts (includeOutOfStock : option jsstring) (readFails : bool)
    (w : World) : Reply (list ProductDTO.t) :=
  let includeOutOfStock :=
    match includeOutOfStock with
    | Some v => JsString.eqb v (ofString "true")
    | None => false
    end in
  match ProductsService.findAll formatPriceCZK orderByTitle readFails includeOutOfStock
          (tables (db w)) with
  | Ok products => Sent 200 products
  | Throws e => rejected (raised e)
  end.

(** GET /products/:id: [asyncHandler(productsController.getById)]. *)
Definition getProduct (params : SafeParse Z) (readFails : bool) (w : World)
    : Reply ProductDTO.t :=
  match validate inherited notAFunction params with
  | inl err => rejected err
  | inr id =>
      match ProductsService.findById formatPriceCZK readFails id (tables (db w)) with
      | Ok product => Sent 200 product
      | Throws e => rejected (raised e)
      end
  end.

End Handlers.

End Http.

(* ===================================================================== *)
(** * apps/web: lib/orderForm.ts and components/PhoneInput.tsx            *)
(* ===================================================================== *)

Module OrderForm.

Definition PHONE_PREFIX : jsstring := ofString "+420".
Definition PHONE_LENGTH : nat := 9.

(** The class [\d] of a regular expression without the [u] flag. *)
Definition isDigit (c : N) : bool := ((48 <=? c) && (c <=? 57))%N.

(** [/^\d{9}$/.test(phone)] *)
Definition validatePhone (phone : jsstring) : bool :=
  Nat.eqb (length phone) 9 && forallb isDigit phone.

(** [handleChange] of [PhoneInput]: the value handed to [onChange] for
    the text in the field,
    [value.replace(/\D/g, '').slice(0, PHONE_LENGTH)]. *)
Definition handleChange (value : jsstring) : jsstring :=
  let digits := List.filter isDigit value in
  let limited := take PHONE_LENGTH digits in
  limited.

End OrderForm.

(* ===================================================================== *)
(** * Further properties: amounts, texts and stored orders              *)
(* ===================================================================== *)

(** A number that the sanitizers turn into 0: not finite, negative, or a
    zero. *)
Definition unusable (x : number) : Prop :=
  isFinite x = false \/ lt x pzero = true \/ strictEq x pzero = true.

(** The breakdown of an order line that costs nothing. *)
Definition nothingToPay : VatBreakdown :=
  {| subtotalCzk := pzero; vatAmountCzk := pzero; totalCzk := pzero;
     vatRateUsed := DEFAULT_VAT_RATE |}.

(** The prices 1990 and 1000 CZK and the rate 0.15 of the unit tests. *)
Definition price1990 : number := ofZ 1990.
Definition price1000 : number := ofZ 1000.
Definition rate15 : number := ofDecimal false 15 (-2).

(** The same text with every line feed preceded by a carriage return. *)
Fixpoint crlf (s : jsstring) : jsstring :=
  match s with
  | [] => []
  | c :: rest => if (c =? 10)%N then 13%N :: 10%N :: crlf rest else c :: crlf rest
  end.

(** The reverse of a text with carriage returns: the returns follow the
    line feeds. *)
Fixpoint lfcr (s : jsstring) : jsstring :=
  match s with
  | [] => []
  | c :: rest => if (c =? 10)%N then 10%N :: 13%N :: lfcr rest else c :: lfcr rest
  end.

(** The lines of such a text: every line but the last ends in a carriage
    return. *)
Fixpoint withCR (lines : list jsstring) : list jsstring :=
  match lines with
  | [] => []
  | [l] => [l]
  | l :: rest => (l ++ [13%N]) :: withCR rest
  end.

(** The number of line feeds of a text. *)
Definition lineFeeds (s : jsstring) : nat := count_occ N.eq_dec s 10%N.

(** [s] with [c] appended to its last field. *)
Fixpoint appendLast (c : N) (fields : list jsstring) : list jsstring :=
  match fields with
  | [] => []
  | [f] => [f ++ [c]]
  | f :: rest => f :: appendLast c rest
  end.

(** Stand-ins for the two [Intl] formatters, for concrete cases. *)
Definition codeOnly : number -> jsstring -> jsstring := fun _ code => code.
Definition unitOnly : number -> jsstring := fun _ => ofString "CZK".

(** The basic view of a full order response. *)
Definition basicOf (r : OrderWithConversions.t) : OrderBasic.t :=
  let order := OrderWithConversions.order r in
  {| OrderBasic.id := Order.id order;
     OrderBasic.createdAt := Order.createdAt order;
     OrderBasic.productId := Order.productId order;
     OrderBasic.productTitle := ProductDTO.title (OrderWithConversions.product r);
     OrderBasic.quantity := Order.quantity order;
     OrderBasic.customerName := Customer.name (Order.customer order);
     OrderBasic.customerEmail := Customer.email (Order.customer order);
     OrderBasic.unitPriceCzk := Order.unitPriceCzk order;
     OrderBasic.subtotalCzk := Order.subtotalCzk order;
     OrderBasic.vatRate := Order.vatRate order;
     OrderBasic.vatAmountCzk := Order.vatAmountCzk order;
     OrderBasic.totalPriceCzk := Order.totalPriceCzk order |}.

(** The order ids handed out so far lie below the sequence. *)
Definition idsBelowSequence (d : Db) : Prop :=
  Forall (fun o => Order.id o < orderSeq d) (orders (tables d)).

(** No product has a negative stock. *)
Definition stockNonNegative (t : Tables) : Prop :=
  forall id, 0 <= Concurrent.stock t id.

(** The database's ordering returns the rows it was given. *)
Definition reorders (orderBy : list Product.t -> list Product.t) : Prop :=
  forall rows, Permutation (orderBy rows) rows.

(** [+0] or a well-formed positive finite number: what the sanitizers
    hand to the arithmetic. *)
Definition positiveOrZero (x : number) : Prop :=
  x = pzero \/ exists m e, x = S754_finite false m e /\ bounded prec emax m e = true.

Section Issues.

Import Validation.

(** The messages of the issues whose path reads [k], in the order of the
    issues. *)
Definition messagesAt (k : jsstring) (errors : list ZodIssue) : list jsstring :=
  map message (List.filter (fun e => JsString.eqb (pathString (path e)) k) errors).

(** What the entry of [k] is after more issues were added to [details]. *)
Definition extended (details : Details) (errors : list ZodIssue) (k : jsstring)
    : option (list jsstring) :=
  match messagesAt k errors with
  | [] => details !! k
  | ms => Some (default [] (details !! k) ++ ms)
  end.

(** The names that objects inherit from [Object.prototype] in ES2015. *)
Definition objectPrototypeNames : list jsstring :=
  map ofString
    ["constructor"; "hasOwnProperty"; "isPrototypeOf"; "propertyIsEnumerable";
     "toLocaleString"; "toString"; "valueOf"; "__proto__"; "__defineGetter__";
     "__defineSetter__"; "__lookupGetter__"; "__lookupSetter__"]%string.

Definition inheritsName (k : jsstring) : bool :=
  existsb (JsString.eqb k) objectPrototypeNames.

(** Three issues on two paths. *)
Definition threeIssues : list ZodIssue :=
  [ {| path := [Key (ofString "quantity")];
       message := ofString "Quantity must be an integer" |};
    {| path := [Key (ofString "customer"); Key (ofString "email")];
       message := ofString "Invalid email address" |};
    {| path := [Key (ofString "quantity")];
       message := ofString "Quantity must be at least 1" |} ].

(** The error answer for an [ApiError] without details. *)
Definition apiFailure (e : ApiError) : Http.ErrorResponse :=
  {| Http.status := statusCode e;
     Http.error := {| Http.message := Errors.message e;
                      Http.code := Errors.code e;
                      Http.details := None |} |}.

(** The two messages that stand in for an error that is not an
    [ApiError]. *)
Definition genericMessages : list jsstring :=
  [ofString "Database operation failed"; ofString "An unexpected error occurred"].

End Issues.

(* ===================================================================== *)
(** * Facts on binary64 arithmetic                                        *)
(* ===================================================================== *)

Section Bpow.
Local Open Scope R_scope.

Lemma bpow_pos (e : Z) : 0 < powerRZ 2 e.
Proof. apply powerRZ_lt; lra. Qed.

Lemma bpow_add (a b : Z) : powerRZ 2 (a + b) = powerRZ 2 a * powerRZ 2 b.
Proof. apply powerRZ_add; lra. Qed.

Lemma bpow_IZR (n : Z) : (0 <= n)%Z -> powerRZ 2 n = IZR (2 ^ n).
Proof.
  intros Hn. rewrite <- (Z2Nat.id n Hn) at 1 2.
  rewrite <- pow_powerRZ, <- pow_IZR. reflexivity.
Qed.

Lemma bpow_succ (e : Z) : powerRZ 2 (e + 1) = 2 * powerRZ 2 e.
Proof. rewrite bpow_add. simpl. lra. Qed.

Lemma bpow_pred (e : Z) : powerRZ 2 (e - 1) = powerRZ 2 e / 2.
Proof.
  replace e with ((e - 1) + 1)%Z at 2 by lia. rewrite bpow_succ. lra.
Qed.

Lemma bpow_le (a b : Z) : (a <= b)%Z -> powerRZ 2 a <= powerRZ 2 b.
Proof.
  intros H. replace b with (a + (b - a))%Z by lia. rewrite bpow_add.
  assert (1 <= powerRZ 2 (b - a)).
  { rewrite bpow_IZR by lia. apply IZR_le.
    assert (0 < 2 ^ (b - a))%Z by (apply Z.pow_pos_nonneg; lia). lia. }
  pose proof (bpow_pos a). nra.
Qed.

Lemma bpow_inv (a b : Z) : powerRZ 2 (a - b) = powerRZ 2 a / powerRZ 2 b.
Proof.
  pose proof (bpow_pos b).
  replace a with ((a - b) + b)%Z at 2 by lia. rewrite bpow_add. field. lra.
Qed.

Lemma Rabs_le_inv (a b : R) : Rabs a <= b -> - b <= a <= b.
Proof. unfold Rabs. destruct (Rcase_abs a); lra. Qed.

End Bpow.

Section Digits.

Lemma digits2_pos_log2 (m : positive) :
  Zpos (digits2_pos m) = Z.log2 (Zpos m) + 1.
Proof.
  induction m as [m IH | m IH | ]; simpl digits2_pos.
  - rewrite Pos2Z.inj_succ, IH.
    change (Zpos m~1) with (2 * Zpos m + 1). rewrite Z.log2_succ_double by lia. lia.
  - rewrite Pos2Z.inj_succ, IH.
    change (Zpos m~0) with (2 * Zpos m). rewrite Z.log2_double by lia. lia.
  - reflexivity.
Qed.

Lemma Zdigits2_bounds (m : Z) :
  0 < m -> 2 ^ (Zdigits2 m - 1) <= m < 2 ^ Zdigits2 m.
Proof.
  intros Hm. destruct m as [|p|p]; try lia. simpl Zdigits2.
  rewrite digits2_pos_log2.
  pose proof (Z.log2_spec (Zpos p) ltac:(lia)) as H.
  replace (Z.log2 (Z.pos p) + 1 - 1) with (Z.log2 (Zpos p)) by lia.
  replace (Z.log2 (Z.pos p) + 1) with (Z.succ (Z.log2 (Zpos p))) by lia. exact H.
Qed.

Lemma Zdigits2_nonneg (m : Z) : 0 <= Zdigits2 m.
Proof. destruct m; simpl; lia. Qed.

(** The number of digits is determined by the bounds. *)
Lemma Zdigits2_unique (m d : Z) :
  2 ^ (d - 1) <= m < 2 ^ d -> 0 < m -> Zdigits2 m = d.
Proof.
  intros [Hl Hu] Hm.
  assert (Hd : 0 < d).
  { destruct (Z.lt_ge_cases 0 d) as [|Hd]; [assumption|].
    exfalso. assert (2 ^ d <= 2 ^ 0) by (apply Z.pow_le_mono_r; lia).
    simpl in *. lia. }
  destruct (Zdigits2_bounds m Hm) as [Hl' Hu'].
  pose proof (Zdigits2_nonneg m) as Hn.
  destruct (Z.lt_trichotomy (Zdigits2 m) d) as [Hlt | [Heq | Hgt]]; [exfalso| assumption | exfalso].
  - assert (2 ^ Zdigits2 m <= 2 ^ (d - 1)) by (apply Z.pow_le_mono_r; lia). lia.
  - assert (2 ^ d <= 2 ^ (Zdigits2 m - 1)) by (apply Z.pow_le_mono_r; lia). lia.
Qed.

End Digits.

Section Located.
Local Open Scope R_scope.

Lemma IZR_xO (p : positive) : IZR (Zpos p~0) = 2 * IZR (Zpos p).
Proof. change (Zpos p~0) with (2 * Zpos p)%Z. rewrite mult_IZR. reflexivity. Qed.

Lemma IZR_xI (p : positive) : IZR (Zpos p~1) = 2 * IZR (Zpos p) + 1.
Proof. change (Zpos p~1) with (2 * Zpos p + 1)%Z. rewrite plus_IZR, mult_IZR. reflexivity. Qed.

Lemma shr_1_locates (mrs : shr_record) (y : R) :
  locates mrs y ->
  locates (shr_1 mrs) (y / 2) /\ shr_m (shr_1 mrs) = (shr_m mrs / 2)%Z.
Proof.
  destruct mrs as [m r s]. unfold locates. simpl. intros [Hm H].
  destruct m as [|p|p]; [| |lia].
  - destruct r, s; simpl; (split; [split; [lia|] | reflexivity]); simpl in *; lra.
  - destruct p as [p|p|].
    + replace (Z.pos p~1 / 2)%Z with (Zpos p)
        by (change (Zpos p~1) with (2 * Zpos p + 1)%Z; apply Z.div_unique with 1%Z; lia).
      rewrite IZR_xI in H.
      destruct r, s; simpl; (split; [split; [lia|] | reflexivity]); simpl in *; lra.
    + replace (Z.pos p~0 / 2)%Z with (Zpos p)
        by (change (Zpos p~0) with (2 * Zpos p)%Z; apply Z.div_unique with 0%Z; lia).
      rewrite IZR_xO in H.
      destruct r, s; simpl; (split; [split; [lia|] | reflexivity]); simpl in *; lra.
    + destruct r, s; simpl; (split; [split; [lia|] | reflexivity]); simpl in *; lra.
Qed.

Lemma iter_pos_shr_1_locates (n : positive) :
  forall (mrs : shr_record) (y : R),
    locates mrs y ->
    locates (SpecFloat.iter_pos shr_1 n mrs) (y / powerRZ 2 (Zpos n))
    /\ shr_m (SpecFloat.iter_pos shr_1 n mrs) = (shr_m mrs / 2 ^ Zpos n)%Z.
Proof.
  induction n as [n IH | n IH | ]; intros mrs y H; cbn [SpecFloat.iter_pos].
  - destruct (shr_1_locates _ _ H) as [H1 E1].
    destruct (IH _ _ H1) as [H2 E2]. destruct (IH _ _ H2) as [H3 E3].
    split.
    + replace (y / powerRZ 2 (Zpos n~1)) with (y / 2 / powerRZ 2 (Zpos n) / powerRZ 2 (Zpos n)); [exact H3|].
      change (Zpos n~1) with (2 * Zpos n + 1)%Z.
      replace (2 * Zpos n + 1)%Z with (Zpos n + Zpos n + 1)%Z by lia.
      rewrite !bpow_add. pose proof (bpow_pos (Zpos n)). simpl (powerRZ 2 1). field. lra.
    + rewrite E3, E2, E1.
      change (Zpos n~1) with (2 * Zpos n + 1)%Z.
      replace (2 * Zpos n + 1)%Z with (1 + Zpos n + Zpos n)%Z by lia.
      rewrite !Z.pow_add_r by lia.
      rewrite !Z.div_div by (try apply Z.pow_pos_nonneg; try apply Z.mul_pos_pos; try apply Z.pow_pos_nonneg; lia).
      f_equal. change (2 ^ 1)%Z with 2%Z. ring.
  - destruct (IH _ _ H) as [H2 E2]. destruct (IH _ _ H2) as [H3 E3].
    split.
    + replace (y / powerRZ 2 (Zpos n~0)) with (y / powerRZ 2 (Zpos n) / powerRZ 2 (Zpos n)); [exact H3|].
      change (Zpos n~0) with (2 * Zpos n)%Z.
      replace (2 * Zpos n)%Z with (Zpos n + Zpos n)%Z by lia.
      rewrite !bpow_add. pose proof (bpow_pos (Zpos n)). field. lra.
    + rewrite E3, E2.
      change (Zpos n~0) with (2 * Zpos n)%Z.
      replace (2 * Zpos n)%Z with (Zpos n + Zpos n)%Z by lia.
      rewrite !Z.pow_add_r by lia.
      rewrite !Z.div_div by (try apply Z.pow_pos_nonneg; lia).
      reflexivity.
  - destruct (shr_1_locates _ _ H) as [H1 E1]. split.
    + simpl (powerRZ 2 1). replace (y / (2 * 1)) with (y / 2) by field. exact H1.
    + rewrite E1. reflexivity.
Qed.

(** Shifting right by [n] places keeps the position of [y * 2^e]. *)
Lemma shr_locates (mrs : shr_record) (e n : Z) (x : R) :
  locates mrs (x / powerRZ 2 e) -> (0 <= n)%Z ->
  locates (fst (shr mrs e n)) (x / powerRZ 2 (e + n))
  /\ shr_m (fst (shr mrs e n)) = (shr_m mrs / 2 ^ n)%Z
  /\ snd (shr mrs e n) = (e + n)%Z.
Proof.
  intros H Hn. destruct n as [|p|p]; [| |lia]; simpl.
  - rewrite Z.add_0_r, Z.div_1_r. auto.
  - destruct (iter_pos_shr_1_locates p _ _ H) as [H1 E1].
    split; [|split; [exact E1 | reflexivity]].
    rewrite bpow_add. pose proof (bpow_pos e). pose proof (bpow_pos (Zpos p)).
    replace (x / (powerRZ 2 e * powerRZ 2 (Z.pos p))) with (x / powerRZ 2 e / powerRZ 2 (Z.pos p)) by (field; lra).
    exact H1.
Qed.

(** Rounding to nearest moves by at most one half. *)
Lemma round_nearest_even_locates (mrs : shr_record) (y : R) :
  locates mrs y ->
  let m' := round_nearest_even (shr_m mrs) (loc_of_shr_record mrs) in
  Rabs (IZR m' - y) <= 1 / 2 /\ (shr_m mrs <= m' <= shr_m mrs + 1)%Z.
Proof.
  destruct mrs as [m r s]. unfold locates. simpl. intros [Hm H].
  destruct r, s; simpl.
  - split; [|lia]. rewrite plus_IZR. apply Rabs_le. lra.
  - destruct (Z.even m); (split; [|lia]); try rewrite plus_IZR; apply Rabs_le; lra.
  - split; [|lia]. apply Rabs_le. lra.
  - split; [|lia]. apply Rabs_le. lra.
Qed.

Lemma locates_of_loc_exact (m : Z) (y : R) :
  (0 <= m)%Z -> y = IZR m -> locates (shr_record_of_loc m loc_Exact) y.
Proof. intros Hm ->. split; simpl; [assumption | reflexivity]. Qed.

End Located.

Section RoundAux.
Local Open Scope R_scope.

Lemma fexp_eq (d : Z) : fexp prec emax d = Z.max (d - 53) (-1074).
Proof. reflexivity. Qed.

Lemma locates_bounds (mrs : shr_record) (y : R) :
  locates mrs y -> IZR (shr_m mrs) <= y < IZR (shr_m mrs) + 1.
Proof.
  destruct mrs as [m r s]. unfold locates. simpl. intros [_ H].
  destruct r, s; lra.
Qed.

Lemma scale_le (a x : R) (e : Z) : a <= x / powerRZ 2 e -> a * powerRZ 2 e <= x.
Proof.
  intros H. pose proof (bpow_pos e) as Hp.
  apply (Rmult_le_compat_r (powerRZ 2 e)) in H; [|lra].
  replace (x / powerRZ 2 e * powerRZ 2 e) with x in H by (field; lra). exact H.
Qed.

Lemma toR_finite_abs (s : bool) (m : positive) (e : Z) :
  Rabs (toR (S754_finite s m e)) = IZR (Zpos m) * powerRZ 2 e.
Proof.
  simpl. pose proof (bpow_pos e). rewrite Rabs_mult, (Rabs_pos_eq (powerRZ 2 e)) by lra.
  f_equal. destruct s; simpl.
  - change (Zneg m) with (- Zpos m)%Z. rewrite opp_IZR, Rabs_Ropp.
    apply Rabs_pos_eq. apply IZR_le. lia.
  - apply Rabs_pos_eq. apply IZR_le. lia.
Qed.

(** Rounding a located positive real: the result is its rounding, or
    the infinity of its sign when the real is too large. *)
Lemma binary_round_aux_total (s : bool) (mx ex : Z) (lx : location) (x : R) :
  locates (shr_record_of_loc mx lx) (x / powerRZ 2 ex) ->
  (ex <= fexp prec emax (Zdigits2 mx + ex))%Z ->
  rounds_to s x (binary_round_aux prec emax s mx ex lx)
  \/ (binary_round_aux prec emax s mx ex lx = S754_infinity s /\ powerRZ 2 1023 <= x).
Proof.
  intros Hloc Hn.
  assert (Hmx : (0 <= mx)%Z).
  { destruct Hloc as [H _]. destruct lx as [|[ | | ]]; exact H. }
  unfold binary_round_aux, shr_fexp.
  set (d := Zdigits2 mx) in *.
  set (e1 := fexp prec emax (d + ex)) in *.
  assert (He1 : e1 = Z.max (d + ex - 53) (-1074)) by reflexivity.
  destruct (shr_locates _ ex (e1 - ex) x Hloc ltac:(lia)) as (H1 & E1 & E1').
  destruct (shr (shr_record_of_loc mx lx) ex (e1 - ex)) as [mrs' e'] eqn:Eshr.
  simpl in H1, E1, E1'. subst e'. replace (ex + (e1 - ex))%Z with e1 in * by lia.
  assert (Em1 : shr_m mrs' = (mx / 2 ^ (e1 - ex))%Z).
  { rewrite E1. destruct lx as [|[ | | ]]; reflexivity. }
  clear E1.
  set (m1 := shr_m mrs') in *.
  destruct (round_nearest_even_locates _ _ H1) as [Hr Hm2].
  fold m1 in Hr, Hm2.
  set (m2 := round_nearest_even m1 (loc_of_shr_record mrs')) in *.
  pose proof (locates_bounds _ _ H1) as Hy. fold m1 in Hy.
  pose proof (bpow_pos e1) as Hp1.
  assert (Hm1 : (0 <= m1)%Z) by (destruct H1; assumption).
  (* the shifted mantissa has at most 53 digits *)
  assert (F1 : (m1 < 2 ^ 53)%Z).
  { rewrite Em1. apply Z.div_lt_upper_bound; [apply Z.pow_pos_nonneg; lia|].
    rewrite <- Z.pow_add_r by lia.
    destruct (Z.eq_dec mx 0%Z) as [-> | Hne].
    - apply Z.pow_pos_nonneg; lia.
    - destruct (Zdigits2_bounds mx ltac:(lia)) as [_ Hu]. fold d in Hu.
      eapply Z.lt_le_trans; [exact Hu|]. apply Z.pow_le_mono_r; lia. }
  (* and exactly 53 in the normal range *)
  assert (F2 : (-1074 < e1)%Z -> (2 ^ 52 <= m1)%Z).
  { intros Hnorm. assert (Hd : e1 = (d + ex - 53)%Z) by lia.
    assert (Hpos : (0 < mx)%Z).
    { destruct (Z.eq_dec mx 0%Z) as [E0 | ]; [|lia]. subst mx. unfold d in *. simpl in *. lia. }
    destruct (Zdigits2_bounds mx Hpos) as [Hl _]. fold d in Hl.
    rewrite Em1. apply Z.div_le_lower_bound; [apply Z.pow_pos_nonneg; lia|].
    rewrite <- Z.pow_add_r by lia.
    replace (e1 - ex + 52)%Z with (d - 1)%Z by lia. exact Hl. }
  (* a large exponent means a large real *)
  assert (F3 : (970 < e1)%Z -> powerRZ 2 1023 <= x).
  { intros Hbig.
    assert (H52 : (2 ^ 52 <= m1)%Z) by (apply F2; lia).
    apply IZR_le in H52. rewrite <- bpow_IZR in H52 by lia.
    assert (Hxl : powerRZ 2 52 * powerRZ 2 e1 <= x) by (apply scale_le; lra).
    rewrite <- bpow_add in Hxl.
    assert (powerRZ 2 1023 <= powerRZ 2 (52 + e1)) by (apply bpow_le; lia). lra. }
  (* the error, in units of 2^e1 *)
  assert (Herr : Rabs (IZR m2 * powerRZ 2 e1 - x) <= x * powerRZ 2 (-53) + powerRZ 2 (-1075)).
  { replace (IZR m2 * powerRZ 2 e1 - x) with ((IZR m2 - x / powerRZ 2 e1) * powerRZ 2 e1) by (field; lra).
    rewrite Rabs_mult, (Rabs_pos_eq (powerRZ 2 e1)) by lra.
    assert (Hx0 : 0 <= x).
    { assert (0 <= IZR m1) by (apply IZR_le; lia).
      assert (0 * powerRZ 2 e1 <= x) by (apply scale_le; lra). lra. }
    pose proof (bpow_pos (-53)). pose proof (bpow_pos (-1075)).
    destruct (Z.eq_dec e1 (-1074)%Z) as [Esub | Hnorm].
    - rewrite Esub in *.
      replace (powerRZ 2 (-1075)) with (powerRZ 2 (-1074) / 2) by (rewrite <- bpow_pred; reflexivity).
      nra.
    - assert (H52 : (2 ^ 52 <= m1)%Z) by (apply F2; lia).
      apply IZR_le in H52. rewrite <- bpow_IZR in H52 by lia.
      assert (Hxl : powerRZ 2 52 * powerRZ 2 e1 <= x) by (apply scale_le; lra).
      assert (powerRZ 2 e1 / 2 <= x * powerRZ 2 (-53)).
      { replace (powerRZ 2 e1 / 2) with (powerRZ 2 52 * powerRZ 2 e1 * powerRZ 2 (-53)).
        - apply Rmult_le_compat_r; lra.
        - rewrite <- !bpow_add. replace (52 + e1 + -53)%Z with (e1 - 1)%Z by lia.
          apply bpow_pred. }
      nra. }
  assert (He1min : (-1074 <= e1)%Z) by lia.
  (* the second normalisation *)
  destruct (Z.eq_dec m2 0%Z) as [E0 | Hne0].
  - rewrite E0. replace (fexp prec emax (Zdigits2 0 + e1) - e1)%Z with (Z.max (e1 - 53) (-1074) - e1)%Z by reflexivity.
    assert (Hs : shr (shr_record_of_loc 0 loc_Exact) e1 (Z.max (e1 - 53) (-1074) - e1)
                 = (shr_record_of_loc 0 loc_Exact, e1)).
    { destruct (Z.max (e1 - 53) (-1074) - e1)%Z eqn:E; try reflexivity. lia. }
    rewrite Hs. simpl. left. split; [left; reflexivity|].
    rewrite E0 in Herr. simpl. rewrite Rabs_R0. replace (0 * powerRZ 2 e1 - x) with (0 - x) in Herr by ring. exact Herr.
  - destruct (Z.eq_dec m2 (2 ^ 53)%Z) as [E53 | Hne53].
    + rewrite E53.
      assert (Hs : shr (shr_record_of_loc (2 ^ 53) loc_Exact) e1
                     (fexp prec emax (Zdigits2 (2 ^ 53) + e1) - e1)
                   = ({| shr_m := 2 ^ 52; shr_r := false; shr_s := false |}, (e1 + 1)%Z)).
      { replace (fexp prec emax (Zdigits2 (2 ^ 53) + e1) - e1)%Z with 1%Z.
        - reflexivity.
        - rewrite fexp_eq. change (Zdigits2 (2 ^ 53)) with 54%Z. lia. }
      rewrite Hs. simpl shr_m. change (2 ^ 52)%Z with (Zpos (2 ^ 52)).
      cbv iota beta.
      destruct (Z.leb_spec (e1 + 1) (emax - prec)) as [Hfin | Hinf];
        [ | right; split; [reflexivity | apply F3; unfold emax, prec in Hinf; lia] ].
      unfold emax, prec in Hfin.
      left. split.
      * right. exists (2 ^ 52)%positive, (e1 + 1)%Z. split; [reflexivity|].
        unfold bounded, canonical_mantissa. apply andb_true_iff. split.
        -- apply Z.eqb_eq. rewrite fexp_eq. change (Zpos (digits2_pos (2 ^ 52))) with 53%Z. lia.
        -- apply Z.leb_le. unfold emax, prec. lia.
      * rewrite toR_finite_abs. rewrite E53 in Herr.
        replace (IZR (Zpos (2 ^ 52)) * powerRZ 2 (e1 + 1)) with (IZR (2 ^ 53) * powerRZ 2 e1); [exact Herr|].
        rewrite bpow_succ. change (2 ^ 53)%Z with (2 * 2 ^ 52)%Z. rewrite mult_IZR. 
        change (Zpos (2 ^ 52)) with (2 ^ 52)%Z. ring.
    + assert (Hlt : (0 < m2 < 2 ^ 53)%Z) by lia.
      destruct m2 as [|p|p] eqn:Em2; try lia.
      assert (Hd2 : (Zdigits2 (Zpos p) <= 53)%Z).
      { destruct (Z.le_gt_cases (Zdigits2 (Zpos p)) 53%Z) as [|Hbig]; [assumption|exfalso].
        destruct (Zdigits2_bounds (Zpos p) ltac:(lia)) as [Hl _].
        assert (2 ^ 53 <= 2 ^ (Zdigits2 (Zpos p) - 1))%Z by (apply Z.pow_le_mono_r; lia). lia. }
      assert (Hs : shr (shr_record_of_loc (Zpos p) loc_Exact) e1
                     (fexp prec emax (Zdigits2 (Zpos p) + e1) - e1)
                   = (shr_record_of_loc (Zpos p) loc_Exact, e1)).
      { rewrite fexp_eq.
        destruct (Z.max (Zdigits2 (Z.pos p) + e1 - 53) (-1074) - e1)%Z eqn:E; try reflexivity. lia. }
      rewrite Hs. simpl shr_m. cbv iota beta.
      destruct (Z.leb_spec e1 (emax - prec)) as [Hfin | Hinf];
        [ | right; split; [reflexivity | apply F3; unfold emax, prec in Hinf; lia] ].
      unfold emax, prec in Hfin.
      left. split.
      * right. exists p, e1. split; [reflexivity|].
        unfold bounded, canonical_mantissa. apply andb_true_iff. split.
        -- apply Z.eqb_eq. rewrite fexp_eq.
           destruct (Z.eq_dec e1 (-1074)%Z) as [Esub | Hnorm].
           ++ simpl Zdigits2 in Hd2. lia.
           ++ assert (H52 : (2 ^ 52 <= m1)%Z) by (apply F2; lia).
              assert (Zdigits2 (Zpos p) = 53%Z) as Hd53.
              { apply Zdigits2_unique; lia. }
              simpl Zdigits2 in Hd53. lia.
        -- apply Z.leb_le. unfold emax, prec. lia.
      * rewrite toR_finite_abs. exact Herr.
Qed.

Lemma binary_round_aux_correct (s : bool) (mx ex : Z) (lx : location) (x : R) :
  locates (shr_record_of_loc mx lx) (x / powerRZ 2 ex) ->
  (ex <= fexp prec emax (Zdigits2 mx + ex))%Z ->
  x < powerRZ 2 1023 ->
  rounds_to s x (binary_round_aux prec emax s mx ex lx).
Proof.
  intros Hloc Hn Hx.
  destruct (binary_round_aux_total s mx ex lx x Hloc Hn) as [H | [_ H]]; [exact H | lra].
Qed.

End RoundAux.

Section Operations.
Local Open Scope R_scope.

Lemma fexp_mono (a b : Z) : (a <= b)%Z -> (fexp prec emax a <= fexp prec emax b)%Z.
Proof. rewrite !fexp_eq. lia. Qed.

(** A canonical mantissa has at most 53 digits, and exactly 53 above the
    least exponent. *)
Lemma bounded_digits (m : positive) (e : Z) :
  bounded prec emax m e = true ->
  (Zpos (digits2_pos m) <= 53)%Z /\ (-1074 <= e <= 971)%Z
  /\ (Zpos (digits2_pos m) = 53%Z \/ e = (-1074)%Z).
Proof.
  unfold bounded, canonical_mantissa. intros H.
  apply andb_true_iff in H. destruct H as [H1 H2].
  apply Z.eqb_eq in H1. apply Z.leb_le in H2. rewrite fexp_eq in H1.
  unfold emax, prec in H2. lia.
Qed.

Lemma Zdigits2_mul_ge (a b : positive) :
  (Zdigits2 (Zpos a) + Zdigits2 (Zpos b) - 1 <= Zdigits2 (Zpos (a * b)))%Z.
Proof.
  destruct (Zdigits2_bounds (Zpos a) ltac:(lia)) as [Ha _].
  destruct (Zdigits2_bounds (Zpos b) ltac:(lia)) as [Hb _].
  destruct (Zdigits2_bounds (Zpos (a * b)) ltac:(lia)) as [_ Hab].
  pose proof (Zdigits2_nonneg (Zpos (a * b))) as Hn.
  assert (Hda : (0 < Zdigits2 (Zpos a))%Z) by (simpl; lia).
  assert (Hdb : (0 < Zdigits2 (Zpos b))%Z) by (simpl; lia).
  destruct (Z.le_gt_cases (Zdigits2 (Zpos a) + Zdigits2 (Zpos b) - 1) (Zdigits2 (Zpos (a * b)))) as [|Hlt];
    [assumption | exfalso].
  assert (H1 : (2 ^ (Zdigits2 (Zpos a) - 1) * 2 ^ (Zdigits2 (Zpos b) - 1) <= Zpos a * Zpos b)%Z).
  { apply Z.mul_le_mono_nonneg; try lia; apply Z.pow_nonneg; lia. }
  rewrite <- Z.pow_add_r in H1 by lia.
  assert (H2 : (2 ^ Zdigits2 (Zpos (a * b)) <= 2 ^ (Zdigits2 (Zpos a) - 1 + (Zdigits2 (Zpos b) - 1)))%Z)
    by (apply Z.pow_le_mono_r; lia).
  rewrite Pos2Z.inj_mul in Hab.
  apply (Z.lt_irrefl (Zpos a * Zpos b)).
  eapply Z.lt_le_trans; [exact Hab|]. eapply Z.le_trans; [exact H2 | exact H1].
Qed.

(** Multiplication of two finite numbers is the rounding of the product,
    or an infinity when the product is too large. *)
Lemma mul_finite_total (sx sy : bool) (mx my : positive) (ex ey : Z) :
  bounded prec emax mx ex = true -> bounded prec emax my ey = true ->
  rounds_to (xorb sx sy)
    (IZR (Zpos mx) * powerRZ 2 ex * (IZR (Zpos my) * powerRZ 2 ey))
    (mul (S754_finite sx mx ex) (S754_finite sy my ey))
  \/ (mul (S754_finite sx mx ex) (S754_finite sy my ey) = S754_infinity (xorb sx sy)
      /\ powerRZ 2 1023 <= IZR (Zpos mx) * powerRZ 2 ex * (IZR (Zpos my) * powerRZ 2 ey)).
Proof.
  intros Bx By. unfold mul. simpl SFmul.
  apply binary_round_aux_total.
  - apply locates_of_loc_exact; [lia|].
    rewrite bpow_add, Pos2Z.inj_mul, mult_IZR.
    pose proof (bpow_pos ex). pose proof (bpow_pos ey). field. lra.
  - destruct (bounded_digits _ _ Bx) as (Hdx & Hex & Hcx).
    destruct (bounded_digits _ _ By) as (Hdy & Hey & Hcy).
    pose proof (Zdigits2_mul_ge mx my) as Hd. simpl Zdigits2 in Hd.
    rewrite fexp_eq. simpl Zdigits2.
    assert (0 < Zpos (digits2_pos mx))%Z by lia.
    assert (0 < Zpos (digits2_pos my))%Z by lia.
    lia.
Qed.

Lemma mul_finite_correct (sx sy : bool) (mx my : positive) (ex ey : Z) :
  bounded prec emax mx ex = true -> bounded prec emax my ey = true ->
  IZR (Zpos mx) * powerRZ 2 ex * (IZR (Zpos my) * powerRZ 2 ey) < powerRZ 2 1023 ->
  rounds_to (xorb sx sy)
    (IZR (Zpos mx) * powerRZ 2 ex * (IZR (Zpos my) * powerRZ 2 ey))
    (mul (S754_finite sx mx ex) (S754_finite sy my ey)).
Proof.
  intros Bx By Hlt.
  destruct (mul_finite_total sx sy mx my ex ey Bx By) as [H | [_ H]]; [exact H | lra].
Qed.

(** The position of a quotient given by [new_location]. *)
Lemma new_location_locates (q r m2 : Z) (y : R) :
  (0 <= q)%Z -> (0 <= r < m2)%Z ->
  y = IZR q + IZR r / IZR m2 ->
  locates (shr_record_of_loc q (new_location m2 r)) y.
Proof.
  intros Hq Hr ->.
  assert (Hm2 : 0 < IZR m2) by (apply IZR_lt; lia).
  assert (Hr0 : 0 <= IZR r) by (apply IZR_le; lia).
  assert (Hfrac : forall c : R, (IZR r / IZR m2 < c <-> IZR r < c * IZR m2)
                             /\ (c < IZR r / IZR m2 <-> c * IZR m2 < IZR r)).
  { intros c. split; split; intros H.
    - apply (Rmult_lt_compat_r (IZR m2)) in H; [|lra].
      replace (IZR r / IZR m2 * IZR m2) with (IZR r) in H by (field; lra). exact H.
    - apply (Rmult_lt_reg_r (IZR m2)); [lra|].
      replace (IZR r / IZR m2 * IZR m2) with (IZR r) by (field; lra). exact H.
    - apply (Rmult_lt_compat_r (IZR m2)) in H; [|lra].
      replace (IZR r / IZR m2 * IZR m2) with (IZR r) in H by (field; lra). exact H.
    - apply (Rmult_lt_reg_r (IZR m2)); [lra|].
      replace (IZR r / IZR m2 * IZR m2) with (IZR r) by (field; lra). exact H. }
  unfold new_location, new_location_even, new_location_odd.
  destruct r as [|r|r]; [ | | lia].
  - destruct (Z.even m2); (split; [exact Hq|]); simpl; lra.
  - assert (Hrpos : 0 < IZR (Zpos r)) by (apply IZR_lt; lia).
    cbn [IntDef.Z.eqb].
    set (r' := Zpos r) in *.
    destruct (Z.even m2) eqn:Hev.
    + change (IntDef.Z.compare (IntDef.Z.mul 2 r') m2) with (Z.compare (2 * r') m2).
      destruct (Z.compare_spec (2 * r') m2) as [E | E | E]; (split; [exact Hq|]); simpl.
      * assert (IZR r' / IZR m2 = 1 / 2); [|lra].
        rewrite <- E, mult_IZR. field. lra.
      * apply IZR_lt in E. rewrite mult_IZR in E. split.
        -- assert (0 < IZR r' / IZR m2) by (apply Rdiv_lt_0_compat; lra). lra.
        -- assert (IZR r' / IZR m2 < 1 / 2) by (apply Hfrac; lra). lra.
      * apply IZR_lt in E. rewrite mult_IZR in E. split.
        -- assert (1 / 2 < IZR r' / IZR m2) by (apply Hfrac; lra). lra.
        -- destruct Hr as [_ Hr]. apply IZR_lt in Hr.
           assert (IZR r' / IZR m2 < 1) by (apply Hfrac; lra). lra.
    + assert (Hodd : (2 * r' <> m2)%Z).
      { intros E. subst m2. rewrite Z.even_mul in Hev. discriminate. }
      change (IntDef.Z.compare (IntDef.Z.add (IntDef.Z.mul 2 r') 1) m2) with (Z.compare (2 * r' + 1) m2).
      destruct (Z.compare_spec (2 * r' + 1) m2) as [E | E | E]; (split; [exact Hq|]); simpl.
      * assert (E' : (2 * r' < m2)%Z) by lia.
        apply IZR_lt in E'. rewrite mult_IZR in E'. split.
        -- assert (0 < IZR r' / IZR m2) by (apply Rdiv_lt_0_compat; lra). lra.
        -- assert (IZR r' / IZR m2 < 1 / 2) by (apply Hfrac; lra). lra.
      * assert (E' : (2 * r' < m2)%Z) by lia.
        apply IZR_lt in E'. rewrite mult_IZR in E'. split.
        -- assert (0 < IZR r' / IZR m2) by (apply Rdiv_lt_0_compat; lra). lra.
        -- assert (IZR r' / IZR m2 < 1 / 2) by (apply Hfrac; lra). lra.
      * assert (E' : (m2 < 2 * r')%Z) by lia.
        apply IZR_lt in E'. rewrite mult_IZR in E'. split.
        -- assert (1 / 2 < IZR r' / IZR m2) by (apply Hfrac; lra). lra.
        -- destruct Hr as [_ Hr]. apply IZR_lt in Hr.
           assert (IZR r' / IZR m2 < 1) by (apply Hfrac; lra). lra.
Qed.

End Operations.

Section Division.
Local Open Scope R_scope.

(** The integer quotient computed by [SFdiv_core_binary] places the real
    quotient, at an exponent from which rounding only shifts right. *)
Lemma div_core_correct (m1 m2 : positive) (e1 e2 : Z) :
  forall q e' l,
    SFdiv_core_binary prec emax (Zpos m1) e1 (Zpos m2) e2 = (q, e', l) ->
    locates (shr_record_of_loc q l)
      (IZR (Zpos m1) * powerRZ 2 e1 / (IZR (Zpos m2) * powerRZ 2 e2) / powerRZ 2 e')
    /\ (e' <= fexp prec emax (Zdigits2 q + e'))%Z.
Proof.
  intros q e' l. unfold SFdiv_core_binary.
  set (d1 := Zdigits2 (Zpos m1)). set (d2 := Zdigits2 (Zpos m2)).
  set (E := (d1 + e1 - (d2 + e2))%Z).
  set (e0 := Z.min (fexp prec emax E) (e1 - e2)).
  set (s := (e1 - e2 - e0)%Z).
  assert (Hs : (0 <= s)%Z) by (unfold s, e0; lia).
  set (m' := match s with
             | 0%Z => Zpos m1
             | Zpos _ => Z.shiftl (Zpos m1) s
             | Zneg _ => 0%Z
             end).
  assert (Em' : m' = (Zpos m1 * 2 ^ s)%Z).
  { unfold m'. destruct s as [|p|p] eqn:Es; [ | | lia].
    - rewrite Z.mul_1_r. reflexivity.
    - rewrite Z.shiftl_mul_pow2 by lia. reflexivity. }
  pose proof (Z_div_mod m' (Zpos m2) ltac:(lia)) as Hdm.
  destruct (Z.div_eucl m' (Zpos m2)) as [q0 r0] eqn:Ediv.
  destruct Hdm as [Hdm Hr0].
  intros Heq. injection Heq as <- <- <-.
  assert (Hm'pos : (0 < m')%Z).
  { rewrite Em'. apply Z.mul_pos_pos; [lia | apply Z.pow_pos_nonneg; lia]. }
  assert (Hq0 : (0 <= q0)%Z) by nia.
  pose proof (bpow_pos e1) as P1. pose proof (bpow_pos e2) as P2. pose proof (bpow_pos e0) as P0.
  assert (Hm2 : 0 < IZR (Zpos m2)) by (apply IZR_lt; lia).
  split.
  - apply new_location_locates; [exact Hq0 | exact Hr0 |].
    assert (EIZR : IZR m' = IZR (Zpos m2) * IZR q0 + IZR r0).
    { rewrite Hdm, plus_IZR, mult_IZR. reflexivity. }
    assert (Es' : powerRZ 2 e1 = powerRZ 2 s * powerRZ 2 e2 * powerRZ 2 e0).
    { rewrite <- !bpow_add. f_equal. unfold s. lia. }
    rewrite Es'.
    assert (Em'R : IZR m' = IZR (Zpos m1) * powerRZ 2 s).
    { rewrite Em', mult_IZR, bpow_IZR by lia. reflexivity. }
    transitivity (IZR m' / IZR (Zpos m2)).
    + rewrite Em'R. pose proof (bpow_pos s). field. lra.
    + rewrite EIZR. field. lra.
  - (* the quotient has enough digits *)
    assert (HE : (E <= Zdigits2 q0 + e0)%Z).
    { destruct (Zdigits2_bounds (Zpos m1) ltac:(lia)) as [Hl1 _]. fold d1 in Hl1.
      destruct (Zdigits2_bounds (Zpos m2) ltac:(lia)) as [_ Hu2]. fold d2 in Hu2.
      pose proof (Zdigits2_nonneg q0) as Hdq.
      assert (Hd1 : (0 < d1)%Z) by (unfold d1; simpl; lia).
      assert (Hd2 : (0 < d2)%Z) by (unfold d2; simpl; lia).
      destruct (Z.le_gt_cases 0 (d1 - 1 + s - d2)) as [Hk | Hk].
      - assert (Hq : (2 ^ (d1 - 1 + s - d2) <= q0)%Z).
        { replace q0 with (m' / Zpos m2)%Z by (unfold Z.div; rewrite Ediv; reflexivity).
          apply Z.div_le_lower_bound; [lia|].
          rewrite Em'.
          apply Z.le_trans with (2 ^ d2 * 2 ^ (d1 - 1 + s - d2))%Z.
          - apply Z.mul_le_mono_nonneg_r; [apply Z.pow_nonneg; lia | lia].
          - rewrite <- Z.pow_add_r by lia.
            replace (d2 + (d1 - 1 + s - d2))%Z with ((d1 - 1) + s)%Z by lia.
            rewrite Z.pow_add_r by lia.
            apply Z.mul_le_mono_nonneg_r; [apply Z.pow_nonneg; lia | exact Hl1]. }
        assert (Hqpos : (0 < q0)%Z).
        { assert (0 < 2 ^ (d1 - 1 + s - d2))%Z by (apply Z.pow_pos_nonneg; lia). lia. }
        destruct (Zdigits2_bounds q0 Hqpos) as [_ Hu].
        assert (d1 - 1 + s - d2 < Zdigits2 q0)%Z.
        { apply (Z.pow_lt_mono_r_iff 2); [lia | exact Hdq | lia]. }
        unfold E, s in *. lia.
      - unfold E, s in *. lia. }
    apply Z.le_trans with (fexp prec emax E); [unfold e0; lia | apply fexp_mono; exact HE].
Qed.

Lemma div_finite_correct (sx sy : bool) (mx my : positive) (ex ey : Z) :
  IZR (Zpos mx) * powerRZ 2 ex / (IZR (Zpos my) * powerRZ 2 ey) < powerRZ 2 1023 ->
  rounds_to (xorb sx sy)
    (IZR (Zpos mx) * powerRZ 2 ex / (IZR (Zpos my) * powerRZ 2 ey))
    (div (S754_finite sx mx ex) (S754_finite sy my ey)).
Proof.
  intros Hlt. unfold div. simpl SFdiv.
  destruct (SFdiv_core_binary prec emax (Zpos mx) ex (Zpos my) ey) as [[q e'] l] eqn:E.
  destruct (div_core_correct mx my ex ey q e' l E) as [Hloc Hn].
  apply binary_round_aux_correct; assumption.
Qed.

Lemma ofRatio_correct (s : bool) (n d : positive) :
  IZR (Zpos n) / IZR (Zpos d) < powerRZ 2 1023 ->
  rounds_to s (IZR (Zpos n) / IZR (Zpos d)) (ofRatio s n d).
Proof.
  intros Hlt. unfold ofRatio.
  destruct (SFdiv_core_binary prec emax (Zpos n) 0 (Zpos d) 0) as [[q e'] l] eqn:E.
  destruct (div_core_correct n d 0 0 q e' l E) as [Hloc Hn].
  simpl powerRZ in Hloc. rewrite !Rmult_1_r in Hloc.
  apply binary_round_aux_correct; assumption.
Qed.

End Division.

Section Align.
Local Open Scope R_scope.

Lemma iter_xO_pow2 (m d : positive) :
  Zpos (Pos.iter xO m d) = (Zpos m * 2 ^ Zpos d)%Z.
Proof.
  induction d as [|d IH] using Pos.peano_ind.
  - simpl. lia.
  - rewrite Pos.iter_succ, Pos2Z.inj_xO, IH, Pos2Z.inj_succ, Z.pow_succ_r by lia. ring.
Qed.

Lemma shl_align_correct (m : positive) (e e' : Z) :
  forall m' e'',
    shl_align m e e' = (m', e'') ->
    e'' = Z.min e e' /\ Zpos m' = (Zpos m * 2 ^ (e - e''))%Z.
Proof.
  intros m' e''. unfold shl_align.
  destruct (e' - e)%Z as [|d|d] eqn:Ed; intros H; injection H as <- <-.
  - split; [lia|]. replace (e - e)%Z with 0%Z by lia. simpl. lia.
  - split; [lia|]. replace (e - e)%Z with 0%Z by lia. simpl. lia.
  - split; [lia|]. rewrite iter_xO_pow2. f_equal. f_equal. lia.
Qed.

Lemma Zdigits2_shift (m : positive) (k : Z) :
  (0 <= k)%Z -> Zdigits2 (Zpos m * 2 ^ k) = (Zdigits2 (Zpos m) + k)%Z.
Proof.
  intros Hk.
  destruct (Zdigits2_bounds (Zpos m) ltac:(lia)) as [Hl Hu].
  assert (Hd : (0 < Zdigits2 (Zpos m))%Z) by (simpl; lia).
  assert (Hp : (0 < 2 ^ k)%Z) by (apply Z.pow_pos_nonneg; lia).
  apply Zdigits2_unique; [split|].
  - replace (Zdigits2 (Zpos m) + k - 1)%Z with ((Zdigits2 (Zpos m) - 1) + k)%Z by lia.
    rewrite Z.pow_add_r by lia. apply Z.mul_le_mono_nonneg_r; lia.
  - rewrite Z.pow_add_r by lia. apply Z.mul_lt_mono_pos_r; lia.
  - apply Z.mul_pos_pos; lia.
Qed.

(** A canonical mantissa and exponent are returned unchanged. *)
Lemma binary_round_aux_canonical (s : bool) (m : positive) (e : Z) :
  bounded prec emax m e = true ->
  binary_round_aux prec emax s (Zpos m) e loc_Exact = S754_finite s m e.
Proof.
  intros B. pose proof B as B'. unfold bounded, canonical_mantissa in B'.
  apply andb_true_iff in B'. destruct B' as [Hc He].
  apply Z.eqb_eq in Hc.
  unfold binary_round_aux, shr_fexp. simpl Zdigits2. rewrite Hc, Z.sub_diag.
  simpl. rewrite Hc, Z.sub_diag. simpl. rewrite He. reflexivity.
Qed.

Lemma binary_round_correct (s : bool) (m : positive) (e : Z) :
  IZR (Zpos m) * powerRZ 2 e < powerRZ 2 1023 ->
  rounds_to s (IZR (Zpos m) * powerRZ 2 e) (binary_round prec emax s m e).
Proof.
  intros Hlt. unfold binary_round.
  destruct (shl_align m e (fexp prec emax (Zpos (digits2_pos m) + e))) as [mz ez] eqn:E.
  destruct (shl_align_correct _ _ _ _ _ E) as [Hez Hmz].
  assert (Hk : (0 <= e - ez)%Z) by lia.
  apply binary_round_aux_correct; [ | | exact Hlt].
  - apply locates_of_loc_exact; [lia|].
    rewrite Hmz, mult_IZR, <- bpow_IZR by lia.
    rewrite bpow_inv. pose proof (bpow_pos e). pose proof (bpow_pos ez). field. lra.
  - rewrite Hmz, Zdigits2_shift by lia. simpl Zdigits2.
    replace (Zpos (digits2_pos m) + (e - ez) + ez)%Z with (Zpos (digits2_pos m) + e)%Z by lia.
    lia.
Qed.

(** A value that fits the format is converted without rounding. *)
Lemma binary_round_exact (s : bool) (m : positive) (e : Z) :
  (Zpos (digits2_pos m) <= 53)%Z -> (-1074 <= e)%Z ->
  (Zpos (digits2_pos m) + e <= 1024)%Z ->
  exists m' e',
    binary_round prec emax s m e = S754_finite s m' e'
    /\ bounded prec emax m' e' = true
    /\ IZR (Zpos m') * powerRZ 2 e' = IZR (Zpos m) * powerRZ 2 e.
Proof.
  intros Hd He Hmax. unfold binary_round.
  destruct (shl_align m e (fexp prec emax (Zpos (digits2_pos m) + e))) as [mz ez] eqn:E.
  destruct (shl_align_correct _ _ _ _ _ E) as [Hez Hmz].
  rewrite fexp_eq in Hez.
  assert (Hez' : ez = Z.max (Zpos (digits2_pos m) + e - 53) (-1074)) by lia.
  assert (Hk : (0 <= e - ez)%Z) by lia.
  assert (B : bounded prec emax mz ez = true).
  { unfold bounded, canonical_mantissa. apply andb_true_iff. split.
    - apply Z.eqb_eq. rewrite fexp_eq.
      change (Zpos (digits2_pos mz)) with (Zdigits2 (Zpos mz)).
      rewrite Hmz, Zdigits2_shift by lia. simpl Zdigits2. lia.
    - apply Z.leb_le. unfold emax, prec. lia. }
  exists mz, ez. split; [apply binary_round_aux_canonical; exact B|].
  split; [exact B|].
  rewrite Hmz, mult_IZR, <- bpow_IZR by lia.
  rewrite bpow_inv. pose proof (bpow_pos e). pose proof (bpow_pos ez). field. lra.
Qed.

(** Integers of up to 53 bits are numbers. *)
Lemma ofZ_exact (z : Z) :
  (0 < z < 2 ^ 53)%Z ->
  exists m e, ofZ z = S754_finite false m e
              /\ bounded prec emax m e = true
              /\ IZR (Zpos m) * powerRZ 2 e = IZR z.
Proof.
  intros Hz. destruct z as [|p|p]; try lia. unfold ofZ. simpl binary_normalize.
  assert (Hd : (Zpos (digits2_pos p) <= 53)%Z).
  { change (Zpos (digits2_pos p)) with (Zdigits2 (Zpos p)).
    destruct (Z.le_gt_cases (Zdigits2 (Zpos p)) 53%Z) as [|Hbig]; [assumption|exfalso].
    destruct (Zdigits2_bounds (Zpos p) ltac:(lia)) as [Hl _].
    assert (2 ^ 53 <= 2 ^ (Zdigits2 (Zpos p) - 1))%Z by (apply Z.pow_le_mono_r; lia). lia. }
  destruct (binary_round_exact false p 0 Hd ltac:(lia) ltac:(lia)) as (m & e & E1 & E2 & E3).
  exists m, e. split; [exact E1|]. split; [exact E2|].
  rewrite E3. simpl. ring.
Qed.

End Align.

Section NonNegative.
Local Open Scope R_scope.

Lemma toR_nonneg (x : number) : fin_nonneg x -> 0 <= toR x.
Proof.
  intros [[sg ->] | (m & e & -> & _)]; simpl; [lra|].
  pose proof (bpow_pos e). assert (0 < IZR (Zpos m)) by (apply IZR_lt; lia). nra.
Qed.

Lemma toR_pos_finite (m : positive) (e : Z) : 0 < toR (S754_finite false m e).
Proof.
  simpl. pose proof (bpow_pos e). assert (0 < IZR (Zpos m)) by (apply IZR_lt; lia). nra.
Qed.

Lemma rounds_to_approx (x : R) (r : number) :
  rounds_to false x r -> approx r x.
Proof.
  intros [Hform Herr].
  assert (Hf : fin_nonneg r).
  { destruct Hform as [-> | H]; [left; eauto | right; exact H]. }
  split; [exact Hf|].
  rewrite (Rabs_pos_eq (toR r)) in Herr; [exact Herr|].
  apply toR_nonneg. exact Hf.
Qed.

Lemma approx_exact (r : number) : fin_nonneg r -> approx r (toR r).
Proof.
  intros H. split; [exact H|].
  replace (toR r - toR r) with 0 by ring. rewrite Rabs_R0.
  pose proof (toR_nonneg r H). pose proof (bpow_pos (-53)). pose proof (bpow_pos (-1075)).
  unfold u64, eta64. nra.
Qed.

Lemma approx_zero (sg : bool) : approx (S754_zero sg) 0.
Proof.
  split; [left; eauto|]. simpl. replace (0 - 0) with 0 by ring. rewrite Rabs_R0.
  pose proof (bpow_pos (-1075)). unfold u64, eta64. lra.
Qed.

Lemma mul_nonneg_total (x y : number) :
  fin_nonneg x -> fin_nonneg y ->
  approx (mul x y) (toR x * toR y) \/ mul x y = Infinity.
Proof.
  intros [[sx ->] | (mx & ex & -> & Bx)] [[sy ->] | (my & ey & -> & By)].
  - left. replace (toR _ * toR _) with 0 by (simpl; ring). apply approx_zero.
  - left. replace (toR _ * toR _) with 0 by (simpl; ring). apply approx_zero.
  - left. replace (toR _ * toR _) with 0 by (simpl; ring). apply approx_zero.
  - destruct (mul_finite_total false false mx my ex ey Bx By) as [H | [H _]].
    + left. apply rounds_to_approx. exact H.
    + right. exact H.
Qed.

Lemma mul_nonneg_correct (x y : number) :
  fin_nonneg x -> fin_nonneg y -> toR x * toR y < powerRZ 2 1023 ->
  approx (mul x y) (toR x * toR y).
Proof.
  intros [[sx ->] | (mx & ex & -> & Bx)] [[sy ->] | (my & ey & -> & By)] Hlt.
  - replace (toR _ * toR _) with 0 by (simpl; ring). apply approx_zero.
  - replace (toR _ * toR _) with 0 by (simpl; ring). apply approx_zero.
  - replace (toR _ * toR _) with 0 by (simpl; ring). apply approx_zero.
  - apply rounds_to_approx. simpl toR in *.
    exact (mul_finite_correct false false mx my ex ey Bx By Hlt).
Qed.

Lemma div_nonneg_correct (x y : number) :
  fin_nonneg x -> fin_nonneg y -> 0 < toR y -> toR x / toR y < powerRZ 2 1023 ->
  approx (div x y) (toR x / toR y).
Proof.
  intros [[sx ->] | (mx & ex & -> & Bx)] [[sy ->] | (my & ey & -> & By)] Hy Hlt;
    try (simpl in Hy; lra).
  - replace (toR _ / toR _) with 0 by (simpl; unfold Rdiv; ring). apply approx_zero.
  - apply rounds_to_approx. simpl toR in *.
    exact (div_finite_correct false false mx my ex ey Hlt).
Qed.

Lemma add_nonneg_correct (x y : number) :
  fin_nonneg x -> fin_nonneg y -> toR x + toR y < powerRZ 2 1023 ->
  approx (add x y) (toR x + toR y).
Proof.
  intros [[sx ->] | (mx & ex & -> & Bx)] [[sy ->] | (my & ey & -> & By)] Hlt.
  - replace (toR _ + toR _) with 0 by (simpl; ring).
    destruct sx, sy; apply approx_zero.
  - replace (toR (S754_zero sx) + _) with (toR (add (S754_zero sx) (S754_finite false my ey))) by (simpl; ring).
    apply approx_exact. right. eauto.
  - replace (_ + toR (S754_zero sy)) with (toR (add (S754_finite false mx ex) (S754_zero sy))) by (simpl; ring).
    apply approx_exact. right. eauto.
  - apply rounds_to_approx. unfold add. simpl SFadd.
    destruct (shl_align mx ex (Z.min ex ey)) as [mx' ex'] eqn:Ex.
    destruct (shl_align my ey (Z.min ex ey)) as [my' ey'] eqn:Ey.
    destruct (shl_align_correct _ _ _ _ _ Ex) as [Hex Hmx].
    destruct (shl_align_correct _ _ _ _ _ Ey) as [Hey Hmy].
    simpl fst. simpl cond_Zopp.
    change (Zpos mx' + Zpos my')%Z with (Zpos (mx' + my')). simpl binary_normalize.
    set (ez := Z.min ex ey) in *.
    assert (Ev : IZR (Zpos (mx' + my')) * powerRZ 2 ez
                 = toR (S754_finite false mx ex) + toR (S754_finite false my ey)).
    { simpl toR. rewrite Pos2Z.inj_add, plus_IZR, Hmx, Hmy, !mult_IZR.
      rewrite <- !bpow_IZR by lia.
      replace ex' with ez in * by lia. replace ey' with ez in * by lia.
      rewrite !bpow_inv. pose proof (bpow_pos ez). field. lra. }
    rewrite <- Ev. apply binary_round_correct. rewrite Ev. exact Hlt.
Qed.

(** [Math.round] of a non-negative number is the integer [floor (x + 1/2)]. *)
Lemma round_nonneg_correct (x : number) :
  fin_nonneg x ->
  exists z : Z, (0 <= z)%Z /\ fin_nonneg (round x) /\ toR (round x) = IZR z
                /\ IZR z - 1 / 2 <= toR x < IZR z + 1 / 2.
Proof.
  intros [[sg ->] | (m & e & -> & B)].
  - exists 0%Z. simpl. split; [lia|]. split; [left; eauto|]. split; lra.
  - destruct (bounded_digits _ _ B) as (Hd & He & Hc).
    destruct e as [|k|k].
    + exists (Zpos m). simpl. split; [lia|]. split; [right; eauto|]. split; lra.
    + exists (Zpos m * 2 ^ Zpos k)%Z.
      assert (0 < 2 ^ Zpos k)%Z by (apply Z.pow_pos_nonneg; lia).
      split; [lia|]. split; [right; eauto|].
      assert (E : toR (round (S754_finite false m (Zpos k))) = IZR (Zpos m * 2 ^ Zpos k)).
      { cbn [round toR cond_Zopp]. rewrite mult_IZR, <- bpow_IZR by lia. reflexivity. }
      split; [exact E|]. cbn [round] in E. rewrite E. lra.
    + cbn [round].
      set (z := roundHalfUpZ false m (Zneg k)).
      assert (Ez : z = ((2 * Zpos m + 2 ^ Zpos k) / 2 ^ (Zpos k + 1))%Z) by reflexivity.
      assert (Hp : (0 < 2 ^ Zpos k)%Z) by (apply Z.pow_pos_nonneg; lia).
      assert (Hp1 : (2 ^ (Zpos k + 1) = 2 * 2 ^ Zpos k)%Z) by (rewrite Z.pow_add_r by lia; ring).
      pose proof (Z_div_mod_eq_full (2 * Zpos m + 2 ^ Zpos k) (2 ^ (Zpos k + 1))) as Hdiv.
      pose proof (Z.mod_pos_bound (2 * Zpos m + 2 ^ Zpos k) (2 ^ (Zpos k + 1)) ltac:(lia)) as Hmod.
      rewrite <- Ez in Hdiv.
      assert (Hz0 : (0 <= z)%Z) by (rewrite Ez; apply Z.div_pos; lia).
      (* the value of x *)
      assert (Ex : toR (S754_finite false m (Zneg k)) = IZR (Zpos m) / IZR (2 ^ Zpos k)).
      { cbn [toR cond_Zopp]. change (Zneg k) with (- Zpos k)%Z.
        replace (- Zpos k)%Z with (0 - Zpos k)%Z by lia.
        rewrite bpow_inv, (bpow_IZR (Zpos k)) by lia.
        change (powerRZ 2 0) with 1. field.
        apply not_0_IZR. lia. }
      assert (HpR : 0 < IZR (2 ^ Zpos k)) by (apply IZR_lt; lia).
      assert (Hbounds : IZR z - 1 / 2 <= IZR (Zpos m) / IZR (2 ^ Zpos k) < IZR z + 1 / 2).
      { assert (H1 : (2 ^ (Zpos k + 1) * z <= 2 * Zpos m + 2 ^ Zpos k)%Z) by lia.
        assert (H2 : (2 * Zpos m + 2 ^ Zpos k < 2 ^ (Zpos k + 1) * (z + 1))%Z) by lia.
        rewrite Hp1 in H1, H2.
        apply IZR_le in H1. apply IZR_lt in H2.
        rewrite !plus_IZR, !mult_IZR in H1, H2. rewrite plus_IZR in H2.
        split.
        - apply (Rmult_le_reg_r (IZR (2 ^ Zpos k))); [lra|].
          replace (IZR (Zpos m) / IZR (2 ^ Zpos k) * IZR (2 ^ Zpos k)) with (IZR (Zpos m)) by (field; lra).
          lra.
        - apply (Rmult_lt_reg_r (IZR (2 ^ Zpos k))); [lra|].
          replace (IZR (Zpos m) / IZR (2 ^ Zpos k) * IZR (2 ^ Zpos k)) with (IZR (Zpos m)) by (field; lra).
          lra. }
      exists z. split; [exact Hz0|].
      (* z has at most 53 bits *)
      assert (Hzlt : (z < 2 ^ 53)%Z).
      { assert (Hm : (Zpos m < 2 ^ 53)%Z).
        { destruct (Zdigits2_bounds (Zpos m) ltac:(lia)) as [_ Hu]. simpl Zdigits2 in Hu.
          eapply Z.lt_le_trans; [exact Hu|]. apply Z.pow_le_mono_r; lia. }
        rewrite Ez. apply Z.div_lt_upper_bound; [lia|].
        rewrite Hp1.
        assert (2 <= 2 ^ Zpos k)%Z.
        { change 2%Z with (2 ^ 1)%Z at 1. apply Z.pow_le_mono_r; lia. }
        nia. }
      destruct z as [|p|p] eqn:Ezz; [ | | lia].
      * split; [left; eauto|]. rewrite Ex. split; [reflexivity | exact Hbounds].
      * destruct (ofZ_exact (Zpos p) ltac:(lia)) as (m' & e' & E1 & E2 & E3).
        rewrite E1. split; [right; eauto|]. rewrite Ex.
        split; [simpl; exact E3 | exact Hbounds].
Qed.

End NonNegative.

Section Comparisons.
Local Open Scope R_scope.

Lemma u64_val : u64 = / 9007199254740992.
Proof.
  unfold u64. replace (-53)%Z with (0 - 53)%Z by lia.
  rewrite bpow_inv, (bpow_IZR 53) by lia. change (powerRZ 2 0) with 1.
  change (2 ^ 53)%Z with 9007199254740992%Z. field.
Qed.

Lemma eta64_small : 0 < eta64 <= / 1000000000000000000000000000000.
Proof.
  unfold eta64. split; [apply bpow_pos|].
  apply Rle_trans with (powerRZ 2 (-100)); [apply bpow_le; lia|].
  replace (-100)%Z with (0 - 100)%Z by lia.
  rewrite bpow_inv, (bpow_IZR 100) by lia. change (powerRZ 2 0) with 1.
  change (2 ^ 100)%Z with 1267650600228229401496703205376%Z.
  apply Rle_trans with (/ 1267650600228229401496703205376); [lra|].
  apply Rinv_le_contravar; lra.
Qed.

Lemma bpow_1023_large : 1000000000000 < powerRZ 2 1023.
Proof.
  apply Rlt_le_trans with (powerRZ 2 40); [|apply bpow_le; lia].
  rewrite (bpow_IZR 40) by lia. change (2 ^ 40)%Z with 1099511627776%Z. lra.
Qed.

Lemma bpow_1023_huge : 1000000000000000 < powerRZ 2 1023.
Proof.
  apply Rlt_le_trans with (powerRZ 2 50); [|apply bpow_le; lia].
  rewrite (bpow_IZR 50) by lia. change (2 ^ 50)%Z with 1125899906842624%Z. lra.
Qed.

(** The absolute error of a rounding, with explicit constants. *)
Lemma approx_error (r : number) (x : R) :
  approx r x ->
  Rabs (toR r - x) <= x / 9007199254740992 + / 1000000000000000000000000000000.
Proof.
  intros [_ H]. rewrite u64_val in H. pose proof eta64_small. unfold Rdiv. lra.
Qed.

Lemma bounded_lt_max (m : positive) (e : Z) :
  bounded prec emax m e = true -> IZR (Zpos m) * powerRZ 2 e < powerRZ 2 1024.
Proof.
  intros B. destruct (bounded_digits _ _ B) as (Hd & He & _).
  destruct (Zdigits2_bounds (Zpos m) ltac:(lia)) as [_ Hu]. simpl Zdigits2 in Hu.
  assert (Hm : (Zpos m < 2 ^ 53)%Z).
  { eapply Z.lt_le_trans; [exact Hu|]. apply Z.pow_le_mono_r; lia. }
  apply IZR_lt in Hm. rewrite <- bpow_IZR in Hm by lia.
  pose proof (bpow_pos e). pose proof (bpow_le e 971 ltac:(lia)).
  replace 1024%Z with (53 + 971)%Z by lia. rewrite bpow_add.
  pose proof (bpow_pos 53).
  apply Rlt_le_trans with (powerRZ 2 53 * powerRZ 2 e); [nra | nra].
Qed.

(** [x > y] is false only if [x <= y], for a non-negative [x] and a
    positive finite [y]. *)
Lemma gt_false_le (x : number) (my : positive) (ey : Z) :
  fin_nonneg x -> bounded prec emax my ey = true ->
  gt x (S754_finite false my ey) = false ->
  toR x <= toR (S754_finite false my ey).
Proof.
  intros [[sg ->] | (m & e & -> & B)] By H.
  - pose proof (toR_pos_finite my ey). simpl (toR (S754_zero sg)). lra.
  - unfold gt, SFltb in H. simpl SFcompare in H.
    destruct (bounded_digits _ _ B) as (Hd & He & Hc).
    destruct (bounded_digits _ _ By) as (Hdy & Hey & Hcy).
    destruct (Zdigits2_bounds (Zpos m) ltac:(lia)) as [Hl Hu]. simpl Zdigits2 in Hl, Hu.
    destruct (Zdigits2_bounds (Zpos my) ltac:(lia)) as [Hly Huy]. simpl Zdigits2 in Hly, Huy.
    simpl toR. pose proof (bpow_pos e) as Pe. pose proof (bpow_pos ey) as Pey.
    destruct (Z.compare_spec ey e) as [E | E | E]; [ | discriminate | ].
    + subst e.
      assert (Hm : (Zpos m <= Zpos my)%Z).
      { change (Pos.compare_cont Eq my m) with (my ?= m)%positive in H.
        destruct (Pos.compare_spec my m) as [Ec | Ec | Ec]; try discriminate; lia. }
      apply IZR_le in Hm. nra.
    + (* e < ey: y is normal, and x lies below its binade *)
      assert (Hdy53 : Zpos (digits2_pos my) = 53%Z) by lia.
      assert (Hm : (Zpos m < 2 ^ 53)%Z).
      { eapply Z.lt_le_trans; [exact Hu|]. apply Z.pow_le_mono_r; lia. }
      assert (Hmy : (2 ^ 52 <= Zpos my)%Z).
      { rewrite Hdy53 in Hly. exact Hly. }
      apply IZR_lt in Hm. apply IZR_le in Hmy.
      rewrite <- bpow_IZR in Hm, Hmy by lia.
      pose proof (bpow_le (e + 1) ey ltac:(lia)) as Hle. rewrite bpow_succ in Hle.
      replace (powerRZ 2 53) with (2 * powerRZ 2 52) in Hm
        by (replace 53%Z with (52 + 1)%Z by lia; rewrite bpow_succ; ring).
      pose proof (bpow_pos 52).
      apply Rle_trans with (2 * powerRZ 2 52 * powerRZ 2 e); [nra|].
      apply Rle_trans with (powerRZ 2 52 * powerRZ 2 ey); [nra | nra].
Qed.

Lemma fin_nonneg_of_checks (x : number) :
  valid x = true -> isFinite x = true -> lt x pzero = false -> fin_nonneg x.
Proof.
  destruct x as [sg | sg | | sg m e]; simpl; intros V F L; try discriminate.
  - left. eauto.
  - destruct sg; [discriminate|]. right. eauto.
Qed.

Lemma max_pzero_nonneg (x : number) :
  fin_nonneg x -> fin_nonneg (max pzero x) /\ toR (max pzero x) = toR x.
Proof.
  intros [[sg ->] | (m & e & -> & B)]; simpl.
  - split; [left; eauto | reflexivity].
  - split; [right; eauto | reflexivity].
Qed.

Lemma sanitizePrice_nonneg (p : number) :
  valid p = true -> fin_nonneg (sanitizePrice p).
Proof.
  intros V. unfold sanitizePrice.
  destruct (negb (isFinite p) || lt p pzero) eqn:E.
  - left. exists false. reflexivity.
  - apply orb_false_iff in E. destruct E as [E1 E2]. apply negb_false_iff in E1.
    apply max_pzero_nonneg. apply fin_nonneg_of_checks; assumption.
Qed.

Lemma sanitizePrice_id (x : number) :
  fin_nonneg x -> fin_nonneg (sanitizePrice x) /\ toR (sanitizePrice x) = toR x.
Proof.
  intros H. unfold sanitizePrice.
  assert (E : negb (isFinite x) || lt x pzero = false).
  { destruct H as [[sg ->] | (m & e & -> & B)]; reflexivity. }
  rewrite E. apply max_pzero_nonneg. exact H.
Qed.

Lemma sanitizeQuantity_nonneg (q : number) :
  valid q = true -> fin_nonneg (sanitizeQuantity q).
Proof.
  intros V. unfold sanitizeQuantity.
  destruct (negb (isFinite q) || lt q pzero) eqn:E.
  - left. exists false. reflexivity.
  - apply orb_false_iff in E. destruct E as [E1 E2]. apply negb_false_iff in E1.
    apply max_pzero_nonneg.
    destruct (round_nonneg_correct q (fin_nonneg_of_checks q V E1 E2)) as (z & _ & H & _).
    exact H.
Qed.

End Comparisons.

Section RoundToTwoDecimals.
Local Open Scope R_scope.

Lemma ofZ_pos_nonneg (z : Z) :
  (0 < z < 2 ^ 53)%Z -> fin_nonneg (ofZ z) /\ toR (ofZ z) = IZR z.
Proof.
  intros Hz. destruct (ofZ_exact z Hz) as (m & e & E1 & E2 & E3).
  rewrite E1. split; [right; eauto | exact E3].
Qed.

(** [roundToTwoDecimals] of a non-negative amount of moderate size: the
    result is the number nearest to [N / 100] for an integer [N] within
    half a unit (and a rounding error) of [100 v]. *)
Lemma roundToTwoDecimals_bounded (v : number) :
  fin_nonneg v -> toR v <= 4000000000 ->
  exists N : Z,
    (0 <= N)%Z /\ approx (roundToTwoDecimals v) (IZR N / 100)
    /\ Rabs (IZR N - 100 * toR v) <= 1 / 2 + 1 / 10000
    /\ Rabs (toR (roundToTwoDecimals v) - IZR N / 100) <= 1 / 1000000.
Proof.
  intros Hv Hb. pose proof (toR_nonneg v Hv) as Hv0.
  destruct (ofZ_pos_nonneg 100 ltac:(lia)) as [H100 E100].
  pose proof bpow_1023_large as Hbig.
  assert (Hc : approx (mul v (ofZ 100)) (toR v * toR (ofZ 100))).
  { apply mul_nonneg_correct; [exact Hv | exact H100 | rewrite E100; lra]. }
  rewrite E100 in Hc. pose proof (approx_error _ _ Hc) as Hce. destruct Hc as [Hcf _].
  destruct (round_nonneg_correct _ Hcf) as (N & HN0 & Hnf & En & Hn).
  assert (HNb : IZR N <= 400000000001).
  { apply Rabs_le_inv in Hce. lra. }
  assert (HNR : 0 <= IZR N) by (apply IZR_le; lia).
  assert (Hd : approx (div (round (mul v (ofZ 100))) (ofZ 100))
                      (toR (round (mul v (ofZ 100))) / toR (ofZ 100))).
  { apply div_nonneg_correct; [exact Hnf | exact H100 | rewrite E100; lra |].
    rewrite En, E100. lra. }
  rewrite En, E100 in Hd. pose proof (approx_error _ _ Hd) as Hde.
  exists N. split; [exact HN0|]. split; [exact Hd|]. split.
  - apply Rabs_le. apply Rabs_le_inv in Hce. lra.
  - unfold roundToTwoDecimals. apply Rabs_le. apply Rabs_le_inv in Hde. lra.
Qed.

(** The same for amounts up to 2.1e12, with the coarser error terms of
    that size. *)
Lemma roundToTwoDecimals_wide (v : number) :
  fin_nonneg v -> toR v <= 2100000000000 ->
  exists N : Z,
    (0 <= N)%Z /\ approx (roundToTwoDecimals v) (IZR N / 100)
    /\ Rabs (IZR N - 100 * toR v) <= 1 / 2 + 1 / 40
    /\ Rabs (toR (roundToTwoDecimals v) - IZR N / 100) <= 1 / 4000.
Proof.
  intros Hv Hb. pose proof (toR_nonneg v Hv) as Hv0.
  destruct (ofZ_pos_nonneg 100 ltac:(lia)) as [H100 E100].
  pose proof bpow_1023_huge as Hbig.
  assert (Hc : approx (mul v (ofZ 100)) (toR v * toR (ofZ 100))).
  { apply mul_nonneg_correct; [exact Hv | exact H100 | rewrite E100; lra]. }
  rewrite E100 in Hc. pose proof (approx_error _ _ Hc) as Hce. destruct Hc as [Hcf _].
  destruct (round_nonneg_correct _ Hcf) as (N & HN0 & Hnf & En & Hn).
  assert (HNb : IZR N <= 210000000000001).
  { apply Rabs_le_inv in Hce. lra. }
  assert (HNR : 0 <= IZR N) by (apply IZR_le; lia).
  assert (Hd : approx (div (round (mul v (ofZ 100))) (ofZ 100))
                      (toR (round (mul v (ofZ 100))) / toR (ofZ 100))).
  { apply div_nonneg_correct; [exact Hnf | exact H100 | rewrite E100; lra |].
    rewrite En, E100. lra. }
  rewrite En, E100 in Hd. pose proof (approx_error _ _ Hd) as Hde.
  exists N. split; [exact HN0|]. split; [exact Hd|]. split.
  - apply Rabs_le. apply Rabs_le_inv in Hce. lra.
  - unfold roundToTwoDecimals. apply Rabs_le. apply Rabs_le_inv in Hde. lra.
Qed.

(** Without a bound on the amount the result may also be [Infinity]. *)
Lemma roundToTwoDecimals_total (v : number) :
  fin_nonneg v ->
  roundToTwoDecimals v = Infinity
  \/ exists N : Z, (0 <= N)%Z /\ approx (roundToTwoDecimals v) (IZR N / 100).
Proof.
  intros Hv.
  destruct (ofZ_pos_nonneg 100 ltac:(lia)) as [H100 E100].
  destruct (mul_nonneg_total v (ofZ 100) Hv H100) as [[Hcf _] | Hinf].
  - right. destruct (round_nonneg_correct _ Hcf) as (N & HN0 & Hnf & En & Hn).
    exists N. split; [exact HN0|].
    assert (Hd : approx (div (round (mul v (ofZ 100))) (ofZ 100))
                        (toR (round (mul v (ofZ 100))) / toR (ofZ 100))).
    { apply div_nonneg_correct; [exact Hnf | exact H100 | rewrite E100; lra |].
      rewrite E100.
      assert (toR (round (mul v (ofZ 100))) < powerRZ 2 1024).
      { destruct Hnf as [[sg ->] | (m & e & -> & B)].
        - cbn [toR]. apply bpow_pos.
        - apply bounded_lt_max. exact B. }
      replace 1024%Z with (1023 + 1)%Z in H by lia. rewrite bpow_succ in H.
      pose proof (toR_nonneg _ Hnf). lra. }
    rewrite En, E100 in Hd. exact Hd.
  - left. unfold roundToTwoDecimals. rewrite Hinf. reflexivity.
Qed.

End RoundToTwoDecimals.

Section RoundTripReal.
Local Open Scope R_scope.

(** Two integers less than one apart are equal. *)
Lemma IZR_close_eq (a b : Z) : Rabs (IZR a - IZR b) < 1 -> a = b.
Proof.
  intros H. rewrite <- minus_IZR in H.
  assert (H1 : IZR (a - b) < IZR 1).
  { unfold Rabs in H. destruct (Rcase_abs (IZR (a - b))); lra. }
  assert (H2 : IZR (-1) < IZR (a - b)).
  { unfold Rabs in H. destruct (Rcase_abs (IZR (a - b))); lra. }
  apply lt_IZR in H1, H2. lia.
Qed.

Lemma mul_bound (a b A B : R) :
  0 <= a <= A -> - B <= b <= B -> - (A * B) <= a * b <= A * B.
Proof. intros Ha Hb. nra. Qed.

Lemma quot_nonneg (x c y : R) : x * c = y -> 0 < c -> 0 <= y -> 0 <= x.
Proof.
  intros E Hc Hy. destruct (Rle_dec 0 x) as [|Hx]; [assumption|exfalso].
  assert (x * c < 0) by nra. lra.
Qed.

Lemma scaled_bound (x c y c0 Y : R) :
  x * c = y -> 0 < c0 -> c0 <= c -> - Y <= y <= Y -> - (Y / c0) <= x <= Y / c0.
Proof.
  intros E H0 Hc Hy.
  assert (HY : 0 <= Y) by lra.
  assert (Hq : Y / c0 * c0 = Y) by (field; lra).
  assert (Hq0 : 0 <= Y / c0) by (apply Rmult_le_pos; [lra | left; apply Rinv_0_lt_compat; lra]).
  set (q := Y / c0) in *.
  split.
  - destruct (Rle_dec 0 x) as [Hx | Hx]; [lra|].
    assert (x * c <= x * c0) by nra. nra.
  - destruct (Rle_dec x 0) as [Hx | Hx]; [lra|].
    assert (x * c0 <= x * c) by nra. nra.
Qed.

Lemma prod_bound (a b A B : R) :
  0 <= a <= A -> 0 <= b <= B -> 0 <= a * b <= A * B.
Proof. intros Ha Hb. nra. Qed.

Lemma quot_le (x c y : R) : x * c = y -> 1 <= c -> 0 <= x -> x <= y.
Proof. intros E Hc Hx. nra. Qed.

Lemma half_bound (s r : R) : 0 <= s -> 0 <= r <= 1 / 2 -> s * r <= s / 2.
Proof. intros Hs Hr. nra. Qed.

(** The arithmetic behind the round trip, on the real values of the
    intermediate results and the integers of cents [S], [K], [N], [M]
    that the four roundings produce. *)
Lemma roundtrip_real (sv rv wv tv av Tv a1v D dv bv mv : R) (S K N M : Z) :
  0 <= rv <= 1 -> 0 <= sv <= 1000000000000 -> 0 <= Tv -> 0 <= bv ->
  Rabs (sv - IZR S / 100) <= IZR S / 100 / 9007199254740992 + / 1000000000000000000000000000000 ->
  Rabs (wv - sv * rv) <= sv * rv / 9007199254740992 + / 1000000000000000000000000000000 ->
  Rabs (IZR K - 100 * wv) <= 1 / 2 + 1 / 40 ->
  Rabs (tv - IZR K / 100) <= 1 / 4000 ->
  Rabs (av - (sv + tv)) <= (sv + tv) / 9007199254740992 + / 1000000000000000000000000000000 ->
  Rabs (IZR N - 100 * av) <= 1 / 2 + 1 / 40 ->
  Rabs (Tv - IZR N / 100) <= 1 / 4000 ->
  Rabs (a1v - (1 + rv)) <= (1 + rv) / 9007199254740992 + / 1000000000000000000000000000000 ->
  D * a1v = Tv ->
  Rabs (dv - D) <= D / 9007199254740992 + / 1000000000000000000000000000000 ->
  Rabs (IZR M - 100 * dv) <= 1 / 2 + 1 / 40 ->
  Rabs (bv - IZR M / 100) <= 1 / 4000 ->
  Rabs (mv - bv * a1v) <= bv * a1v / 9007199254740992 + / 1000000000000000000000000000000 ->
  Rabs (Tv - (sv + tv)) <= 1 / 200 /\ Rabs (Tv - bv * (1 + rv)) <= 1 / 100
  /\ Rabs (Tv - av) <= 1 / 1000 /\ Rabs (Tv - mv) <= 99 / 10000.
Proof.
  intros Hr Hs HT0 Hb0 Es Ew EK Et Ea EN ET Ea1 ED Ed EM Eb Em.
  apply Rabs_le_inv in Em.
  apply Rabs_le_inv in Es. apply Rabs_le_inv in Ew. apply Rabs_le_inv in EK.
  apply Rabs_le_inv in Et. apply Rabs_le_inv in Ea. apply Rabs_le_inv in EN.
  apply Rabs_le_inv in ET. apply Rabs_le_inv in Ea1. apply Rabs_le_inv in Ed.
  apply Rabs_le_inv in EM. apply Rabs_le_inv in Eb.
  set (P := sv * rv) in *.
  assert (HP : 0 <= P <= sv) by (unfold P; nra).
  (* the subtotal in cents *)
  assert (HS : IZR S <= 100000000000001) by lra.
  assert (HeS : -(1 / 80) <= 100 * sv - IZR S <= 1 / 80) by lra.
  (* the total is the sum of the subtotal and the tax, in cents *)
  assert (HNSK : N = (S + K)%Z).
  { apply IZR_close_eq. rewrite plus_IZR. apply Rabs_def1; lra. }
  split; [apply Rabs_le; rewrite HNSK, plus_IZR in ET; lra|].
  assert (HTa : Rabs (Tv - av) <= 1 / 1000).
  { apply Rabs_le. rewrite HNSK, plus_IZR in ET. lra. }
  cut (Rabs (Tv - bv * (1 + rv)) <= 1 / 100 /\ Rabs (Tv - mv) <= 99 / 10000);
    [tauto|].
  (* the divisor 1 + r *)
  assert (Ha1 : 1 - 1 / 1000000000000000 <= a1v <= 2 + 1 / 1000000000000000) by lra.
  assert (HT : 0 <= Tv <= 2000000000001).
  { rewrite HNSK, plus_IZR in ET. lra. }
  assert (HD : 0 <= D <= 2021000000000).
  { pose proof (quot_nonneg _ _ _ ED ltac:(lra) ltac:(lra)) as HD0.
    pose proof (scaled_bound _ _ _ (99 / 100) 2000000000001 ED ltac:(lra) ltac:(lra) ltac:(lra)) as HX.
    lra. }
  (* the exact quotient *)
  set (Q := Tv / (1 + rv)).
  assert (EQ : Q * (1 + rv) = Tv) by (unfold Q; field; lra).
  assert (HDQ : - (1 / 2000) <= D - Q <= 1 / 2000).
  { assert (E1 : (D - Q) * (1 + rv) = D * ((1 + rv) - a1v)).
    { replace (D * (1 + rv - a1v)) with (D * (1 + rv) - D * a1v) by ring.
      rewrite ED, <- EQ. ring. }
    assert (He : - (1 / 4400000000000000) <= (1 + rv) - a1v <= 1 / 4400000000000000) by lra.
    pose proof (mul_bound _ _ _ _ HD He) as HDe.
    pose proof (scaled_bound _ _ _ 1 _ E1 ltac:(lra) ltac:(lra) HDe) as HX.
    lra. }
  assert (HMQ : - (3 / 5) <= IZR M - 100 * Q <= 3 / 5) by lra.
  assert (Hc : 1 <= 1 + rv <= 2) by lra.
  assert (HQT : 0 <= Q <= Tv).
  { pose proof (quot_nonneg _ _ _ EQ ltac:(lra) ltac:(lra)) as HQ0. split; [exact HQ0|].
    apply (quot_le _ _ _ EQ); lra. }
  assert (He : - (1 / 4400000000000000) <= (1 + rv) - a1v <= 1 / 4400000000000000) by lra.
  (* from the exact round trip to the one computed with [1 + r] rounded *)
  assert (Hfloat : forall B0 c0 e0 : R,
            0 <= bv <= B0 -> 0 <= a1v <= c0 -> - e0 <= (1 + rv) - a1v <= e0 ->
            forall eps, Rabs (Tv - bv * (1 + rv)) <= eps ->
            Rabs (Tv - mv) <= eps + B0 * e0
                              + B0 * c0 / 9007199254740992 + / 1000000000000000000000000000000).
  { intros B0 c0 e0 Hb Ha He0 eps Heps. apply Rabs_le_inv in Heps.
    pose proof (mul_bound _ _ _ _ Hb He0) as H1.
    pose proof (prod_bound _ _ _ _ Hb Ha) as H2.
    apply Rabs_le.
    replace (Tv - mv) with ((Tv - bv * (1 + rv)) + bv * ((1 + rv) - a1v) - (mv - bv * a1v))
      by ring.
    unfold Rdiv in *. lra. }
  destruct (Rle_dec rv (1 / 2)) as [Hlow | Hhigh].
  - (* a rate of at most one half *)
    set (x := bv - IZR M / 100) in *. set (y := IZR M - 100 * Q) in *.
    assert (E : Tv - bv * (1 + rv) = - ((1 + rv) * x) - (1 + rv) * y / 100).
    { unfold x, y. rewrite <- EQ. field. }
    assert (Hc' : 0 <= 1 + rv <= 3 / 2) by lra.
    pose proof (mul_bound _ _ _ _ Hc' Eb) as Hx.
    pose proof (mul_bound _ _ _ _ Hc' HMQ) as Hy.
    assert (Hexact : Rabs (Tv - bv * (1 + rv)) <= 9375 / 1000000).
    { apply Rabs_le. rewrite E. lra. }
    split; [apply Rabs_le; apply Rabs_le_inv in Hexact; lra|].
    assert (HPlow : P <= sv / 2) by (unfold P; apply half_bound; lra).
    assert (HTlow : Tv <= 1500000000001).
    { rewrite HNSK, plus_IZR in ET. lra. }
    assert (Hb : 0 <= bv <= 1500000000002).
    { unfold x, y in *. lra. }
    pose proof (Hfloat 1500000000002 (3 / 2 + 1 / 1000000000000000)
                  (1 / 5900000000000000) Hb ltac:(lra) ltac:(lra) _ Hexact) as HF.
    apply Rabs_le. apply Rabs_le_inv in HF. unfold Rdiv in *. lra.
  - (* a larger rate: the net price in cents is the subtotal in cents *)
    assert (HE : - (23 / 40) <= 100 * Tv - IZR S * (1 + rv) <= 23 / 40).
    { rewrite HNSK, plus_IZR in ET.
      assert (E1 : 100 * P = rv * (100 * sv - IZR S) + IZR S * rv) by (unfold P; ring).
      assert (Hr' : 0 <= rv <= 1) by lra.
      pose proof (mul_bound _ _ _ _ Hr' HeS) as Hx.
      lra. }
    assert (HQS : - (1917 / 5000) <= 100 * Q - IZR S <= 1917 / 5000).
    { assert (E1 : (100 * Q - IZR S) * (1 + rv) = 100 * Tv - IZR S * (1 + rv)) by (rewrite <- EQ; ring).
      pose proof (scaled_bound _ _ _ (3 / 2) _ E1 ltac:(lra) ltac:(lra) HE) as HX.
      lra. }
    assert (HMS : M = S).
    { apply IZR_close_eq. apply Rabs_def1; lra. }
    rewrite HMS in Eb.
    set (x := bv - IZR S / 100) in *.
    assert (E : Tv - bv * (1 + rv) = - ((1 + rv) * x) + (100 * Tv - IZR S * (1 + rv)) / 100).
    { unfold x. field. }
    assert (Hc' : 0 <= 1 + rv <= 2) by lra.
    pose proof (mul_bound _ _ _ _ Hc' Eb) as Hx.
    assert (Hexact : Rabs (Tv - bv * (1 + rv)) <= 625 / 100000).
    { apply Rabs_le. rewrite E. lra. }
    split; [apply Rabs_le; apply Rabs_le_inv in Hexact; lra|].
    assert (Hb : 0 <= bv <= 1000000000001).
    { unfold x in *. lra. }
    pose proof (Hfloat 1000000000001 (2 + 1 / 1000000000000000)
                  (1 / 4400000000000000) Hb ltac:(lra) He _ Hexact) as HF.
    apply Rabs_le. apply Rabs_le_inv in HF. unfold Rdiv in *. lra.
Qed.

End RoundTripReal.

Section RoundTrip.
Local Open Scope R_scope.

Lemma fin_nonneg_isFinite (x : number) : fin_nonneg x -> isFinite x = true.
Proof. intros [[sg ->] | (m & e & -> & _)]; reflexivity. Qed.

(** From a subtotal of whole cents to the tax, the total and back. *)
Lemma roundtrip_analysis (s r : number) (S : Z) :
  approx s (IZR S / 100) -> toR s <= 1000000000000 ->
  fin_nonneg r -> toR r <= 1 ->
  let t := roundToTwoDecimals (mul s r) in
  let T := roundToTwoDecimals (add s t) in
  let b := calculatePriceBeforeVat T (Some r) in
  fin_nonneg t /\ fin_nonneg T /\ fin_nonneg b
  /\ Rabs (toR T - (toR s + toR t)) <= 1 / 200
  /\ Rabs (toR T - toR b * (1 + toR r)) <= 1 / 100
  /\ fin_nonneg (add s t) /\ Rabs (toR T - toR (add s t)) <= 1 / 1000
  /\ fin_nonneg (mul b (add (ofZ 1) r))
  /\ Rabs (toR T - toR (mul b (add (ofZ 1) r))) <= 99 / 10000.
Proof.
  intros Hs Hsb Hr Hrb. cbv zeta.
  pose proof (approx_error _ _ Hs) as Es. destruct Hs as [Hsf _].
  pose proof (toR_nonneg _ Hsf) as Hs0. pose proof (toR_nonneg _ Hr) as Hr0.
  pose proof bpow_1023_huge as Hbig.
  assert (HP : 0 <= toR s * toR r <= 1000000000000).
  { pose proof (mul_bound (toR s) (toR r) 1000000000000 1 ltac:(lra) ltac:(lra)).
    split; [apply Rmult_le_pos; lra | lra]. }
  (* tax before rounding to cents *)
  assert (Hw : approx (mul s r) (toR s * toR r)) by (apply mul_nonneg_correct; [assumption .. | lra]).
  pose proof (approx_error _ _ Hw) as Ew. destruct Hw as [Hwf _].
  pose proof (Rabs_le_inv _ _ Ew) as Ew'.
  destruct (roundToTwoDecimals_wide (mul s r) Hwf ltac:(lra)) as (K & HK0 & [Htf _] & EK & Et).
  pose proof (Rabs_le_inv _ _ EK) as EK'. pose proof (Rabs_le_inv _ _ Et) as Et'.
  pose proof (toR_nonneg _ Htf) as Ht0.
  (* total before rounding to cents *)
  assert (Ha : approx (add s (roundToTwoDecimals (mul s r)))
                      (toR s + toR (roundToTwoDecimals (mul s r))))
    by (apply add_nonneg_correct; [assumption .. | lra]).
  pose proof (approx_error _ _ Ha) as Ea. destruct Ha as [Haf _].
  pose proof (Rabs_le_inv _ _ Ea) as Ea'.
  destruct (roundToTwoDecimals_wide _ Haf ltac:(lra)) as (N & HN0 & [HTf _] & EN & ET).
  pose proof (Rabs_le_inv _ _ EN) as EN'. pose proof (Rabs_le_inv _ _ ET) as ET'.
  pose proof (toR_nonneg _ HTf) as HT0.
  (* the price before tax of the total *)
  unfold calculatePriceBeforeVat. simpl default.
  destruct (sanitizePrice_id _ HTf) as [HT'f ET'v].
  destruct (ofZ_pos_nonneg 1 ltac:(lia)) as [H1f E1].
  assert (Ha1 : approx (add (ofZ 1) r) (toR (ofZ 1) + toR r))
    by (apply add_nonneg_correct; [assumption .. | rewrite E1; lra]).
  rewrite E1 in Ha1.
  pose proof (approx_error _ _ Ha1) as Ea1. destruct Ha1 as [Ha1f _].
  pose proof (Rabs_le_inv _ _ Ea1) as Ea1'.
  assert (Ha1pos : 99 / 100 <= toR (add (ofZ 1) r)) by lra.
  assert (HTb : toR (roundToTwoDecimals (add s (roundToTwoDecimals (mul s r)))) <= 2000000000002) by lra.
  set (T := roundToTwoDecimals (add s (roundToTwoDecimals (mul s r)))) in *.
  set (D := toR (sanitizePrice T) / toR (add (ofZ 1) r)).
  assert (ED : D * toR (add (ofZ 1) r) = toR T) by (unfold D; rewrite ET'v; field; lra).
  assert (HD : 0 <= D <= 2050000000000).
  { pose proof (quot_nonneg _ _ _ ED ltac:(lra) ltac:(lra)) as HD0.
    pose proof (scaled_bound _ _ _ (99 / 100) 2000000000002 ED ltac:(lra) ltac:(lra) ltac:(lra)) as HX.
    lra. }
  assert (Hd : approx (div (sanitizePrice T) (add (ofZ 1) r)) D).
  { apply div_nonneg_correct; [assumption .. | lra | fold D; lra]. }
  pose proof (approx_error _ _ Hd) as Ed. destruct Hd as [Hdf _].
  pose proof (Rabs_le_inv _ _ Ed) as Ed'.
  destruct (roundToTwoDecimals_wide _ Hdf ltac:(lra)) as (M & HM0 & [Hbf _] & EM & Eb).
  pose proof (toR_nonneg _ Hbf) as Hb0.
  set (b := roundToTwoDecimals (div (sanitizePrice T) (add (ofZ 1) r))) in *.
  assert (Hm : approx (mul b (add (ofZ 1) r)) (toR b * toR (add (ofZ 1) r))).
  { apply mul_nonneg_correct; [assumption .. |].
    apply Rabs_le_inv in EM. apply Rabs_le_inv in Eb.
    pose proof (prod_bound (toR b) (toR (add (ofZ 1) r)) 2100000000000 3
                  ltac:(lra) ltac:(lra)).
    lra. }
  pose proof (approx_error _ _ Hm) as Em. destruct Hm as [Hmf _].
  destruct (roundtrip_real (toR s) (toR r) _ _ _ _ _ D _ _ _ S K N M
              (conj Hr0 Hrb) (conj Hs0 Hsb) HT0 Hb0 Es Ew EK Et Ea EN ET Ea1 ED Ed EM Eb Em)
    as (H1 & H2 & H3 & H4).
  split; [exact Htf|]. split; [exact HTf|]. split; [exact Hbf|].
  split; [exact H1|]. split; [exact H2|]. split; [exact Haf|]. split; [exact H3|].
  split; [exact Hmf | exact H4].
Qed.

End RoundTrip.

Lemma pow2_neg (k : positive) : powerRZ 2 (Zneg k) = (/ IZR (2 ^ Zpos k))%R.
Proof.
  change (Zneg k) with (0 - Zpos k). rewrite bpow_inv, (bpow_IZR (Zpos k)) by lia.
  change (powerRZ 2 0) with 1%R. unfold Rdiv. rewrite Rmult_1_l. reflexivity.
Qed.

Section Comparisons.
Local Open Scope R_scope.

(** [x <= y] holds in binary64 when the value of [x] is below that of a
    positive finite [y]. *)
Lemma leb_of_lt (x : number) (my : positive) (ey : Z) :
  fin_nonneg x -> bounded prec emax my ey = true ->
  toR x < toR (S754_finite false my ey) ->
  SFleb x (S754_finite false my ey) = true.
Proof.
  intros [[sg ->] | (m & e & -> & B)] By H.
  - reflexivity.
  - unfold SFleb. simpl SFcompare.
    destruct (bounded_digits _ _ B) as (Hd & He & Hc).
    destruct (bounded_digits _ _ By) as (Hdy & Hey & Hcy).
    destruct (Zdigits2_bounds (Zpos m) ltac:(lia)) as [Hl Hu]. simpl Zdigits2 in Hl, Hu.
    destruct (Zdigits2_bounds (Zpos my) ltac:(lia)) as [Hly Huy]. simpl Zdigits2 in Hly, Huy.
    simpl toR in H. pose proof (bpow_pos e) as Pe. pose proof (bpow_pos ey) as Pey.
    destruct (Z.compare_spec e ey) as [E | E | E]; [ | reflexivity | exfalso ].
    + subst e. change (Pos.compare_cont Eq m my) with (m ?= my)%positive.
      destruct (Pos.compare_spec m my) as [Ec | Ec | Ec]; try reflexivity.
      exfalso. assert (Hm : (Zpos my <= Zpos m)%Z) by lia.
      apply IZR_le in Hm. nra.
    + (* ey < e: x is normal, and y lies below its binade *)
      assert (Hd53 : Zpos (digits2_pos m) = 53%Z) by lia.
      assert (Hmy : (Zpos my < 2 ^ 53)%Z).
      { eapply Z.lt_le_trans; [exact Huy|]. apply Z.pow_le_mono_r; lia. }
      assert (Hm : (2 ^ 52 <= Zpos m)%Z).
      { rewrite Hd53 in Hl. exact Hl. }
      apply IZR_lt in Hmy. apply IZR_le in Hm.
      rewrite <- bpow_IZR in Hm, Hmy by lia.
      pose proof (bpow_le (ey + 1) e ltac:(lia)) as Hle. rewrite bpow_succ in Hle.
      replace (powerRZ 2 53) with (2 * powerRZ 2 52) in Hmy
        by (replace 53%Z with (52 + 1)%Z by lia; rewrite bpow_succ; ring).
      pose proof (bpow_pos 52).
      assert (IZR (Zpos my) * powerRZ 2 ey <= 2 * powerRZ 2 52 * powerRZ 2 ey) by nra.
      assert (powerRZ 2 52 * (2 * powerRZ 2 ey) <= IZR (Zpos m) * powerRZ 2 e) by nra.
      simpl cond_Zopp in H. lra.
Qed.

(** [Math.abs(x - y)] is the rounding of the distance of [x] and [y]. *)
Lemma abs_sub_correct (x y : number) :
  fin_nonneg x -> fin_nonneg y -> Rabs (toR x - toR y) < powerRZ 2 1023 ->
  approx (SFabs (sub x y)) (Rabs (toR x - toR y)).
Proof.
  intros [[sx ->] | (mx & ex & -> & Bx)] [[sy ->] | (my & ey & -> & By)] Hlt.
  - replace (Rabs _) with 0 by (simpl; replace (0 - 0) with 0 by ring; rewrite Rabs_R0; reflexivity).
    destruct sx, sy; apply approx_zero.
  - replace (Rabs _) with (toR (S754_finite false my ey)).
    + apply approx_exact. right. eauto.
    + pose proof (toR_pos_finite my ey). simpl (toR (S754_zero sx)).
      replace (0 - toR (S754_finite false my ey)) with (- toR (S754_finite false my ey)) by ring.
      rewrite Rabs_Ropp, Rabs_pos_eq by lra. reflexivity.
  - replace (Rabs _) with (toR (S754_finite false mx ex)).
    + apply approx_exact. right. eauto.
    + pose proof (toR_pos_finite mx ex). simpl (toR (S754_zero sy)).
      replace (toR (S754_finite false mx ex) - 0) with (toR (S754_finite false mx ex)) by ring.
      rewrite Rabs_pos_eq by lra. reflexivity.
  - unfold sub. simpl SFsub.
    destruct (shl_align mx ex (Z.min ex ey)) as [mx' ex'] eqn:Ex.
    destruct (shl_align my ey (Z.min ex ey)) as [my' ey'] eqn:Ey.
    destruct (shl_align_correct _ _ _ _ _ Ex) as [Hex Hmx].
    destruct (shl_align_correct _ _ _ _ _ Ey) as [Hey Hmy].
    simpl fst. simpl cond_Zopp.
    set (ez := Z.min ex ey) in *.
    assert (Ev : IZR (Zpos mx' - Zpos my') * powerRZ 2 ez
                 = toR (S754_finite false mx ex) - toR (S754_finite false my ey)).
    { simpl toR. rewrite minus_IZR, Hmx, Hmy, !mult_IZR.
      rewrite <- !bpow_IZR by lia.
      replace ex' with ez in * by lia. replace ey' with ez in * by lia.
      rewrite !bpow_inv. pose proof (bpow_pos ez). field. lra. }
    rewrite <- Ev in *. pose proof (bpow_pos ez) as Pz.
    destruct (Zpos mx' - Zpos my')%Z as [|p|p] eqn:Ez.
    + replace (Rabs _) with 0 by (rewrite Rmult_0_l, Rabs_R0; reflexivity).
      apply approx_zero.
    + assert (0 < IZR (Zpos p)) by (apply IZR_lt; lia).
      rewrite Rabs_pos_eq in * by nra.
      simpl binary_normalize.
      pose proof (binary_round_correct false p ez Hlt) as Hr.
      assert (Eabs : SFabs (binary_round prec emax false p ez)
                     = binary_round prec emax false p ez).
      { destruct Hr as [[Hz | (m & e & Hz & _)] _]; rewrite Hz; reflexivity. }
      rewrite Eabs. apply rounds_to_approx; exact Hr.
    + assert (0 < IZR (Zpos p)) by (apply IZR_lt; lia).
      assert (Eabs : Rabs (IZR (Zneg p) * powerRZ 2 ez) = IZR (Zpos p) * powerRZ 2 ez).
      { change (Zneg p) with (- Zpos p)%Z. rewrite opp_IZR.
        replace (- IZR (Zpos p) * powerRZ 2 ez) with (- (IZR (Zpos p) * powerRZ 2 ez)) by ring.
        rewrite Rabs_Ropp, Rabs_pos_eq by nra. reflexivity. }
      rewrite Eabs in *.
      simpl binary_normalize.
      destruct (binary_round_correct true p ez Hlt) as [Hform Herr].
      destruct Hform as [Hz | (m & e & Hz & Bz)]; rewrite Hz in *.
      * simpl SFabs. split; [left; eauto|]. simpl toR in *. rewrite Rabs_R0 in Herr.
        exact Herr.
      * simpl SFabs. split; [right; eauto|].
        rewrite toR_finite_abs in Herr.
        replace (toR (S754_finite false m e)) with (IZR (Zpos m) * powerRZ 2 e)
          by reflexivity.
        exact Herr.
Qed.

(** [Math.abs(x - y) <= c] holds in binary64 when the distance of [x]
    and [y] is clearly less than [c]. *)
Lemma abs_sub_leb (x y : number) (mc : positive) (ec : Z) (d : R) :
  fin_nonneg x -> fin_nonneg y -> bounded prec emax mc ec = true ->
  Rabs (toR x - toR y) <= d -> d <= 1 ->
  d + 1 / 1000000000000000 < toR (S754_finite false mc ec) ->
  SFleb (SFabs (sub x y)) (S754_finite false mc ec) = true.
Proof.
  intros Hx Hy Bc Hd Hd1 Hc.
  pose proof bpow_1023_huge as Hbig.
  pose proof (Rabs_pos (toR x - toR y)) as H0.
  assert (Ha : approx (SFabs (sub x y)) (Rabs (toR x - toR y)))
    by (apply abs_sub_correct; [assumption .. | lra]).
  pose proof (approx_error _ _ Ha) as Ea. destruct Ha as [Hf _].
  apply Rabs_le_inv in Ea.
  apply leb_of_lt; [exact Hf | exact Bc |]. lra.
Qed.

End Comparisons.

Section RoundTripBound.
Local Open Scope R_scope.

(** C9 (within the range of amounts where binary64 carries cents). For
    well-formed numbers [p], [q] and a rate [r] in [0, 1], whenever the
    subtotal that [calculateVatBreakdown] computes is finite and at most
    1e12 (a million millions): subtotal, tax and total are finite, the
    total is within 0.005 of subtotal + tax, and
    [calculatePriceBeforeVat] of the total, times [1 + r], is within 0.01
    of the total; and the same two comparisons evaluated in binary64,
    [Math.abs(total - (subtotal + tax)) <= 0.005] and
    [Math.abs(total - net * (1 + r)) <= 0.01], are true. *)
Theorem vat_round_trip_bounded (p q r : number) :
  valid p = true -> valid q = true -> valid r = true ->
  isFinite r = true -> lt r pzero = false -> gt r (ofZ 1) = false ->
  let b := calculateVatBreakdown
             {| unitPriceCzk := p; quantity := q; vatRate := Some r |} in
  isFinite (subtotalCzk b) = true ->
  gt (subtotalCzk b) (ofZ 1000000000000) = false ->
  sumsUp b /\ roundTrips b /\ sumsUp64 b = true /\ roundTrips64 b = true.
Proof.
  intros Vp Vq Vr Fr Lr Gr b Fs Gs.
  pose proof (sanitizePrice_nonneg p Vp) as Hp.
  pose proof (sanitizeQuantity_nonneg q Vq) as Hq.
  pose proof (fin_nonneg_of_checks r Vr Fr Lr) as Hr.
  (* the rate is at most one *)
  assert (Hr1 : toR r <= 1).
  { destruct (ofZ_exact 1 ltac:(lia)) as (m & e & E1 & E2 & E3).
    rewrite E1 in Gr. pose proof (gt_false_le r m e Hr E2 Gr) as H.
    simpl toR in H. simpl cond_Zopp in H. rewrite E3 in H. exact H. }
  (* the subtotal is a number of cents *)
  unfold sumsUp64, roundTrips64.
  unfold b, calculateVatBreakdown in *. cbn [subtotalCzk vatAmountCzk totalCzk vatRateUsed
    unitPriceCzk quantity vatRate default] in *.
  set (v := mul (sanitizePrice p) (sanitizeQuantity q)) in *.
  set (s := roundToTwoDecimals v) in *.
  assert (Hs : exists S : Z, (0 <= S)%Z /\ approx s (IZR S / 100)).
  { destruct (mul_nonneg_total _ _ Hp Hq) as [[Hvf _] | Hinf].
    - destruct (roundToTwoDecimals_total v Hvf) as [Hinf | H]; [|exact H].
      unfold s in Fs. rewrite Hinf in Fs. discriminate.
    - unfold s, v in Fs. rewrite Hinf in Fs. discriminate. }
  destruct Hs as (S & HS0 & Hs).
  assert (Hsb : toR s <= 1000000000000).
  { destruct (ofZ_exact 1000000000000 ltac:(lia)) as (m & e & E1 & E2 & E3).
    rewrite E1 in Gs. destruct Hs as [Hsf _].
    pose proof (gt_false_le s m e Hsf E2 Gs) as H.
    simpl toR in H. simpl cond_Zopp in H. rewrite E3 in H. exact H. }
  destruct (roundtrip_analysis s r S Hs Hsb Hr Hr1)
    as (Htf & HTf & Hbf & H1 & H2 & Haf & H3 & Hmf & H4).
  split; [|split; [|split]].
  - split; [exact Fs|]. split; [apply fin_nonneg_isFinite; exact Htf|].
    split; [apply fin_nonneg_isFinite; exact HTf | exact H1].
  - unfold roundTrips. cbn [totalCzk vatRateUsed].
    split; [apply fin_nonneg_isFinite; exact Hbf|].
    split; [apply fin_nonneg_isFinite; exact HTf | exact H2].
  - change (ofDecimal false 5 (-3)) with (S754_finite false 5764607523034235 (-60)).
    apply (abs_sub_leb _ _ _ _ (1 / 1000) HTf Haf); [reflexivity | exact H3 | lra |].
    cbn [toR cond_Zopp]. rewrite pow2_neg.
    change (2 ^ 60)%Z with 1152921504606846976%Z. lra.
  - change (ofDecimal false 1 (-2)) with (S754_finite false 5764607523034235 (-59)).
    apply (abs_sub_leb _ _ _ _ (99 / 10000) HTf Hmf); [reflexivity | exact H4 | lra |].
    cbn [toR cond_Zopp]. rewrite pow2_neg.
    change (2 ^ 59)%Z with 576460752303423488%Z. lra.
Qed.

End RoundTripBound.

(** The bound applies to 333.33 x 3 at 21 %. *)
Lemma vat_round_trip_bounded_witness :
  let b := calculateVatBreakdown
             {| unitPriceCzk := price33333; quantity := ofZ 3; vatRate := Some rate21 |} in
  sumsUp b /\ roundTrips b /\ sumsUp64 b = true /\ roundTrips64 b = true.
Proof.
  apply (vat_round_trip_bounded price33333 (ofZ 3) rate21); reflexivity.
Defined.

(** C9 beyond that range.  For a unit price of 22 521 096 153 774.51 CZK,
    quantity 1 and 21 %, every figure is finite, but the total
    27 250 526 346 067.17 is one cent more than the subtotal plus the tax
    4 729 430 192 292.65, and the price before tax computed from it is
    two cents more than the subtotal: both properties fail, evaluated in
    binary64 (the differences are 0.0078125 and 0.01171875) as well as on
    the exact values.  The round trip fails already for
    6 151 755 309 121.73 CZK at 73.1 %: the price before tax of the total
    10 648 688 440 089.72 is a cent more than the subtotal, and times
    1.731 it misses the total by more than a cent, in binary64 and
    exactly.  For the largest finite price the multiplication by 100 in
    [roundToTwoDecimals] overflows: the total is [Infinity] and the price
    before tax computed from it is 0. *)
Lemma vat_round_trip_large_amounts :
  (let b := calculateVatBreakdown
              {| unitPriceCzk := price22e12; quantity := ofZ 1; vatRate := Some rate21 |} in
   inCents b 2252109615377451 472943019229265 2725052634606717 2252109615377453
   /\ sub (totalCzk b) (add (subtotalCzk b) (vatAmountCzk b)) = ofDecimal false 78125 (-7)
   /\ sumsUp64 b = false /\ roundTrips64 b = false
   /\ ~ sumsUp b /\ ~ roundTrips b)
  /\ (let b := calculateVatBreakdown
                 {| unitPriceCzk := price6e12; quantity := ofZ 1; vatRate := Some rate731 |} in
      inCents b 615175530912173 449693313096799 1064868844008972 615175530912174
      /\ roundTrips64 b = false /\ ~ roundTrips b)
  /\ (let b := calculateVatBreakdown
                 {| unitPriceCzk := MAX_VALUE; quantity := ofZ 1; vatRate := Some rate21 |} in
      (isFinite MAX_VALUE = true /\ lt MAX_VALUE pzero = false)
      /\ totalCzk b = Infinity
      /\ calculatePriceBeforeVat (totalCzk b) (Some rate21) = pzero
      /\ ~ roundTrips b).
Proof.
  split; [|split].
  - cbv zeta.
    assert (Eb : calculateVatBreakdown
                   {| unitPriceCzk := price22e12; quantity := ofZ 1; vatRate := Some rate21 |}
                 = {| subtotalCzk := S754_finite false 5765400615366275 (-8);
                      vatAmountCzk := S754_finite false 4842936516907674 (-10);
                      totalCzk := S754_finite false 6976134744593196 (-8);
                      vatRateUsed := S754_finite false 7566047373982433 (-55) |})
      by (vm_compute; reflexivity).
    rewrite Eb.
    assert (En : calculatePriceBeforeVat (S754_finite false 6976134744593196 (-8))
                   (@Some number (S754_finite false 7566047373982433 (-55)))
                 = S754_finite false 5765400615366280 (-8))
      by (vm_compute; reflexivity).
    split; [repeat split; vm_compute; reflexivity|].
    split; [vm_compute; reflexivity|].
    split; [vm_compute; reflexivity|]. split; [vm_compute; reflexivity|].
    split.
    + intros (_ & _ & _ & H). cbn [totalCzk subtotalCzk vatAmountCzk] in H.
      apply Rabs_le_inv in H. cbn [toR cond_Zopp] in H. rewrite !pow2_neg in H.
      change (2 ^ 8) with 256 in H. change (2 ^ 10) with 1024 in H. lra.
    + unfold roundTrips. cbv zeta. cbn [totalCzk vatRateUsed]. rewrite En.
      intros (_ & _ & H). apply Rabs_le_inv in H. cbn [toR cond_Zopp] in H.
      rewrite !pow2_neg in H.
      change (2 ^ 8) with 256 in H. change (2 ^ 55) with 36028797018963968 in H. lra.
  - cbv zeta.
    assert (Eb : calculateVatBreakdown
                   {| unitPriceCzk := price6e12; quantity := ofZ 1; vatRate := Some rate731 |}
                 = {| subtotalCzk := S754_finite false 6299397436540652 (-10);
                      vatAmountCzk := S754_finite false 4604859526111222 (-10);
                      totalCzk := S754_finite false 5452128481325937 (-9);
                      vatRateUsed := S754_finite false 6584262655215665 (-53) |})
      by (vm_compute; reflexivity).
    rewrite Eb.
    assert (En : calculatePriceBeforeVat (S754_finite false 5452128481325937 (-9))
                   (@Some number (S754_finite false 6584262655215665 (-53)))
                 = S754_finite false 6299397436540662 (-10))
      by (vm_compute; reflexivity).
    split; [repeat split; vm_compute; reflexivity|].
    split; [vm_compute; reflexivity|].
    unfold roundTrips. cbv zeta. cbn [totalCzk vatRateUsed]. rewrite En.
    intros (_ & _ & H). apply Rabs_le_inv in H. cbn [toR cond_Zopp] in H.
    rewrite !pow2_neg in H.
    change (2 ^ 9) with 512 in H. change (2 ^ 10) with 1024 in H.
    change (2 ^ 53) with 9007199254740992 in H. lra.
  - cbv zeta. split; [split; reflexivity|].
    split; [vm_compute; reflexivity|]. split; [vm_compute; reflexivity|].
    intros (_ & H & _). vm_compute in H. discriminate.
Qed.

(* ===================================================================== *)
(** * The VAT breakdown (C1)                                              *)
(* ===================================================================== *)

Lemma sanitizePrice_clamps (p : number) :
  isFinite p = false \/ lt p pzero = true -> sanitizePrice p = pzero.
Proof.
  intros H. unfold sanitizePrice.
  destruct H as [-> | ->]; [reflexivity | rewrite orb_true_r; reflexivity].
Qed.

Lemma sanitizeQuantity_clamps (q : number) :
  isFinite q = false \/ lt q pzero = true -> sanitizeQuantity q = pzero.
Proof.
  intros H. unfold sanitizeQuantity.
  destruct H as [-> | ->]; [reflexivity | rewrite orb_true_r; reflexivity].
Qed.

Lemma sanitizePrice_keeps (p : number) :
  valid p = true -> isFinite p = true -> lt p pzero = false ->
  isFinite (sanitizePrice p) = true /\ toR (sanitizePrice p) = toR p.
Proof.
  intros V F L. pose proof (fin_nonneg_of_checks p V F L) as H.
  destruct (sanitizePrice_id p H) as [H1 H2].
  split; [apply fin_nonneg_isFinite; exact H1 | exact H2].
Qed.

Lemma sanitizeQuantity_nearest (q : number) :
  valid q = true -> isFinite q = true -> lt q pzero = false ->
  exists z : Z,
    isFinite (sanitizeQuantity q) = true
    /\ toR (sanitizeQuantity q) = IZR z
    /\ (IZR z - 1 / 2 <= toR q < IZR z + 1 / 2)%R.
Proof.
  intros V F L. pose proof (fin_nonneg_of_checks q V F L) as H.
  destruct (round_nonneg_correct q H) as (z & _ & Hf & Ez & Hz).
  exists z. unfold sanitizeQuantity. rewrite F, L. simpl.
  destruct (max_pzero_nonneg _ Hf) as [H1 H2].
  split; [apply fin_nonneg_isFinite; exact H1|].
  split; [rewrite H2; exact Ez | exact Hz].
Qed.

(** C1. [calculateVatBreakdown] is a total function (it has no failing
    outcome) that first sanitizes its inputs - a non-finite or negative
    unit price or quantity becomes 0, any other quantity is rounded to the
    nearest integer [floor (q + 1/2)] - and then returns
    [subtotal = round2 (unitPrice * quantity)],
    [taxAmount = round2 (subtotal * taxRate)] and
    [total = round2 (subtotal + taxAmount)], each computed from the rounded
    result of the step before (for 0.125 x 1 at 21 % this differs from
    rounding once at the end), where [round2] of an amount up to 4e9 is,
    up to the last binary digits, [n / 100] for an integer [n] nearest to
    100 times the amount; 333.33 x 3 at 21 % gives 999.99, 210.00 and
    1209.99. *)
Theorem calculateVatBreakdown_spec :
  (forall p : number,
      isFinite p = false \/ lt p pzero = true -> sanitizePrice p = pzero)
  /\ (forall p : number,
        valid p = true -> isFinite p = true -> lt p pzero = false ->
        isFinite (sanitizePrice p) = true /\ toR (sanitizePrice p) = toR p)
  /\ (forall q : number,
        isFinite q = false \/ lt q pzero = true -> sanitizeQuantity q = pzero)
  /\ (forall q : number,
        valid q = true -> isFinite q = true -> lt q pzero = false ->
        exists z : Z,
          isFinite (sanitizeQuantity q) = true
          /\ toR (sanitizeQuantity q) = IZR z
          /\ (IZR z - 1 / 2 <= toR q < IZR z + 1 / 2)%R)
  /\ (forall input : VatCalculationInput,
        let b := calculateVatBreakdown input in
        let rate := default DEFAULT_VAT_RATE (vatRate input) in
        subtotalCzk b
        = roundToTwoDecimals (mul (sanitizePrice (unitPriceCzk input))
                                  (sanitizeQuantity (quantity input)))
        /\ vatAmountCzk b = roundToTwoDecimals (mul (subtotalCzk b) rate)
        /\ totalCzk b = roundToTwoDecimals (add (subtotalCzk b) (vatAmountCzk b))
        /\ vatRateUsed b = rate)
  /\ (forall v : number,
        fin_nonneg v -> (toR v <= 4000000000)%R ->
        exists n : Z,
          (0 <= n)%Z
          /\ (Rabs (IZR n - 100 * toR v) <= 1 / 2 + 1 / 10000)%R
          /\ (Rabs (toR (roundToTwoDecimals v) - IZR n / 100) <= 1 / 1000000)%R)
  /\ (let b := calculateVatBreakdown
                 {| unitPriceCzk := ofDecimal false 125 (-3);
                    quantity := ofZ 1;
                    vatRate := Some (ofDecimal false 21 (-2)) |} in
      totalCzk b = ofDecimal false 16 (-2)
      /\ roundToTwoDecimals
           (mul (mul (ofDecimal false 125 (-3)) (ofZ 1))
                (add (ofZ 1) (ofDecimal false 21 (-2))))
         = ofDecimal false 15 (-2))
  /\ calculateVatBreakdown
       {| unitPriceCzk := ofDecimal false 33333 (-2);
          quantity := ofZ 3;
          vatRate := Some (ofDecimal false 21 (-2)) |}
     = {| subtotalCzk := ofDecimal false 99999 (-2);
          vatAmountCzk := ofZ 210;
          totalCzk := ofDecimal false 120999 (-2);
          vatRateUsed := ofDecimal false 21 (-2) |}.
Proof.
  split; [exact sanitizePrice_clamps|].
  split; [exact sanitizePrice_keeps|].
  split; [exact sanitizeQuantity_clamps|].
  split; [exact sanitizeQuantity_nearest|].
  split; [intros input; cbv zeta; repeat split|].
  split.
  { intros v Hv Hb.
    destruct (roundToTwoDecimals_bounded v Hv Hb) as (n & Hn & _ & H1 & H2).
    exists n. auto. }
  split; [cbv zeta; split; vm_compute; reflexivity|].
  vm_compute. reflexivity.
Qed.

(* ===================================================================== *)
(** * Conversion from CZK (C5)                                            *)
(* ===================================================================== *)

Section Conversion.

Variable formatPrice : number -> jsstring -> jsstring.

Lemma convertOne_amount (amountCzk : number) (rates : option CnbRates)
    (c : SupportedCurrency) :
  let r := convertOne formatPrice amountCzk rates c in
  Cnb.code (fst r) = c
  /\ Cnb.amount (fst r)
     = (fun rate => roundToTwoDecimals (div amountCzk rate)) <$> usableRate rates c
  /\ snd r = bool_decide (is_Some (usableRate rates c))
  /\ (usableRate rates c = None -> Cnb.formatted (fst r) = notAvailable).
Proof.
  unfold convertOne, usableRate.
  destruct (rates ≫= (fun r => getRate r c)) as [rate|]; simpl.
  - destruct (gt rate pzero); simpl; repeat split; try reflexivity; intros; discriminate.
  - repeat split.
Qed.

(** C5. For every amount and rate table (or none), [convertFromCzk] lists
    EUR, USD and PLN in this order; a currency whose rate is present and
    strictly positive gets the amount [round2 (amount / rate)], any other
    the explicit marker [None] (which is not the amount zero) and the text
    N/A; the availability flag is true exactly when some currency
    converted.  For 1000 CZK and the table EUR 24.725, USD null, PLN 5.5
    the amounts are 40.44, unavailable and 181.82, and the flag is true. *)
Theorem convertFromCzk_spec :
  (forall (amountCzk : number) (rates : option CnbRates),
      let res := convertFromCzk formatPrice amountCzk rates in
      originalCzk res = amountCzk
      /\ map Cnb.code (conversions res) = [EUR; USD; PLN]
      /\ map Cnb.amount (conversions res)
         = map (fun c => (fun rate => roundToTwoDecimals (div amountCzk rate))
                           <$> usableRate rates c) [EUR; USD; PLN]
      /\ (forall conv, In conv (conversions res) -> Cnb.amount conv = None ->
            Cnb.formatted conv = notAvailable)
      /\ (fxAvailable res = true <->
          exists conv, In conv (conversions res) /\ Cnb.amount conv <> None))
  /\ (None <> Some pzero :> option number)
  /\ (let res := convertFromCzk formatPrice (ofZ 1000)
                   (Some {| rEUR := Some (ofDecimal false 24725 (-3));
                            rUSD := None;
                            rPLN := Some (ofDecimal false 55 (-1)) |}) in
      map Cnb.amount (conversions res)
      = [Some (ofDecimal false 4044 (-2)); None; Some (ofDecimal false 18182 (-2))]
      /\ fxAvailable res = true).
Proof.
  split; [|split; [discriminate | cbv zeta; split; vm_compute; reflexivity]].
  intros amountCzk rates. cbv zeta.
  pose proof (convertOne_amount amountCzk rates EUR) as (E1 & E2 & E3 & E4).
  pose proof (convertOne_amount amountCzk rates USD) as (U1 & U2 & U3 & U4).
  pose proof (convertOne_amount amountCzk rates PLN) as (P1 & P2 & P3 & P4).
  unfold convertFromCzk, SUPPORTED_CURRENCIES. cbn [map existsb originalCzk conversions fxAvailable].
  split; [reflexivity|].
  split; [rewrite E1, U1, P1; reflexivity|].
  split; [rewrite E2, U2, P2; reflexivity|].
  split.
  - intros conv [<- | [<- | [<- | []]]] Hnone.
    + apply E4. rewrite E2 in Hnone. destruct (usableRate rates EUR); [discriminate | reflexivity].
    + apply U4. rewrite U2 in Hnone. destruct (usableRate rates USD); [discriminate | reflexivity].
    + apply P4. rewrite P2 in Hnone. destruct (usableRate rates PLN); [discriminate | reflexivity].
  - rewrite E3, U3, P3. split.
    + intros H.
      destruct (usableRate rates EUR) as [r|] eqn:HE.
      { eexists. split; [left; reflexivity|]. rewrite E2. discriminate. }
      destruct (usableRate rates USD) as [r|] eqn:HU.
      { eexists. split; [right; left; reflexivity|]. rewrite U2. discriminate. }
      destruct (usableRate rates PLN) as [r|] eqn:HP.
      { eexists. split; [right; right; left; reflexivity|]. rewrite P2. discriminate. }
      vm_compute in H. discriminate.
    + intros (conv & [<- | [<- | [<- | []]]] & Hne).
      * rewrite E2 in Hne. destruct (usableRate rates EUR); [|contradiction]. reflexivity.
      * rewrite U2 in Hne. destruct (usableRate rates USD); [|contradiction].
        rewrite (bool_decide_eq_true_2 (is_Some (Some n))) by eauto.
        rewrite orb_true_r. reflexivity.
      * rewrite P2 in Hne. destruct (usableRate rates PLN); [|contradiction].
        rewrite (bool_decide_eq_true_2 (is_Some (Some n))) by eauto.
        rewrite !orb_true_r. reflexivity.
Qed.

End Conversion.

(* ===================================================================== *)
(** * Responses of create and get-by-id (C10)                             *)
(* ===================================================================== *)

Section Enrich.

Variable formatPrice : number -> jsstring -> jsstring.
Variable formatPriceCZK : number -> jsstring.

Local Abbreviation enrich := (OrdersService.enrichOrderWithConversions formatPrice formatPriceCZK).

Lemma enrich_conversions (network : Network) (order : OrderWithProduct) (w : Net) :
  OrderWithConversions.conversions (fst (enrich network order w))
  = map (fun c => {| CurrencyConversion.code := Cnb.code c;
                     CurrencyConversion.amount := default (ofZ 0) (Cnb.amount c);
                     CurrencyConversion.formatted := Cnb.formatted c |})
        (conversions
           (convertFromCzk formatPrice (Order.totalPriceCzk (fst order))
              (rates (fst (fetchCnbRates network w))))).
Proof.
  unfold OrdersService.enrichOrderWithConversions, fetchAndConvert.
  destruct (fetchCnbRates network w) as [r w']. reflexivity.
Qed.

Lemma enrich_unavailable (network : Network) (order : OrderWithProduct) (w : Net)
    (c : SupportedCurrency) :
  usableRate (rates (fst (fetchCnbRates network w))) c = None ->
  In {| CurrencyConversion.code := c;
        CurrencyConversion.amount := pzero;
        CurrencyConversion.formatted := notAvailable |}
     (OrderWithConversions.conversions (fst (enrich network order w))).
Proof.
  intros Hnone. rewrite enrich_conversions.
  set (tbl := rates (fst (fetchCnbRates network w))) in *.
  set (total := Order.totalPriceCzk (fst order)).
  assert (Hc : fst (convertOne formatPrice total tbl c)
               = {| Cnb.code := c; Cnb.amount := None; Cnb.formatted := notAvailable |}).
  { unfold convertOne. unfold usableRate in Hnone.
    destruct (tbl ≫= (fun r => getRate r c)) as [rate|]; [|reflexivity].
    destruct (gt rate pzero); [discriminate | reflexivity]. }
  unfold convertFromCzk, SUPPORTED_CURRENCIES. cbn [conversions map].
  destruct c; rewrite Hc; cbn; auto.
Qed.

(** C10. The responses of create-order and get-order-by-id are assembled by
    [enrichOrderWithConversions]; there every currency whose conversion is
    unavailable appears with the numeric amount 0 (the [null] marker
    replaced by [c.amount ?? 0]) and the text N/A.  A converted amount that
    is really zero has the same numeric amount: for a stored order with
    total 0 and the sample rates, EUR (converted) and USD (unavailable)
    both carry the amount 0. *)
Theorem enrich_reports_unavailable_as_zero :
  (forall faulty network input w resp w',
      OrdersService.create formatPrice formatPriceCZK faulty network input w = (Ok resp, w') ->
      exists order, resp = fst (enrich network order (net w)))
  /\ (forall readFails network id w resp w',
        OrdersService.findById formatPrice formatPriceCZK readFails network id w = (Ok resp, w') ->
        exists order, resp = fst (enrich network order (net w)))
  /\ (forall network order w c,
        usableRate (rates (fst (fetchCnbRates network w))) c = None ->
        In {| CurrencyConversion.code := c;
              CurrencyConversion.amount := pzero;
              CurrencyConversion.formatted := notAvailable |}
           (OrderWithConversions.conversions (fst (enrich network order w))))
  /\ (let network := Sample.responds 200 Sample.payload in
      let tbl := rates (fst (fetchCnbRates network Sample.quiet)) in
      usableRate tbl EUR = Some (ofDecimal false 24725 (-3))
      /\ usableRate tbl USD = None
      /\ OrderWithConversions.conversions (fst (enrich network Sample.freeOrder Sample.quiet))
         = [ {| CurrencyConversion.code := EUR;
                CurrencyConversion.amount := pzero;
                CurrencyConversion.formatted := formatPrice pzero (ofString "EUR") |};
             {| CurrencyConversion.code := USD;
                CurrencyConversion.amount := pzero;
                CurrencyConversion.formatted := notAvailable |};
             {| CurrencyConversion.code := PLN;
                CurrencyConversion.amount := pzero;
                CurrencyConversion.formatted := formatPrice pzero (ofString "PLN") |} ]).
Proof.
  split; [|split; [|split; [exact enrich_unavailable|]]].
  - intros faulty network input w resp w' H. unfold OrdersService.create in H.
    destruct (transaction faulty (OrdersService.createTx input) (db w)) as [[order|e] db'];
      [|discriminate].
    exists order.
    destruct (enrich network order (net w)) as [r n'] eqn:E.
    injection H as <- _. reflexivity.
  - intros readFails network id w resp w' H. unfold OrdersService.findById in H.
    destruct (OrdersService.findOrder readFails id (tables (db w))) as [[order|]|e];
      try discriminate.
    exists order.
    destruct (enrich network order (net w)) as [r n'] eqn:E.
    injection H as <- _. reflexivity.
  - cbv zeta. split; [vm_compute; reflexivity|]. split; [vm_compute; reflexivity|].
    rewrite enrich_conversions. vm_compute. reflexivity.
Qed.

End Enrich.

(* ===================================================================== *)
(** * Failures of the rate source (C6) and outbound requests (C8)         *)
(* ===================================================================== *)

Lemma fetchCnbRates_requests (network : Network) (w : Net) :
  requests (snd (fetchCnbRates network w)) = CNB_API_URL :: requests w.
Proof.
  unfold fetchCnbRates.
  destruct (awaitFetch _) as [e|[status body]]; [reflexivity|].
  destruct (negb (ok status)); [reflexivity|].
  destruct body; reflexivity.
Qed.

(** A table that was fetched carries the time at which the call ended. *)
Lemma fetchCnbRates_fetchedAt (network : Network) (w : Net) :
  success (fst (fetchCnbRates network w)) = true ->
  fetchedAt (fst (fetchCnbRates network w)) = Some (clock (snd (fetchCnbRates network w))).
Proof.
  unfold fetchCnbRates.
  destruct (awaitFetch _) as [e|[status body]]; [discriminate|].
  destruct (negb (ok status)); [discriminate|].
  destruct body; [reflexivity | discriminate].
Qed.

(** The abort timer does not cover the body: a response that arrives
    after 100 ms and whose body takes 30 s to read is accepted, 30.1 s
    after the call. *)
Lemma slow_body_is_not_aborted :
  let network : Network :=
    fun _ => {| latencyMs := 100; bodyMs := 30000;
                behaviour := Responds 200 (BodyText Sample.payload) |} in
  success (fst (fetchCnbRates network Sample.quiet)) = true
  /\ (clock (snd (fetchCnbRates network Sample.quiet)) - clock Sample.quiet = 30100)%N.
Proof. split; vm_compute; reflexivity. Qed.

Lemma fetchCnbRates_failure_or_parse (network : Network) (w : Net) :
  (exists msg, fst (fetchCnbRates network w) = failed msg)
  \/ (exists text,
        success (fst (fetchCnbRates network w)) = true
        /\ rates (fst (fetchCnbRates network w)) = Some (parseRatesText text)
        /\ Cnb.error (fst (fetchCnbRates network w)) = None).
Proof.
  unfold fetchCnbRates.
  destruct (awaitFetch _) as [e|[status body]]; [left; eexists; reflexivity|].
  destruct (negb (ok status)); [left; eexists; reflexivity|].
  destruct body as [text|e]; [|left; eexists; reflexivity].
  right. exists text. cbn. auto.
Qed.

Section Failures.

Variable formatPrice : number -> jsstring -> jsstring.
Variable formatPriceCZK : number -> jsstring.

Lemma convertFromCzk_null (amountCzk : number) :
  convertFromCzk formatPrice amountCzk None
  = {| originalCzk := amountCzk; fxAvailable := false; conversions := allUnavailable |}.
Proof. reflexivity. Qed.

Lemma getSummary_found (readFails : bool) (network : Network) (id : Z) (w : World)
    (o : OrderBasic.t) :
  OrdersService.findByIdBasic readFails id (tables (db w)) = Ok o ->
  let r := fst (fetchCnbRates network (net w)) in
  exists s w',
    OrdersController.getSummary formatPrice formatPriceCZK readFails network id w = (Ok s, w')
    /\ OrdersController.subtotalCzk (OrdersController.czk s) = OrderBasic.subtotalCzk o
    /\ OrdersController.vatAmountCzk (OrdersController.czk s) = OrderBasic.vatAmountCzk o
    /\ OrdersController.vatRate (OrdersController.czk s) = OrderBasic.vatRate o
    /\ OrdersController.totalCzk (OrdersController.czk s) = OrderBasic.totalPriceCzk o
    /\ OrdersController.error (OrdersController.fx s)
       = (if success r then None else Cnb.error r)
    /\ OrdersController.available (OrdersController.fx s)
       = fxAvailable (convertFromCzk formatPrice (OrderBasic.totalPriceCzk o) (rates r))
    /\ OrdersController.conversions (OrdersController.fx s)
       = conversions (convertFromCzk formatPrice (OrderBasic.totalPriceCzk o) (rates r)).
Proof.
  intros Hfound r. unfold OrdersController.getSummary. rewrite Hfound.
  subst r. destruct (fetchCnbRates network (net w)) as [r n'].
  eexists; eexists. split; [reflexivity|]. cbn. repeat split; reflexivity.
Qed.


End Failures.


(** C8. The code keeps no rate table between calls: every call of
    [fetchCnbRates], and so every [fetchAndConvert], sends one request to
    the CNB address, whatever the state it is called in.  Two reads in a
    row send two requests, although the second begins at the very moment
    the first table was fetched ([fetchedAt]), when that table is 0 ms
    old; so does a read against the sample endpoint directly after a
    successful one. *)
Theorem every_rate_read_sends_a_request :
  (forall network w,
      requests (snd (fetchCnbRates network w)) = CNB_API_URL :: requests w)
  /\ (forall formatPrice network amountCzk w,
        requests (snd (fetchAndConvert formatPrice network amountCzk w))
        = CNB_API_URL :: requests w)
  /\ (forall network w,
        let first := fetchCnbRates network w in
        let second := fetchCnbRates network (snd first) in
        requests (snd second) = CNB_API_URL :: CNB_API_URL :: requests w
        /\ (success (fst first) = true ->
            fetchedAt (fst first) = Some (clock (snd first))))
  /\ (let network := Sample.responds 200 Sample.payload in
      let first := fetchCnbRates network Sample.quiet in
      let second := fetchCnbRates network (snd first) in
      success (fst first) = true
      /\ fetchedAt (fst first) = Some (clock (snd first))
      /\ success (fst second) = true
      /\ (clock (snd second) - clock (snd first) = 120)%N
      /\ requests (snd second) = [CNB_API_URL; CNB_API_URL]).
Proof.
  split; [exact fetchCnbRates_requests|].
  split; [|split].
  - intros fp network amountCzk w. unfold fetchAndConvert.
    pose proof (fetchCnbRates_requests network w) as H.
    destruct (fetchCnbRates network w) as [r w']. exact H.
  - intros network w first second. subst first second. split.
    + rewrite !fetchCnbRates_requests. reflexivity.
    + apply fetchCnbRates_fetchedAt.
  - cbv zeta. repeat split; vm_compute; reflexivity.
Qed.

(* ===================================================================== *)
(** * The rate table of a payload (C7)                                    *)
(* ===================================================================== *)

(* ===================================================================== *)
(** ** Strings                                                            *)
(* ===================================================================== *)

Lemma split_nonempty (sep : N) (s : jsstring) : split sep s <> [].
Proof.
  induction s as [|ch s IH]; cbn; [discriminate|].
  destruct (N.eqb ch sep); [discriminate|].
  destruct (split sep s); [contradiction|discriminate].
Qed.

Lemma split_one (sep : N) (s x : jsstring) : split sep s = [x] -> s = x.
Proof.
  revert x. induction s as [|c s IH]; intros x H.
  - cbn in H. congruence.
  - cbn [split] in H. destruct (c =? sep)%N.
    + injection H as <- H. exfalso. exact (split_nonempty sep s H).
    + destruct (split sep s) as [|w ws] eqn:E; [exfalso; exact (split_nonempty sep s E)|].
      injection H as <- ->. f_equal. apply IH. reflexivity.
Qed.

Lemma split_two (sep : N) (s a b : jsstring) :
  split sep s = [a; b] -> s = a ++ sep :: b.
Proof.
  revert a. induction s as [|c s IH]; intros a H.
  - cbn in H. discriminate.
  - cbn [split] in H. destruct (c =? sep)%N eqn:Ec.
    + injection H as <- H. apply N.eqb_eq in Ec. subst c.
      cbn. f_equal. exact (split_one sep s b H).
    + destruct (split sep s) as [|w ws] eqn:E; [exfalso; exact (split_nonempty sep s E)|].
      injection H as <- ->. cbn. f_equal. apply IH. reflexivity.
Qed.

Lemma digit_not_space (c : N) : decimalDigit c = true -> isWhiteSpace c = false.
Proof.
  unfold decimalDigit. rewrite andb_true_iff, !N.leb_le. intros [H1 H2].
  assert (H : (c = 48 \/ c = 49 \/ c = 50 \/ c = 51 \/ c = 52 \/ c = 53 \/ c = 54
               \/ c = 55 \/ c = 56 \/ c = 57)%N) by lia.
  repeat (destruct H as [-> | H]; [reflexivity|]). subst c. reflexivity.
Qed.

Lemma trimStart_noLeadingSpace (s : jsstring) : noLeadingSpace (trimStart s).
Proof.
  induction s as [|c s IH]; [exact I|].
  cbn [trimStart]. destruct (isWhiteSpace c) eqn:E; [exact IH | exact E].
Qed.

Lemma trimStart_fixed (s : jsstring) : noLeadingSpace s -> trimStart s = s.
Proof. destruct s as [|c s]; [reflexivity|]. cbn. intros ->. reflexivity. Qed.

Lemma trimStart_snoc (l : jsstring) (c : N) :
  isWhiteSpace c = false -> exists l', trimStart (l ++ [c]) = l' ++ [c].
Proof.
  intros Hc. induction l as [|d l IH].
  - exists []. cbn. rewrite Hc. reflexivity.
  - cbn [app trimStart]. destruct (isWhiteSpace d); [exact IH|].
    exists (d :: l). reflexivity.
Qed.

Lemma trim_noLeadingSpace (s : jsstring) : noLeadingSpace (trim s).
Proof.
  unfold trim, trimEnd.
  pose proof (trimStart_noLeadingSpace s) as H.
  destruct (trimStart s) as [|c t]; [exact I|].
  cbn in H. cbn [rev].
  destruct (trimStart_snoc (rev t) c H) as (l' & ->).
  rewrite rev_app_distr. cbn. exact H.
Qed.

Lemma replaceFirst_noLeadingSpace (s : jsstring) :
  noLeadingSpace s -> noLeadingSpace (replaceFirst 44 46 s).
Proof.
  destruct s as [|c s]; [auto|]. cbn. intros H.
  destruct (c =? 44)%N; [reflexivity | exact H].
Qed.

(* ===================================================================== *)
(** ** What [parseInt] and [parseFloat] read                              *)
(* ===================================================================== *)

Lemma takeDigits_stop (s : jsstring) : endsInteger s = true -> takeDigits s = ([], s).
Proof.
  destruct s as [|c r]; [reflexivity|]. cbn [endsInteger takeDigits]. unfold decimalDigit.
  destruct ((48 <=? c)%N && (c <=? 57)%N); [discriminate | reflexivity].
Qed.

Lemma takeDigits_app (ds rest : jsstring) :
  forallb decimalDigit ds = true -> endsInteger rest = true ->
  takeDigits (ds ++ rest) = (map (fun c => (c - 48)%N) ds, rest).
Proof.
  intros Hds Hrest. induction ds as [|c ds IH].
  - apply takeDigits_stop. exact Hrest.
  - cbn [forallb] in Hds. apply andb_true_iff in Hds. destruct Hds as [Hc Hds].
    cbn [app takeDigits map]. unfold decimalDigit in Hc. rewrite Hc, (IH Hds). reflexivity.
Qed.

Lemma digitsValue_map (ds : jsstring) :
  digitsValue (map (fun c => (c - 48)%N) ds) = numeralValue ds.
Proof.
  unfold digitsValue, numeralValue. generalize 0%N.
  induction ds as [|c ds IH]; intros acc; [reflexivity|]. cbn. apply IH.
Qed.

Lemma allDigits_inv (s : jsstring) :
  allDigits s = true ->
  exists c r, s = c :: r /\ decimalDigit c = true /\ forallb decimalDigit s = true.
Proof.
  destruct s as [|c r]; [discriminate|]. intros H. exists c, r.
  split; [reflexivity|]. cbn [allDigits] in H. split; [|exact H].
  cbn [forallb] in H. apply andb_true_iff in H. tauto.
Qed.

(** The sign is taken off as the description has it. *)
Lemma takeSign_unsigned (s : jsstring) : takeSign s = unsigned s.
Proof. reflexivity. Qed.

Lemma unsigned_other (c : N) (r : jsstring) :
  c <> 45%N -> c <> 43%N -> unsigned (c :: r) = (false, c :: r).
Proof.
  intros H1 H2. destruct c as [|p]; [reflexivity|].
  repeat match goal with
         | q : positive |- _ => destruct q as [q|q|]; try reflexivity
         end; congruence.
Qed.

Lemma digit_codes (c : N) :
  decimalDigit c = true ->
  c <> 45%N /\ c <> 43%N /\ c <> 46%N /\ c <> 73%N /\ c <> 101%N /\ c <> 69%N.
Proof.
  unfold decimalDigit. rewrite andb_true_iff, !N.leb_le. lia.
Qed.

Lemma unsigned_app (s rest : jsstring) :
  s <> [] -> unsigned (s ++ rest) = (fst (unsigned s), snd (unsigned s) ++ rest).
Proof.
  destruct s as [|c r]; [contradiction|]. intros _.
  destruct (N.eq_dec c 45%N) as [-> | H1]; [reflexivity|].
  destruct (N.eq_dec c 43%N) as [-> | H2]; [reflexivity|].
  cbn [app]. rewrite !unsigned_other by assumption. reflexivity.
Qed.

Lemma unsigned_noLeadingSpace (s : jsstring) :
  (match snd (unsigned s) with c :: _ => decimalDigit c = true | [] => False end) ->
  noLeadingSpace s.
Proof.
  destruct s as [|c r]; [exact (fun _ => I)|].
  destruct (N.eq_dec c 45%N) as [-> | H1]; [reflexivity|].
  destruct (N.eq_dec c 43%N) as [-> | H2]; [reflexivity|].
  rewrite unsigned_other by assumption. cbn. apply digit_not_space.
Qed.

Lemma no_point (s : jsstring) :
  match s with c :: _ => c <> 46%N | [] => True end ->
  match s with
  | 46%N :: r => takeDigits r
  | _ => ([], s)
  end = ([], s).
Proof.
  destruct s as [|c r]; [reflexivity|]. intros H.
  destruct c as [|p]; [reflexivity|].
  repeat match goal with
         | q : positive |- _ => destruct q as [q|q|]; try reflexivity
         end; congruence.
Qed.

Lemma startsWith_Infinity_digit (c : N) (r : jsstring) :
  c <> 73%N -> startsWith (ofString "Infinity") (c :: r) = false.
Proof.
  intros H. apply N.eqb_neq in H. rewrite N.eqb_sym in H.
  change (startsWith (ofString "Infinity") (c :: r))
    with ((73 =? c)%N && startsWith (ofString "nfinity") r).
  rewrite H. reflexivity.
Qed.

(** The shape of a numeral. *)
Lemma readNumeral_inv (s : jsstring) (n : Numeral) :
  readNumeral s = Some n ->
  exists whole fraction,
    allDigits whole = true
    /\ negative n = fst (unsigned s)
    /\ mantissa n = numeralValue (whole ++ fraction)
    /\ decimals n = length fraction
    /\ forallb decimalDigit fraction = true
    /\ (snd (unsigned s) = whole /\ fraction = []
        \/ snd (unsigned s) = whole ++ 46%N :: fraction /\ fraction <> []).
Proof.
  unfold readNumeral. destruct (unsigned s) as [neg body]. cbn [fst snd].
  destruct (split 46 body) as [|whole [|fraction [|x rest]]] eqn:E; try discriminate.
  - destruct (allDigits whole) eqn:Hw; [|discriminate].
    intros H. injection H as <-. exists whole, []. cbn. rewrite app_nil_r.
    repeat split; try reflexivity; try assumption.
    left. split; [|reflexivity]. exact (split_one 46 body whole E).
  - destruct (allDigits whole) eqn:Hw; [|discriminate].
    destruct (allDigits fraction) eqn:Hf; [|discriminate].
    intros H. injection H as <-. exists whole, fraction. cbn.
    destruct (allDigits_inv _ Hf) as (c & r & Ef & _ & Hall).
    repeat split; try reflexivity; try assumption.
    right. split; [exact (split_two 46 body whole fraction E)|].
    rewrite Ef. discriminate.
Qed.

Lemma readNumeral_begins (s : jsstring) (n : Numeral) :
  readNumeral s = Some n ->
  s <> [] /\ noLeadingSpace s /\ beginsWithDigit s = true /\ beginsLikeNumber s = true.
Proof.
  intros H. destruct (readNumeral_inv s n H) as (whole & fraction & Hw & _ & _ & _ & _ & Hs).
  destruct (allDigits_inv _ Hw) as (c & r & -> & Hc & _).
  assert (Hb : exists t, snd (unsigned s) = c :: t).
  { destruct Hs as [[-> _] | [-> _]]; eexists; reflexivity. }
  destruct Hb as (t & Hb).
  split; [|split; [|split]].
  - intros ->. discriminate Hb.
  - apply unsigned_noLeadingSpace. rewrite Hb. exact Hc.
  - unfold beginsWithDigit. rewrite Hb. exact Hc.
  - unfold beginsLikeNumber. cbv zeta. rewrite Hb, Hc. apply orb_true_r.
Qed.

(** [parseInt] reads the digits that follow the sign, up to the first
    character that is no digit. *)
Lemma parseInt_leading (s whole rest : jsstring) :
  snd (unsigned s) = whole ++ rest -> allDigits whole = true ->
  endsInteger rest = true ->
  parseInt s = ofDecimal (fst (unsigned s)) (numeralValue whole) 0.
Proof.
  intros Hbody Hw Hrest.
  destruct (allDigits_inv _ Hw) as (c & r & Ew & Hc & Hall).
  assert (Hsp : noLeadingSpace s).
  { apply unsigned_noLeadingSpace. rewrite Hbody, Ew. exact Hc. }
  unfold parseInt. rewrite (trimStart_fixed s Hsp), takeSign_unsigned.
  destruct (unsigned s) as [neg body]. cbn [fst snd] in *. subst body.
  rewrite (takeDigits_app whole rest Hall Hrest), <- digitsValue_map.
  rewrite Ew. reflexivity.
Qed.

(** [parseInt] reads an integer numeral, and ignores what follows it. *)
Lemma parseInt_integer (s rest : jsstring) (n : Numeral) :
  readNumeral s = Some n -> decimals n = 0%nat -> endsInteger rest = true ->
  parseInt (s ++ rest) = numberOf n.
Proof.
  intros H Hd Hrest.
  destruct (readNumeral_begins s n H) as (Hne & _ & _ & _).
  destruct (readNumeral_inv s n H) as (whole & fraction & Hw & Hneg & Hm & Hdec & _ & Hs).
  assert (fraction = []) by (destruct fraction; [reflexivity | rewrite Hd in Hdec; discriminate]).
  subst fraction. rewrite app_nil_r in Hm.
  destruct Hs as [[Hbody _] | [_ C]]; [|contradiction].
  rewrite (parseInt_leading (s ++ rest) whole rest);
    [ | rewrite (unsigned_app s rest Hne), Hbody; reflexivity | exact Hw | exact Hrest].
  rewrite (unsigned_app s rest Hne). unfold numberOf. rewrite Hd, Hm, Hneg. reflexivity.
Qed.

(** [parseFloat] reads a decimal numeral, and ignores what follows it. *)
Lemma parseFloat_decimal (s rest : jsstring) (n : Numeral) :
  readNumeral s = Some n -> endsDecimal rest = true ->
  parseFloat (s ++ rest) = numberOf n.
Proof.
  intros H Hrest.
  destruct (readNumeral_begins s n H) as (Hne & Hsp & _ & _).
  destruct (readNumeral_inv s n H)
    as (whole & fraction & Hw & Hneg & Hm & Hdec & Hfd & Hs).
  destruct (allDigits_inv _ Hw) as (c & r & Ew & Hc & Hall).
  destruct (digit_codes c Hc) as (_ & _ & _ & HI & _ & _).
  assert (HrestI : endsInteger rest = true).
  { destruct rest as [|d t]; [reflexivity|]. cbn in *.
    destruct (decimalDigit d); [discriminate | reflexivity]. }
  assert (Hexp : match rest with
                 | d :: t =>
                     if ((d =? 101) || (d =? 69))%N then
                       let '(eneg, r1) := takeSign t in
                       let '(eds, _) := takeDigits r1 in
                       match eds with
                       | [] => 0
                       | _ => cond_Zopp eneg (Z.of_N (digitsValue eds))
                       end
                     else 0
                 | [] => 0
                 end = 0).
  { destruct rest as [|d t]; [reflexivity|]. cbn in Hrest.
    destruct (decimalDigit d); [discriminate|]. destruct (d =? 46)%N; [discriminate|].
    cbn in Hrest. destruct ((d =? 101)%N || (d =? 69)%N); [discriminate | reflexivity]. }
  assert (Hnp : match rest with d :: _ => d <> 46%N | [] => True end).
  { destruct rest as [|d t]; [exact I|]. cbn in Hrest.
    destruct (decimalDigit d); [discriminate|].
    destruct (N.eqb_spec d 46%N); [discriminate | assumption]. }
  assert (Hcons : forall t, map (fun c => (c - 48)%N) whole ++ t
                            = (c - 48)%N :: (map (fun c => (c - 48)%N) r ++ t)).
  { intros t. rewrite Ew. reflexivity. }
  unfold parseFloat.
  rewrite trimStart_fixed by (destruct s; [contradiction | exact Hsp]).
  rewrite takeSign_unsigned, (unsigned_app s rest Hne).
  unfold numberOf. rewrite Hm, Hdec, <- Hneg.
  destruct Hs as [[Hbody ->] | [Hbody Hfne]].
  - rewrite Hbody.
    assert (EI : startsWith (ofString "Infinity") (whole ++ rest) = false).
    { rewrite Ew. exact (startsWith_Infinity_digit c (r ++ rest) HI). }
    rewrite EI, (takeDigits_app whole rest Hall HrestI), (no_point rest Hnp).
    rewrite Hexp, !app_nil_r, <- digitsValue_map.
    rewrite <- (app_nil_r (map _ whole)), Hcons. reflexivity.
  - rewrite Hbody, <- app_assoc.
    assert (EI : startsWith (ofString "Infinity") (whole ++ (46%N :: fraction) ++ rest)
                 = false).
    { rewrite Ew. exact (startsWith_Infinity_digit c _ HI). }
    rewrite EI.
    rewrite (takeDigits_app whole ((46%N :: fraction) ++ rest) Hall eq_refl).
    cbn [app].
    rewrite (takeDigits_app fraction rest Hfd HrestI).
    rewrite Hexp, <- digitsValue_map, map_app, length_map, Hcons. reflexivity.
Qed.

(** A field that does not begin with a number is read as [NaN]. *)
Lemma parseInt_nan (s : jsstring) :
  noLeadingSpace s -> beginsWithDigit s = false -> parseInt s = NaN.
Proof.
  intros Hsp Hb. unfold parseInt. rewrite (trimStart_fixed s Hsp), takeSign_unsigned.
  unfold beginsWithDigit in Hb. destruct (unsigned s) as [neg body]. cbn [snd] in Hb.
  rewrite takeDigits_stop; [reflexivity|].
  destruct body as [|c r]; [reflexivity|]. cbn. rewrite Hb. reflexivity.
Qed.

Lemma parseFloat_nan (s : jsstring) :
  noLeadingSpace s -> beginsLikeNumber s = false -> parseFloat s = NaN.
Proof.
  intros Hsp Hb. unfold parseFloat. rewrite (trimStart_fixed s Hsp), takeSign_unsigned.
  unfold beginsLikeNumber in Hb. cbv zeta in Hb.
  destruct (unsigned s) as [neg body]. cbn [snd] in Hb.
  apply orb_false_iff in Hb. destruct Hb as [HI Hb]. rewrite HI.
  destruct body as [|c r]; [reflexivity|].
  apply orb_false_iff in Hb. destruct Hb as [Hc Hp].
  rewrite (takeDigits_stop (c :: r)) by (cbn; rewrite Hc; reflexivity).
  destruct (N.eqb_spec c 46%N) as [-> | Hne].
  - cbn [andb] in Hp.
    rewrite (takeDigits_stop r)
      by (destruct r as [|d t]; [reflexivity | cbn; rewrite Hp; reflexivity]).
    reflexivity.
  - rewrite (no_point (c :: r) Hne). reflexivity.
Qed.

(* ===================================================================== *)
(** ** The numbers of numerals                                            *)
(* ===================================================================== *)

Section Numbers.
Local Open Scope R_scope.

Lemma binary_round_total (s : bool) (m : positive) (e : Z) :
  roundedOrInfinite s (IZR (Zpos m) * powerRZ 2 e) (binary_round prec emax s m e).
Proof.
  unfold binary_round.
  destruct (shl_align m e (fexp prec emax (Zpos (digits2_pos m) + e))) as [mz ez] eqn:E.
  destruct (shl_align_correct _ _ _ _ _ E) as [Hez Hmz].
  assert (Hk : (0 <= e - ez)%Z) by lia.
  destruct (binary_round_aux_total s (Zpos mz) ez loc_Exact (IZR (Zpos m) * powerRZ 2 e))
    as [H | [H _]]; [ | | left; exact H | right; exact H].
  - apply locates_of_loc_exact; [lia|].
    rewrite Hmz, mult_IZR, <- bpow_IZR by lia.
    rewrite bpow_inv. pose proof (bpow_pos e). pose proof (bpow_pos ez). field. lra.
  - rewrite Hmz, Zdigits2_shift by lia. simpl Zdigits2.
    replace (Zpos (digits2_pos m) + (e - ez) + ez)%Z with (Zpos (digits2_pos m) + e)%Z by lia.
    lia.
Qed.

Lemma ofRatio_total (s : bool) (n d : positive) :
  roundedOrInfinite s (IZR (Zpos n) / IZR (Zpos d)) (ofRatio s n d).
Proof.
  unfold ofRatio.
  destruct (SFdiv_core_binary prec emax (Zpos n) 0 (Zpos d) 0) as [[q e'] l] eqn:E.
  destruct (div_core_correct n d 0 0 q e' l E) as [Hloc Hn].
  simpl powerRZ in Hloc. rewrite !Rmult_1_r in Hloc.
  destruct (binary_round_aux_total s q e' l _ Hloc Hn) as [H | [H _]];
    [left; exact H | right; exact H].
Qed.

Lemma roundedOrInfinite_not_nan (s : bool) (x : R) (r : number) :
  roundedOrInfinite s x r -> isNaN r = false.
Proof.
  intros [[[-> | (m & e & -> & _)] _] | ->]; reflexivity.
Qed.

Lemma roundedOrInfinite_not_zero (s : bool) (x : R) (r : number) :
  1 <= x -> roundedOrInfinite s x r -> strictEq r pzero = false.
Proof.
  intros Hx [[[-> | (m & e & -> & _)] Herr] | ->].
  - exfalso. cbn [toR] in Herr. rewrite Rabs_R0 in Herr.
    apply Rabs_le_inv in Herr.
    pose proof u64_val as Hu. pose proof eta64_small as He. unfold u64, eta64 in *.
    rewrite Hu in Herr. lra.
  - destruct s; reflexivity.
  - destruct s; reflexivity.
Qed.

Lemma ofDecimal_not_nan (s : bool) (m : N) (e10 : Z) : isNaN (ofDecimal s m e10) = false.
Proof.
  destruct m as [|p]; [reflexivity|]. destruct e10 as [|k|k]; cbn [ofDecimal].
  - exact (roundedOrInfinite_not_nan _ _ _ (binary_round_total s p 0)).
  - exact (roundedOrInfinite_not_nan _ _ _ (binary_round_total s (p * 10 ^ k) 0)).
  - exact (roundedOrInfinite_not_nan _ _ _ (ofRatio_total s p (10 ^ k))).
Qed.

Lemma ofDecimal_integer_zero (s : bool) (m : N) :
  strictEq (ofDecimal s m 0) pzero = (m =? 0)%N.
Proof.
  destruct m as [|p]; [destruct s; reflexivity|]. cbn [ofDecimal N.eqb].
  apply (roundedOrInfinite_not_zero s (IZR (Zpos p) * powerRZ 2 0));
    [|exact (binary_round_total s p 0)].
  cbn [powerRZ]. rewrite Rmult_1_r. apply IZR_le. lia.
Qed.

End Numbers.

Lemma numberOf_not_nan (n : Numeral) : isNaN (numberOf n) = false.
Proof. apply ofDecimal_not_nan. Qed.

Lemma numberOf_integer_zero (n : Numeral) :
  decimals n = 0%nat -> strictEq (numberOf n) pzero = (mantissa n =? 0)%N.
Proof. intros H. unfold numberOf. rewrite H. apply ofDecimal_integer_zero. Qed.

Lemma numeralValue_snoc (acc : N) (s : jsstring) :
  fold_left (fun acc c => (10 * acc + (c - 48))%N) s acc = 0%N -> acc = 0%N.
Proof.
  revert acc. induction s as [|c s IH]; intros acc H; [exact H|].
  cbn [fold_left] in H. apply IH in H. lia.
Qed.

Lemma numeralValue_app_zero (a b : jsstring) :
  numeralValue (a ++ b) = 0%N -> numeralValue a = 0%N.
Proof.
  unfold numeralValue. rewrite fold_left_app. apply numeralValue_snoc.
Qed.

(* ===================================================================== *)
(** ** Rows                                                               *)
(* ===================================================================== *)

(** A numeral of value zero as the amount: [parseInt] reads 0. *)
Lemma parseInt_zero (s : jsstring) (n : Numeral) :
  readNumeral s = Some n -> mantissa n = 0%N -> strictEq (parseInt s) pzero = true.
Proof.
  intros H Hz.
  destruct (readNumeral_inv s n H)
    as (whole & fraction & Hw & Hneg & Hm & Hdec & Hfd & Hs).
  rewrite Hz in Hm. symmetry in Hm. apply numeralValue_app_zero in Hm.
  assert (Hrest : exists rest, snd (unsigned s) = whole ++ rest /\ endsInteger rest = true).
  { destruct Hs as [[-> ->] | [-> _]].
    - exists []. rewrite app_nil_r. auto.
    - exists (46%N :: fraction). auto. }
  destruct Hrest as (rest & Hbody & Hrest).
  rewrite (parseInt_leading s whole rest Hbody Hw Hrest), Hm.
  apply ofDecimal_integer_zero.
Qed.

Lemma parseLine_short (rates : CnbRates) (line : jsstring) :
  (length (split 124 line) < 5)%nat -> parseLine rates line = rates.
Proof.
  intros H. unfold parseLine. destruct line as [|ch line]; [reflexivity|].
  apply Nat.ltb_lt in H. rewrite H. reflexivity.
Qed.

(** The body of the loop for a line of five or more fields. *)
Lemma parseLine_fields (rates : CnbRates) (line : jsstring) :
  (5 <= length (split 124 line))%nat ->
  parseLine rates line
  = match supported (trim (nth 3 (split 124 line) [])) with
    | None => rates
    | Some c =>
        let amount := parseInt (trim (nth 2 (split 124 line) [])) in
        let rate := parseFloat (replaceFirst 44 46 (trim (nth 4 (split 124 line) []))) in
        if isNaN amount || isNaN rate || strictEq amount pzero then rates
        else setRate c (div rate amount) rates
    end.
Proof.
  intros H. unfold parseLine. destruct line as [|ch line]; [cbn in H; lia|].
  apply Nat.ltb_ge in H. rewrite H. reflexivity.
Qed.

Lemma fields_cases (line : jsstring) :
  (length (split 124 line) < 5)%nat \/ (5 <= length (split 124 line))%nat.
Proof. lia. Qed.

(** A plain row is handled as the description of the format says. *)
Lemma parseLine_plain (rates : CnbRates) (line : jsstring) :
  plainRow line = true -> parseLine rates line = storeRow rates line.
Proof.
  intros Hplain. destruct (fields_cases line) as [Hshort | Hlong].
  - rewrite (parseLine_short rates line Hshort). unfold storeRow, validRow.
    destruct (split 124 line) as [|f0 [|f1 [|f2 [|f3 [|f4 rest]]]]];
      try reflexivity. cbn in Hshort. lia.
  - rewrite (parseLine_fields rates line Hlong). unfold storeRow, validRow.
    unfold plainRow in Hplain.
    destruct (split 124 line) as [|f0 [|f1 [|f2 [|f3 [|f4 rest]]]]];
      try (cbn in Hlong; lia).
    cbn [nth].
    destruct (supported (trim f3)) as [c|].
    2:{ destruct (readNumeral (trim f2));
          destruct (readNumeral (replaceFirst 44 46 (trim f4))); reflexivity. }
    apply andb_true_iff in Hplain. destruct Hplain as [Ha Hr].
    pose proof (trim_noLeadingSpace f2) as Hsa.
    pose proof (replaceFirst_noLeadingSpace _ (trim_noLeadingSpace f4)) as Hsr.
    cbv zeta.
    unfold plainAmount, integerNumeral in Ha. unfold plainRate in Hr.
    destruct (readNumeral (trim f2)) as [na|] eqn:Ea.
    + (* the amount is a numeral *)
      destruct (Nat.eqb (decimals na) 0) eqn:Ed.
      2:{ exfalso. cbn [orb] in Ha. apply negb_true_iff in Ha.
          destruct (readNumeral_begins _ _ Ea) as (_ & _ & C & _). congruence. }
      apply Nat.eqb_eq in Ed.
      pose proof (parseInt_integer (trim f2) [] na Ea Ed eq_refl) as Ep.
      rewrite app_nil_r in Ep. rewrite Ep.
      rewrite (numberOf_not_nan na), (numberOf_integer_zero na Ed). cbn [orb].
      destruct (readNumeral (replaceFirst 44 46 (trim f4))) as [nr|] eqn:Er.
      * pose proof (parseFloat_decimal _ [] nr Er eq_refl) as Ef.
        rewrite app_nil_r in Ef. rewrite Ef, (numberOf_not_nan nr). cbn [orb].
        destruct (mantissa na =? 0)%N; reflexivity.
      * cbn [orb] in Hr.
        assert (Hb : beginsLikeNumber (replaceFirst 44 46 (trim f4)) = false).
        { destruct (bool_decide _) eqn:Eb in Hr.
          - apply bool_decide_eq_true in Eb. destruct Eb as [x Hx]. discriminate Hx.
          - cbn [orb] in Hr. apply negb_true_iff in Hr. exact Hr. }
        rewrite (parseFloat_nan _ Hsr Hb). reflexivity.
    + (* the amount does not begin with a number *)
      cbn [orb] in Ha. apply negb_true_iff in Ha.
      rewrite (parseInt_nan _ Hsa Ha). reflexivity.
Qed.

(** Whatever the row, it changes at most the rate of its own currency. *)
Lemma parseLine_own_currency (rates : CnbRates) (line : jsstring) :
  parseLine rates line = rates
  \/ exists c v,
       supported (trim (nth 3 (split 124 line) [])) = Some c
       /\ parseLine rates line = setRate c v rates.
Proof.
  destruct (fields_cases line) as [Hshort | Hlong].
  - left. exact (parseLine_short rates line Hshort).
  - rewrite (parseLine_fields rates line Hlong).
    destruct (supported _) as [c|]; [|left; reflexivity]. cbv zeta.
    destruct (isNaN _ || isNaN _ || strictEq _ pzero); [left; reflexivity|].
    right. eauto.
Qed.

Lemma getRate_setRate (c' c : SupportedCurrency) (v : number) (rates : CnbRates) :
  getRate (setRate c' v rates) c = if sameCurrency c' c then Some v else getRate rates c.
Proof. destruct c', c; reflexivity. Qed.

Lemma getRate_storeRow (rates : CnbRates) (line : jsstring) (c : SupportedCurrency) :
  getRate (storeRow rates line) c = from_option Some (getRate rates c) (rowFor c line).
Proof.
  unfold storeRow, rowFor. destruct (validRow line) as [[c' v]|]; [|reflexivity].
  rewrite getRate_setRate. destruct (sameCurrency c' c); reflexivity.
Qed.

Lemma getRate_fold (rows : list jsstring) (rates : CnbRates) (c : SupportedCurrency) :
  Forall (fun line => plainRow line = true) rows ->
  getRate (fold_left parseLine rows rates) c
  = from_option Some (getRate rates c) (last (omap (rowFor c) rows)).
Proof.
  induction rows as [|line rows IH] using rev_ind; [reflexivity|].
  intros H. apply Forall_app in H. destruct H as [Hrows Hline].
  apply Forall_cons in Hline. destruct Hline as [Hline _].
  rewrite fold_left_app. cbn [fold_left].
  rewrite (parseLine_plain _ line Hline), getRate_storeRow, omap_app, (IH Hrows).
  cbn [omap list_omap]. destruct (rowFor c line) as [v|] eqn:E.
  - rewrite last_snoc. reflexivity.
  - rewrite app_nil_r. reflexivity.
Qed.



(* ===================================================================== *)
(** * Order creation run alone (C3, C4)                                   *)
(* ===================================================================== *)

Lemma transaction_missing (faulty : Faults) (input : CreateOrderInput.t) (d : Db) :
  faulty SFind = false ->
  products (tables d) !! CreateOrderInput.productId input = None ->
  transaction faulty (OrdersService.createTx input) d
  = (Throws (Api (NotFoundError (ofString "Product") (CreateOrderInput.productId input))),
     {| tables := tables d; orderSeq := orderSeq d; dbClock := dbClock d |}).
Proof.
  intros Hread Hnone. unfold transaction, OrdersService.createTx.
  cbn [runTx]. rewrite Hread, Hnone. reflexivity.
Qed.

Lemma transaction_short (faulty : Faults) (input : CreateOrderInput.t) (d : Db)
    (p : Product.t) :
  faulty SFind = false ->
  products (tables d) !! CreateOrderInput.productId input = Some p ->
  Product.quantity p < CreateOrderInput.quantity input ->
  transaction faulty (OrdersService.createTx input) d
  = (Throws (Api (ConflictError
       (OrdersService.insufficientStock (Product.quantity p)
          (CreateOrderInput.quantity input)))),
     {| tables := tables d; orderSeq := orderSeq d; dbClock := dbClock d |}).
Proof.
  intros Hread Hsome Hlt. unfold transaction, OrdersService.createTx.
  cbn [runTx]. rewrite Hread, Hsome.
  apply Z.ltb_lt in Hlt. rewrite Hlt. reflexivity.
Qed.

Lemma transaction_outcome (faulty : Faults) (input : CreateOrderInput.t) (d : Db) :
  match transaction faulty (OrdersService.createTx input) d with
  | (Ok (row, p), d') =>
      products (tables d) !! CreateOrderInput.productId input = Some p
      /\ CreateOrderInput.quantity input <= Product.quantity p
      /\ row = Order.ofData (orderSeq d) (dbClock d) (pricedOrder input p)
      /\ tables d' = ordered input p row (tables d)
      /\ (forall s, faulty s = false)
  | (Throws e, d') => tables d' = tables d
  end.
Proof.
  unfold transaction, OrdersService.createTx. cbn [runTx].
  destruct (faulty SFind) eqn:F1; [reflexivity|].
  destruct (products (tables d) !! CreateOrderInput.productId input) as [p|] eqn:Hp;
    [|reflexivity].
  destruct (Product.quantity p <? CreateOrderInput.quantity input) eqn:Hq; [reflexivity|].
  cbn [runTx Order.dProductId].
  destruct (faulty SCreate) eqn:F2; [reflexivity|].
  rewrite Hp. cbn [runTx products].
  destruct (faulty SUpdate) eqn:F3; [reflexivity|].
  rewrite Hp. cbn [runTx].
  destruct (faulty SCommit) eqn:F4; [reflexivity|].
  cbn [tables]. apply Z.ltb_ge in Hq.
  repeat split; try assumption; try reflexivity.
  intros []; assumption.
Qed.

Lemma transaction_enough (input : CreateOrderInput.t) (d : Db) (p : Product.t) :
  products (tables d) !! CreateOrderInput.productId input = Some p ->
  CreateOrderInput.quantity input <= Product.quantity p ->
  let row := Order.ofData (orderSeq d) (dbClock d) (pricedOrder input p) in
  transaction noFaults (OrdersService.createTx input) d
  = (Ok (row, p),
     {| tables := ordered input p row (tables d);
        orderSeq := orderSeq d + 1; dbClock := dbClock d |}).
Proof.
  intros Hsome Hle row. unfold transaction, OrdersService.createTx.
  cbn [runTx noFaults]. rewrite Hsome.
  apply Z.ltb_ge in Hle. rewrite Hle.
  cbn [runTx noFaults Order.dProductId]. rewrite Hsome.
  cbn [runTx noFaults products]. rewrite Hsome. reflexivity.
Qed.

Section Create.

Variable formatPrice : number -> jsstring -> jsstring.
Variable formatPriceCZK : number -> jsstring.

Local Abbreviation create := (OrdersService.create formatPrice formatPriceCZK).

Lemma create_order (faulty : Faults) (network : Network) (input : CreateOrderInput.t)
    (w : World) :
  match transaction faulty (OrdersService.createTx input) (db w) with
  | (Ok o, d') =>
      exists resp, fst (create faulty network input w) = Ok resp
                   /\ OrderWithConversions.order resp = fst o
                   /\ db (snd (create faulty network input w)) = d'
  | (Throws e, d') =>
      create faulty network input w = (Throws e, {| db := d'; net := net w |})
  end.
Proof.
  unfold OrdersService.create.
  destruct (transaction faulty (OrdersService.createTx input) (db w)) as [[o|e] d'];
    [|reflexivity].
  unfold OrdersService.enrichOrderWithConversions.
  destruct (fetchAndConvert _ _ _ _) as [fx n']. eexists. cbn. auto.
Qed.

(** C4. With the product read answered by the storage: a product that
    does not exist makes [create] throw NotFoundError (404, NOT_FOUND),
    whatever the quantity asked; a product that exists with less stock
    than asked makes it throw ConflictError (409, CONFLICT), which is not
    a NotFound and not a storage failure; in both cases the tables stay
    as they were and no rate request is sent.  When the product exists
    with enough stock (and the storage does not fail), the order is priced
    with [calculateVatBreakdown] at the default rate and written.  Asking
    1000 units of the unknown product 99 is answered NotFound, asking 9
    of product 1 with 5 in stock is answered Conflict. *)
Theorem create_checks_product_then_stock :
  (forall faulty network input w,
      faulty SFind = false ->
      products (tables (db w)) !! CreateOrderInput.productId input = None ->
      let r := create faulty network input w in
      fst r = Throws (Api (NotFoundError (ofString "Product")
                             (CreateOrderInput.productId input)))
      /\ tables (db (snd r)) = tables (db w)
      /\ net (snd r) = net w)
  /\ (forall faulty network input w p,
        faulty SFind = false ->
        products (tables (db w)) !! CreateOrderInput.productId input = Some p ->
        Product.quantity p < CreateOrderInput.quantity input ->
        let r := create faulty network input w in
        let e := Api (ConflictError
                        (OrdersService.insufficientStock (Product.quantity p)
                           (CreateOrderInput.quantity input))) in
        fst r = Throws e
        /\ isConflict e = true /\ isNotFound e = false
        /\ tables (db (snd r)) = tables (db w)
        /\ net (snd r) = net w)
  /\ (forall network input w p,
        products (tables (db w)) !! CreateOrderInput.productId input = Some p ->
        CreateOrderInput.quantity input <= Product.quantity p ->
        let r := create noFaults network input w in
        let row := Order.ofData (orderSeq (db w)) (dbClock (db w)) (pricedOrder input p) in
        (exists resp, fst r = Ok resp /\ OrderWithConversions.order resp = row)
        /\ tables (db (snd r)) = ordered input p row (tables (db w)))
  /\ (forall resource id,
        isNotFound (Api (NotFoundError resource id)) = true
        /\ isConflict (Api (NotFoundError resource id)) = false
        /\ statusCode (NotFoundError resource id) = 404)
  /\ (forall message,
        statusCode (ConflictError message) = 409
        /\ Errors.code (ConflictError message) = Some (ofString "CONFLICT"))
  /\ (forall network,
        create noFaults network (Sample.orderOf 99 1000) (Sample.world 5)
        = (Throws (Api {| statusCode := 404;
                          message := ofString "Product with ID 99 not found";
                          Errors.code := Some (ofString "NOT_FOUND");
                          name := ofString "NotFoundError" |}),
           Sample.world 5))
  /\ (forall network,
        create noFaults network (Sample.orderOf 1 9) (Sample.world 5)
        = (Throws (Api {| statusCode := 409;
                          message :=
                            ofString "Insufficient stock. Available: 5, Requested: 9";
                          Errors.code := Some (ofString "CONFLICT");
                          name := ofString "ConflictError" |}),
           Sample.world 5)).
Proof.
  split; [|split; [|split; [|split; [|split; [|split]]]]];
    [| | | | |intros network; vm_compute; reflexivity
             |intros network; vm_compute; reflexivity].
  - intros faulty network input w Hread Hnone r. subst r.
    pose proof (create_order faulty network input w) as H.
    rewrite (transaction_missing faulty input (db w) Hread Hnone) in H.
    rewrite H. cbn. auto.
  - intros faulty network input w p Hread Hsome Hlt r e. subst r e.
    pose proof (create_order faulty network input w) as H.
    rewrite (transaction_short faulty input (db w) p Hread Hsome Hlt) in H.
    rewrite H. cbn. auto.
  - intros network input w p Hsome Hle r row. subst r row.
    pose proof (create_order noFaults network input w) as H.
    rewrite (transaction_enough input (db w) p Hsome Hle) in H.
    destruct H as (resp & Hr & Ho & Hd). split.
    + exists resp. split; [exact Hr | exact Ho].
    + rewrite Hd. reflexivity.
  - intros resource id. cbn. repeat split.
  - intros message. split; reflexivity.
Qed.

(** One request at a time. Whatever statement the storage fails, if
    any: when [create] returns, the order table has gained exactly the
    returned order, for the requested quantity of the requested product,
    and the stock of that product is lower by exactly that quantity; when
    it throws (product missing, stock short, or the storage failing the
    read, the insert, the update or the commit), the tables are as they
    were before the call. *)
Lemma create_both_or_neither (faulty : Faults) (network : Network)
    (input : CreateOrderInput.t) (w : World) :
  match create faulty network input w with
  | (Ok resp, w') =>
      exists p,
        products (tables (db w)) !! CreateOrderInput.productId input = Some p
        /\ tables (db w') = ordered input p (OrderWithConversions.order resp) (tables (db w))
        /\ Order.productId (OrderWithConversions.order resp) = CreateOrderInput.productId input
        /\ Order.quantity (OrderWithConversions.order resp) = CreateOrderInput.quantity input
  | (Throws e, w') => tables (db w') = tables (db w)
  end.
Proof.
  pose proof (create_order faulty network input w) as H.
  pose proof (transaction_outcome faulty input (db w)) as T.
  destruct (transaction faulty (OrdersService.createTx input) (db w)) as [[[row p]|e] d'].
  - destruct H as (resp & Hr & Ho & Hd). destruct T as (Hp & _ & Hrow & Ht & _).
    destruct (create faulty network input w) as [res w'].
    cbn [fst snd] in Hr, Hd. subst res d'. cbn [fst] in Ho.
    exists p. rewrite Ho, Ht. split; [exact Hp|]. split; [reflexivity|].
    rewrite Hrow. split; reflexivity.
  - rewrite H. exact T.
Qed.

End Create.

(* ===================================================================== *)
(** * Order creation under interleaving (C2, C3)                          *)
(* ===================================================================== *)

Import Concurrent Interleaving.

Lemma withQuantity_twice (a b : Z) (p : Product.t) :
  Product.withQuantity a (Product.withQuantity b p) = Product.withQuantity a p.
Proof. destruct p; reflexivity. Qed.

Lemma withQuantity_same (p : Product.t) (q : Z) :
  q = Product.quantity p -> Product.withQuantity q p = p.
Proof. intros ->. destruct p; reflexivity. Qed.

Lemma quantity_withQuantity (a : Z) (p : Product.t) :
  Product.quantity (Product.withQuantity a p) = a.
Proof. destruct p; reflexivity. Qed.

Lemma lookup_decremented (ds : list (Z * Z)) (ps : gmap Z Product.t) (id : Z) :
  fold_right applyDecrement ps ds !! id
  = (fun p => Product.withQuantity (Product.quantity p - decrementOf id ds) p)
      <$> ps !! id.
Proof.
  induction ds as [|[pid n] ds IH].
  - cbn [fold_right decrementOf]. destruct (ps !! id) as [p|]; [|reflexivity].
    cbn [fmap option_fmap option_map]. f_equal. symmetry.
    apply withQuantity_same. lia.
  - cbn [fold_right decrementOf fst snd]. fold (decrementOf id ds).
    unfold applyDecrement at 1. cbn [fst snd].
    destruct (Z.eqb_spec pid id) as [->|Hne].
    + rewrite lookup_alter, IH. destruct (decide (id = id)); [|contradiction].
      destruct (ps !! id) as [p|]; [|reflexivity].
      cbn [fmap option_fmap option_map]. f_equal.
      rewrite quantity_withQuantity, withQuantity_twice. f_equal. lia.
    + rewrite lookup_alter_ne by exact Hne. exact IH.
Qed.

Lemma decrementOf_absent (ds : list (Z * Z)) (ps : gmap Z Product.t) (id : Z) :
  Forall (fun d => is_Some (ps !! fst d)) ds ->
  ps !! id = None -> decrementOf id ds = 0.
Proof.
  intros Hall Hnone. induction Hall as [|[pid n] ds Hd _ IH]; [reflexivity|].
  cbn [decrementOf fold_right fst snd]. fold (decrementOf id ds).
  destruct (Z.eqb_spec pid id) as [->|Hne]; [|exact IH].
  cbn [fst] in Hd. rewrite Hnone in Hd. destruct Hd as [? Hd]. discriminate.
Qed.

Lemma orderedOf_cons (id : Z) (o : Order.t) (os : list Order.t) :
  orderedOf id (o :: os)
  = (if (Order.productId o =? id)%Z then Order.quantity o else 0) + orderedOf id os.
Proof.
  cbn [orderedOf fold_right]. fold (orderedOf id os).
  destruct (Order.productId o =? id); lia.
Qed.

Lemma decrementOf_cons (id pid n : Z) (ds : list (Z * Z)) :
  decrementOf id ((pid, n) :: ds)
  = (if (pid =? id)%Z then n else 0) + decrementOf id ds.
Proof.
  cbn [decrementOf fold_right fst snd]. fold (decrementOf id ds).
  destruct (pid =? id); lia.
Qed.

Lemma orderedOf_app (id : Z) (xs ys : list Order.t) :
  orderedOf id (xs ++ ys) = orderedOf id xs + orderedOf id ys.
Proof.
  induction xs as [|o xs IH]; [reflexivity|].
  cbn [app orderedOf fold_right]. fold (orderedOf id (xs ++ ys)). fold (orderedOf id xs).
  rewrite IH. destruct (Order.productId o =? id); lia.
Qed.

Lemma orderedOf_rev (id : Z) (xs : list Order.t) :
  orderedOf id (rev xs) = orderedOf id xs.
Proof.
  induction xs as [|o xs IH]; [reflexivity|].
  cbn [rev]. rewrite orderedOf_app, IH.
  cbn [orderedOf fold_right]. fold (orderedOf id xs).
  destruct (Order.productId o =? id); lia.
Qed.

Lemma accounted_commit (id : Z) (w : Pending) (t : Tables) :
  Forall (fun d => is_Some (products t !! fst d)) (decrements w) ->
  accounted (commit w t) id
  = accounted t id + orderedOf id (inserted w) - decrementOf id (decrements w).
Proof.
  intros Hall. unfold accounted, commit, stock. cbn [products orders].
  rewrite lookup_decremented, orderedOf_app, orderedOf_rev.
  destruct (products t !! id) as [p|] eqn:Hp;
    cbn [fmap option_fmap option_map from_option].
  - rewrite quantity_withQuantity. lia.
  - rewrite (decrementOf_absent _ _ _ Hall Hp). lia.
Qed.

Lemma commit_domain (w : Pending) (t : Tables) (id : Z) :
  is_Some (products t !! id) -> is_Some (products (commit w t) !! id).
Proof.
  intros [p Hp]. unfold commit. cbn [products].
  rewrite lookup_decremented, Hp. eexists. reflexivity.
Qed.

Lemma clientOk_commit {A : Type} (id : Z) (w : Pending) (t : Tables) (c : Client A) :
  clientOk id t c -> clientOk id (commit w t) c.
Proof.
  destruct c as [p w'| |]; cbn; auto.
  intros [Hb Hall]. split; [exact Hb|].
  eapply Forall_impl; [exact Hall|]. intros d. apply commit_domain.
Qed.

Lemma viewProduct_Some (t : Tables) (w : Pending) (id : Z) (p : Product.t) :
  viewProduct t w id = Some p -> is_Some (products t !! id).
Proof.
  unfold viewProduct. destruct (products t !! id); [eauto|discriminate].
Qed.

Lemma balanced_createTx (id : Z) (input : CreateOrderInput.t) :
  balanced id (OrdersService.createTx input) 0 0.
Proof.
  unfold OrdersService.createTx. cbn [balanced]. intros [p|]; [|exact I].
  destruct (Product.quantity p <? CreateOrderInput.quantity input); [exact I|].
  cbn [balanced Order.dProductId Order.dQuantity]. intros _ _. reflexivity.
Qed.

Lemma invariant_start (id : Z) (d : Db) (inputs : list CreateOrderInput.t) :
  invariant id (accounted (tables d) id)
    (start d (map OrdersService.createTx inputs)).
Proof.
  split; [reflexivity|]. cbn [start clients committed].
  rewrite Forall_map, Forall_map. apply Forall_forall. intros input _.
  split; [apply balanced_createTx | constructor].
Qed.

Lemma invariant_setClient {A : Type} (id total : Z) (i : nat) (c : Client A)
    (s : State A) :
  invariant id total s -> clientOk id (committed s) c ->
  invariant id total (setClient i c s).
Proof.
  intros [Hacc Hall] Hc. split; [exact Hacc|].
  cbn [setClient clients committed]. apply Forall_insert; assumption.
Qed.

Lemma invariant_step {A : Type} (id total : Z) (i : nat) (s s' : State A) :
  invariant id total s -> stepClient i s = Some s' -> invariant id total s'.
Proof.
  intros Hinv Hstep. pose proof Hinv as [Hacc Hall].
  unfold stepClient in Hstep.
  destruct (clients s !! i) as [[p w| |]|] eqn:Hi; try discriminate.
  pose proof (Forall_lookup_1 _ _ _ _ Hall Hi) as [Hb Hd].
  destruct p as [a|e|pid k|d k|pid n k]; cbn [balanced] in Hb.
  - injection Hstep as <-. split; cbn [committed clients].
    + rewrite accounted_commit by exact Hd. lia.
    + apply Forall_insert; [|exact I].
      eapply Forall_impl; [exact Hall|]. intros c. apply clientOk_commit.
  - injection Hstep as <-. apply invariant_setClient; [exact Hinv | exact I].
  - injection Hstep as <-. apply invariant_setClient; [exact Hinv|].
    split; [apply Hb | exact Hd].
  - destruct (viewProduct (committed s) w (Order.dProductId d)) as [p|];
      injection Hstep as <-.
    + split; [exact Hacc|]. cbn [committed clients].
      apply Forall_insert; [exact Hall|].
      split; [|exact Hd]. cbn [inserted decrements].
      rewrite orderedOf_cons. apply Hb.
    + apply invariant_setClient; [exact Hinv | exact I].
  - destruct (lockedByOther i pid (clients s)); [discriminate|].
    destruct (viewProduct (committed s) w pid) as [p|] eqn:Hv;
      injection Hstep as <-.
    + apply invariant_setClient; [exact Hinv|].
      split; cbn [inserted decrements].
      * rewrite decrementOf_cons. apply Hb.
      * constructor; [|exact Hd]. cbn [fst]. eapply viewProduct_Some; exact Hv.
    + apply invariant_setClient; [exact Hinv | exact I].
Qed.

Lemma invariant_exec {A : Type} (id total : Z) (e : Event) (s : State A) :
  invariant id total s -> invariant id total (exec s e).
Proof.
  intros Hinv. destruct e as [i|i]; cbn [exec].
  - destruct (stepClient i s) as [s'|] eqn:Hs; cbn; [|exact Hinv].
    eapply invariant_step; eassumption.
  - unfold failClient. destruct (clients s !! i) as [[p w| |]|]; cbn; try exact Hinv.
    apply invariant_setClient; [exact Hinv | exact I].
Qed.

Lemma invariant_run {A : Type} (id total : Z) (schedule : list Event) (s : State A) :
  invariant id total s -> invariant id total (run schedule s).
Proof.
  revert s. induction schedule as [|e es IH]; intros s Hinv; [exact Hinv|].
  cbn [run fold_left]. apply IH, invariant_exec, Hinv.
Qed.

Section Atomicity.

Variable formatPrice : number -> jsstring -> jsstring.
Variable formatPriceCZK : number -> jsstring.

(** C3. Run alone, [create] writes both or neither: when it returns, the
    order table has gained exactly the returned order (the requested
    quantity of the requested product) and the stock of that product is
    lower by exactly that quantity; when it throws, for a missing
    product, short stock or a storage failure at any statement or at the
    commit, the tables are as before.  Run together with other [create]
    transactions, interleaved and failed in any way, a reader of the
    committed tables finds at every moment, for every product, the same
    total of stock left and quantity on order rows as at the start: no
    order row is visible without its decrement, and no decrement without
    its order row.  With 5 in stock, an order of 3 whose stock update or
    commit fails leaves the tables untouched, and one that goes through
    leaves one order of 3 and a stock of 2. *)
Theorem create_is_atomic :
  (forall faulty network input w,
      match OrdersService.create formatPrice formatPriceCZK faulty network input w with
      | (Ok resp, w') =>
          exists p,
            products (tables (db w)) !! CreateOrderInput.productId input = Some p
            /\ tables (db w')
               = ordered input p (OrderWithConversions.order resp) (tables (db w))
            /\ Order.productId (OrderWithConversions.order resp)
               = CreateOrderInput.productId input
            /\ Order.quantity (OrderWithConversions.order resp)
               = CreateOrderInput.quantity input
      | (Throws e, w') => tables (db w') = tables (db w)
      end)
  /\ (forall d inputs schedule id,
        accounted
          (committed (run schedule (start d (map OrdersService.createTx inputs)))) id
        = accounted (tables d) id)
  /\ (forall network,
        let r := OrdersService.create formatPrice formatPriceCZK Sample.updateFails
                   network (Sample.order 3) (Sample.world 5) in
        fst r = Throws (failure SUpdate)
        /\ tables (db (snd r)) = tables (Sample.database 5))
  /\ (forall network,
        let r := OrdersService.create formatPrice formatPriceCZK Sample.commitFails
                   network (Sample.order 3) (Sample.world 5) in
        fst r = Throws (failure SCommit)
        /\ tables (db (snd r)) = tables (Sample.database 5))
  /\ (let t := tables (db (snd (OrdersService.create formatPrice formatPriceCZK noFaults
                                  (Sample.responds 200 Sample.payload)
                                  (Sample.order 3) (Sample.world 5)))) in
      map Order.quantity (orders t) = [3] /\ stock t 1 = 2).
Proof.
  split; [|split; [|split; [|split]]].
  - intros. apply create_both_or_neither.
  - intros d inputs schedule id.
    exact (proj1 (invariant_run id _ schedule _ (invariant_start id d inputs))).
  - intros network. cbv zeta. split; vm_compute; reflexivity.
  - intros network. cbv zeta. split; vm_compute; reflexivity.
  - cbv zeta. split; vm_compute; reflexivity.
Qed.

End Atomicity.

(** C2. Under the statement-level snapshots of the database's default
    isolation, two [create] transactions for 3 units each of a product
    with 5 in stock, the second reading the stock before the first
    commits, both commit: two orders of 3 are stored and the stock is -1.
    Run one after the other, the second is refused with ConflictError and
    the stock is 2. *)
Theorem overlapping_orders_oversell :
  (let s := run overlapping
              (start (Sample.database 5)
                 [OrdersService.createTx (Sample.order 3);
                  OrdersService.createTx (Sample.order 3)]) in
   map isCommitted (clients s) = [true; true]
   /\ map Order.quantity (orders (committed s)) = [3; 3]
   /\ stock (committed s) 1 = -1)
  /\ (let first := transaction noFaults (OrdersService.createTx (Sample.order 3))
                     (Sample.database 5) in
      let second := transaction noFaults (OrdersService.createTx (Sample.order 3))
                      (snd first) in
      (exists o, fst first = Ok o)
      /\ fst second
         = Throws (Api (ConflictError (OrdersService.insufficientStock 2 3)))
      /\ stock (tables (snd second)) 1 = 2).
Proof.
  split.
  - cbv zeta. repeat split; vm_compute; reflexivity.
  - cbv zeta. split; [eexists; vm_compute; reflexivity|].
    split; vm_compute; reflexivity.
Qed.

(* ===================================================================== *)
(** * More on the VAT utilities                                           *)
(* ===================================================================== *)

Lemma sanitizePrice_shape (p : number) :
  sanitizePrice p = pzero \/ exists m e, sanitizePrice p = S754_finite false m e.
Proof.
  destruct p as [[|] | sg | | [|] m e];
    try (left; reflexivity).
  right. exists m, e. reflexivity.
Qed.

Lemma sanitizePrice_unusable (p : number) : unusable p -> sanitizePrice p = pzero.
Proof.
  intros [H | [H | H]].
  - apply sanitizePrice_clamps. auto.
  - apply sanitizePrice_clamps. auto.
  - destruct p as [[|] | [|] | | [|] m e]; try reflexivity; discriminate H.
Qed.

Lemma sanitizeQuantity_unusable (q : number) : unusable q -> sanitizeQuantity q = pzero.
Proof.
  intros [H | [H | H]].
  - apply sanitizeQuantity_clamps. auto.
  - apply sanitizeQuantity_clamps. auto.
  - destruct q as [[|] | [|] | | [|] m e]; try reflexivity; discriminate H.
Qed.

Lemma sanitizeQuantity_shape (q : number) :
  valid q = true ->
  sanitizeQuantity q = pzero \/ exists m e, sanitizeQuantity q = S754_finite false m e.
Proof.
  intros V. unfold sanitizeQuantity.
  destruct (negb (isFinite q) || lt q pzero) eqn:E; [auto|].
  apply orb_false_iff in E. destruct E as [E1 E2]. apply negb_false_iff in E1.
  destruct (round_nonneg_correct q (fin_nonneg_of_checks q V E1 E2)) as (z & _ & H & _).
  destruct H as [[sg ->] | (m & e & -> & _)].
  - left. destruct sg; reflexivity.
  - right. exists m, e. reflexivity.
Qed.

Lemma mul_pzero_l (y : number) :
  y = pzero \/ (exists m e, y = S754_finite false m e) -> mul pzero y = pzero.
Proof. intros [-> | (m & e & ->)]; reflexivity. Qed.

Lemma mul_pzero_r (x : number) :
  x = pzero \/ (exists m e, x = S754_finite false m e) -> mul x pzero = pzero.
Proof. intros [-> | (m & e & ->)]; reflexivity. Qed.

Lemma breakdown_of_zero (p q : number) :
  mul (sanitizePrice p) (sanitizeQuantity q) = pzero ->
  calculateVatBreakdown {| unitPriceCzk := p; quantity := q; vatRate := None |}
  = nothingToPay.
Proof.
  intros H. unfold calculateVatBreakdown. cbn [unitPriceCzk quantity vatRate default].
  rewrite H. vm_compute. reflexivity.
Qed.

(** X1.  Nothing ordered costs nothing.  When the unit price or the quantity is
    not finite, negative or zero, [calculateVatBreakdown] at the default
    rate returns subtotal, tax and total 0, whatever the other of the two
    is. *)
Theorem unusable_input_costs_nothing (p q : number) :
  valid p = true -> valid q = true ->
  unusable p \/ unusable q ->
  calculateVatBreakdown {| unitPriceCzk := p; quantity := q; vatRate := None |}
  = nothingToPay.
Proof.
  intros Vp Vq [H | H]; apply breakdown_of_zero.
  - rewrite (sanitizePrice_unusable p H). apply mul_pzero_l, sanitizeQuantity_shape, Vq.
  - rewrite (sanitizeQuantity_unusable q H). apply mul_pzero_r, sanitizePrice_shape.
Qed.

(** A negative quantity of a product at 1990 CZK. *)
Lemma unusable_input_costs_nothing_witness :
  calculateVatBreakdown
    {| unitPriceCzk := price1990; quantity := ofZ (-5); vatRate := None |}
  = nothingToPay.
Proof.
  apply (unusable_input_costs_nothing price1990 (ofZ (-5)));
    [reflexivity | reflexivity | right; right; left; reflexivity].
Defined.

Lemma mul_nan_r (x : number) : mul x NaN = NaN.
Proof. destruct x as [sg | sg | | sg m e]; reflexivity. Qed.

Lemma add_nan_r (x : number) : add x NaN = NaN.
Proof. destruct x as [sg | sg | | sg m e]; reflexivity. Qed.

Lemma add_nan_l (x : number) : add NaN x = NaN.
Proof. reflexivity. Qed.

Lemma div_nan_r (x : number) : div x NaN = NaN.
Proof. destruct x as [sg | sg | | sg m e]; reflexivity. Qed.

Lemma roundToTwoDecimals_nan : roundToTwoDecimals NaN = NaN.
Proof. reflexivity. Qed.

Lemma roundToTwoDecimals_infinity : roundToTwoDecimals Infinity = Infinity.
Proof. vm_compute. reflexivity. Qed.

(** X2.  The VAT rate is taken as it comes.  With the rate NaN, tax and total
    of [calculateVatBreakdown] are NaN for every price and quantity, and
    so are the results of [calculateVatAmount], [calculateTotalWithVat]
    and [calculatePriceBeforeVat].  With the rate -1,
    [calculatePriceBeforeVat] divides by zero: it returns Infinity for
    every positive finite price and NaN for a price that sanitizes to
    0. *)
Theorem vat_rate_is_not_sanitized :
  (forall p q : number,
      let b := calculateVatBreakdown
                 {| unitPriceCzk := p; quantity := q; vatRate := Some NaN |} in
      vatAmountCzk b = NaN /\ totalCzk b = NaN)
  /\ (forall p : number,
        calculateVatAmount p (Some NaN) = NaN
        /\ calculateTotalWithVat p (Some NaN) = NaN
        /\ calculatePriceBeforeVat p (Some NaN) = NaN)
  /\ (forall m e,
        calculatePriceBeforeVat (S754_finite false m e) (Some (ofZ (-1))) = Infinity)
  /\ (forall p : number,
        unusable p -> calculatePriceBeforeVat p (Some (ofZ (-1))) = NaN).
Proof.
  split; [|split; [|split]].
  - intros p q. cbv zeta. unfold calculateVatBreakdown.
    cbn [unitPriceCzk quantity vatRate default vatAmountCzk totalCzk].
    rewrite mul_nan_r, roundToTwoDecimals_nan, add_nan_r. auto.
  - intros p. unfold calculateVatAmount, calculateTotalWithVat, calculatePriceBeforeVat.
    cbn [default]. unfold calculateVatAmount. cbn [default].
    rewrite !mul_nan_r, roundToTwoDecimals_nan, add_nan_r, div_nan_r. auto.
  - intros m e. unfold calculatePriceBeforeVat. cbn [default].
    change (add (ofZ 1) (ofZ (-1))) with pzero.
    change (sanitizePrice (S754_finite false m e)) with (S754_finite false m e).
    change (div (S754_finite false m e) pzero) with Infinity.
    apply roundToTwoDecimals_infinity.
  - intros p H. unfold calculatePriceBeforeVat. cbn [default].
    rewrite (sanitizePrice_unusable p H). vm_compute. reflexivity.
Qed.

Section SubtotalRange.
Local Open Scope R_scope.

(** X3.  The subtotal is never negative and never NaN: for every price and
    quantity, at every rate, it is a zero, a positive finite number, or
    Infinity (when the product overflows). *)
Theorem subtotal_never_negative (p q : number) (rate : option number) :
  valid p = true -> valid q = true ->
  let b := calculateVatBreakdown {| unitPriceCzk := p; quantity := q; vatRate := rate |} in
  subtotalCzk b = Infinity
  \/ (fin_nonneg (subtotalCzk b) /\ lt (subtotalCzk b) pzero = false
      /\ isNaN (subtotalCzk b) = false).
Proof.
  intros Vp Vq. cbv zeta. unfold calculateVatBreakdown.
  cbn [unitPriceCzk quantity subtotalCzk].
  pose proof (sanitizePrice_nonneg p Vp) as Hp.
  pose proof (sanitizeQuantity_nonneg q Vq) as Hq.
  destruct (mul_nonneg_total _ _ Hp Hq) as [[Hm _] | ->].
  - destruct (roundToTwoDecimals_total _ Hm) as [-> | (N & _ & [Hf _])]; [auto|].
    right. split; [exact Hf|].
    destruct Hf as [[sg ->] | (m & e & -> & _)]; [destruct sg|]; auto.
  - left. apply roundToTwoDecimals_infinity.
Qed.

End SubtotalRange.

Lemma subtotal_never_negative_witness :
  let b := calculateVatBreakdown
             {| unitPriceCzk := price1990; quantity := ofZ 2; vatRate := None |} in
  subtotalCzk b = Infinity
  \/ (fin_nonneg (subtotalCzk b) /\ lt (subtotalCzk b) pzero = false
      /\ isNaN (subtotalCzk b) = false).
Proof.
  apply (subtotal_never_negative price1990 (ofZ 2) None); reflexivity.
Defined.

Section Helpers.
Local Open Scope R_scope.

Lemma le_of_gt_false (x : number) (z : Z) :
  fin_nonneg x -> (0 < z < 2 ^ 53)%Z -> gt x (ofZ z) = false -> toR x <= IZR z.
Proof.
  intros Hx Hz G. destruct (ofZ_exact z Hz) as (m & e & E1 & E2 & E3).
  rewrite E1 in G. pose proof (gt_false_le x m e Hx E2 G) as H.
  cbn [toR cond_Zopp] in H. rewrite E3 in H. exact H.
Qed.

Lemma sanitizePrice_idempotent (p : number) :
  sanitizePrice (sanitizePrice p) = sanitizePrice p.
Proof. destruct p as [[|] | [|] | | [|] m e]; reflexivity. Qed.

(** Rounding an amount of moderate size to cents moves it by at most half
    a cent (and the rounding errors of the two operations). *)
Lemma roundToTwoDecimals_error (v : number) :
  fin_nonneg v -> toR v <= 4000000000 ->
  fin_nonneg (roundToTwoDecimals v)
  /\ Rabs (toR (roundToTwoDecimals v) - toR v) <= 5002 / 1000000.
Proof.
  intros Hv Hb.
  destruct (roundToTwoDecimals_bounded v Hv Hb) as (N & _ & [Hf _] & E1 & E2).
  split; [exact Hf|].
  apply Rabs_le_inv in E1. apply Rabs_le_inv in E2. apply Rabs_le. lra.
Qed.

Lemma product_rounded_error (x r : number) :
  fin_nonneg x -> toR x <= 1000000000 -> fin_nonneg r -> toR r <= 1 ->
  fin_nonneg (roundToTwoDecimals (mul x r))
  /\ Rabs (toR (roundToTwoDecimals (mul x r)) - toR x * toR r) <= 5003 / 1000000.
Proof.
  intros Hx Hxb Hr Hrb.
  pose proof (toR_nonneg _ Hx) as Hx0. pose proof (toR_nonneg _ Hr) as Hr0.
  pose proof bpow_1023_large as Hbig.
  assert (HP : 0 <= toR x * toR r <= 1000000000).
  { pose proof (mul_bound (toR x) (toR r) 1000000000 1 ltac:(lra) ltac:(lra)).
    split; [apply Rmult_le_pos; lra | lra]. }
  assert (Hw : approx (mul x r) (toR x * toR r))
    by (apply mul_nonneg_correct; [assumption .. | lra]).
  pose proof (approx_error _ _ Hw) as Ew. destruct Hw as [Hwf _].
  apply Rabs_le_inv in Ew.
  destruct (roundToTwoDecimals_error (mul x r) Hwf ltac:(lra)) as [Hf E].
  split; [exact Hf|]. apply Rabs_le_inv in E. apply Rabs_le. lra.
Qed.

Lemma sum_rounded_error (x y : number) :
  fin_nonneg x -> toR x <= 1000000000 -> fin_nonneg y -> toR y <= 1000000001 ->
  fin_nonneg (roundToTwoDecimals (add x y))
  /\ Rabs (toR (roundToTwoDecimals (add x y)) - (toR x + toR y)) <= 5003 / 1000000.
Proof.
  intros Hx Hxb Hy Hyb.
  pose proof (toR_nonneg _ Hx) as Hx0. pose proof (toR_nonneg _ Hy) as Hy0.
  pose proof bpow_1023_large as Hbig.
  assert (Ha : approx (add x y) (toR x + toR y))
    by (apply add_nonneg_correct; [assumption .. | lra]).
  pose proof (approx_error _ _ Ha) as Ea. destruct Ha as [Haf _].
  apply Rabs_le_inv in Ea.
  destruct (roundToTwoDecimals_error (add x y) Haf ltac:(lra)) as [Hf E].
  split; [exact Hf|]. apply Rabs_le_inv in E. apply Rabs_le. lra.
Qed.

(** The arithmetic of taking the tax off again. *)
Lemma untax_real (p r T o D d b : R) :
  0 <= p <= 1000000000 -> 0 <= r <= 1 ->
  - (101 / 10000) <= T - p * (1 + r) <= 101 / 10000 ->
  - (1 / 1000000000000000) <= o - (1 + r) <= 1 / 1000000000000000 ->
  D * o = T ->
  - (1 / 1000000) <= d - D <= 1 / 1000000 ->
  - (5002 / 1000000) <= b - d <= 5002 / 1000000 ->
  - (16 / 1000) <= b - p <= 16 / 1000.
Proof.
  intros Hp Hr HT Ho ED Hd Hb.
  pose proof (mul_bound p (o - (1 + r)) 1000000000 (1 / 1000000000000000)
                ltac:(lra) ltac:(lra)) as Hpo.
  assert (E : (D - p) * o = T - p * (1 + r) - p * (o - (1 + r))) by (rewrite <- ED; ring).
  pose proof (scaled_bound (D - p) o _ (999 / 1000) (10102 / 1000000) E
                ltac:(lra) ltac:(lra) ltac:(lra)) as HD.
  lra.
Qed.

(** X4.  The helpers on one price.  For a price between 0 and 1e9 and a rate
    between 0 and 1, [calculateVatAmount] is within 0.0051 of price x
    rate, [calculateTotalWithVat] is within 0.0101 of price x (1 + rate),
    and [calculatePriceBeforeVat] takes the tax off again: applied to
    that total it gives the price back to within 0.016. *)
Theorem vat_helpers_round_trip (p r : number) :
  valid p = true -> isFinite p = true -> lt p pzero = false ->
  gt p (ofZ 1000000000) = false ->
  valid r = true -> isFinite r = true -> lt r pzero = false ->
  gt r (ofZ 1) = false ->
  closeTo (51 / 10000) (calculateVatAmount p (Some r)) (toR p * toR r)
  /\ closeTo (101 / 10000) (calculateTotalWithVat p (Some r)) (toR p * (1 + toR r))
  /\ closeTo (16 / 1000)
       (calculatePriceBeforeVat (calculateTotalWithVat p (Some r)) (Some r)) (toR p).
Proof.
  intros Vp Fp Lp Gp Vr Fr Lr Gr.
  pose proof (fin_nonneg_of_checks p Vp Fp Lp) as Hp.
  pose proof (fin_nonneg_of_checks r Vr Fr Lr) as Hr.
  pose proof (le_of_gt_false p 1000000000 Hp ltac:(lia) Gp) as Hpb.
  pose proof (le_of_gt_false r 1 Hr ltac:(lia) Gr) as Hrb.
  pose proof (toR_nonneg _ Hp) as Hp0. pose proof (toR_nonneg _ Hr) as Hr0.
  pose proof bpow_1023_large as Hbig.
  destruct (sanitizePrice_id p Hp) as [Hsf Es].
  unfold calculateTotalWithVat, calculateVatAmount. simpl default.
  rewrite sanitizePrice_idempotent.
  set (sp := sanitizePrice p) in *.
  (* the tax *)
  destruct (product_rounded_error sp r Hsf ltac:(lra) Hr Hrb) as [Haf Ea].
  rewrite Es in Ea. apply Rabs_le_inv in Ea.
  set (a := roundToTwoDecimals (mul sp r)) in *.
  pose proof (toR_nonneg _ Haf) as Ha0.
  assert (HP : toR p * toR r <= 1000000000).
  { pose proof (mul_bound (toR p) (toR r) 1000000000 1 ltac:(lra) ltac:(lra)). lra. }
  (* the total *)
  assert (Hsb : toR sp <= 1000000000) by lra.
  assert (Hab : toR a <= 1000000001) by lra.
  destruct (sum_rounded_error sp a Hsf Hsb Haf Hab) as [HTf ET].
  rewrite Es in ET. apply Rabs_le_inv in ET.
  set (T := roundToTwoDecimals (add sp a)) in *.
  pose proof (toR_nonneg _ HTf) as HT0.
  assert (HTp : - (101 / 10000) <= toR T - toR p * (1 + toR r) <= 101 / 10000) by lra.
  split; [split; [apply fin_nonneg_isFinite; exact Haf | apply Rabs_le; lra]|].
  split; [split; [apply fin_nonneg_isFinite; exact HTf | apply Rabs_le; lra]|].
  (* the price before tax of the total *)
  unfold calculatePriceBeforeVat. simpl default.
  destruct (sanitizePrice_id T HTf) as [HT'f ET'].
  destruct (ofZ_pos_nonneg 1 ltac:(lia)) as [H1f E1].
  assert (Ho : approx (add (ofZ 1) r) (toR (ofZ 1) + toR r))
    by (apply add_nonneg_correct; [assumption .. | rewrite E1; lra]).
  rewrite E1 in Ho. pose proof (approx_error _ _ Ho) as Eo. destruct Ho as [Hof _].
  apply Rabs_le_inv in Eo.
  set (o := add (ofZ 1) r) in *.
  set (D := toR (sanitizePrice T) / toR o).
  assert (ED : D * toR o = toR T) by (unfold D; rewrite ET'; field; lra).
  assert (HD : 0 <= D <= 3000000000).
  { pose proof (quot_nonneg _ _ _ ED ltac:(lra) ltac:(lra)) as HD0.
    pose proof (scaled_bound _ _ _ (9 / 10) 2000000002 ED ltac:(lra) ltac:(lra) ltac:(lra)).
    lra. }
  assert (Hd : approx (div (sanitizePrice T) o) D).
  { apply div_nonneg_correct; [assumption .. | lra | fold D; lra]. }
  pose proof (approx_error _ _ Hd) as Ed. destruct Hd as [Hdf _].
  apply Rabs_le_inv in Ed.
  destruct (roundToTwoDecimals_error _ Hdf ltac:(lra)) as [Hbf Eb].
  apply Rabs_le_inv in Eb.
  split; [apply fin_nonneg_isFinite; exact Hbf|].
  apply Rabs_le.
  apply (untax_real (toR p) (toR r) (toR T) (toR o) D
           (toR (div (sanitizePrice T) o)) _); lra.
Qed.

End Helpers.

(** The price 1000 CZK at 15 %, as in the unit tests. *)
Lemma vat_helpers_round_trip_witness :
  closeTo (51 / 10000) (calculateVatAmount price1000 (Some rate15))
    (toR price1000 * toR rate15)
  /\ closeTo (101 / 10000) (calculateTotalWithVat price1000 (Some rate15))
       (toR price1000 * (1 + toR rate15))
  /\ closeTo (16 / 1000)
       (calculatePriceBeforeVat (calculateTotalWithVat price1000 (Some rate15))
          (Some rate15))
       (toR price1000).
Proof.
  apply (vat_helpers_round_trip price1000 rate15); reflexivity.
Defined.

(* ===================================================================== *)
(** * More on the rate service                                            *)
(* ===================================================================== *)

(** ** Splitting and trimming *)

Lemma split_length (sep : N) (s : jsstring) :
  length (split sep s) = S (count_occ N.eq_dec s sep).
Proof.
  induction s as [|c s IH]; [reflexivity|].
  cbn [split]. destruct (N.eqb_spec c sep) as [->|Hne].
  - rewrite count_occ_cons_eq by reflexivity. cbn [length]. rewrite IH. reflexivity.
  - rewrite count_occ_cons_neq by exact Hne.
    destruct (split sep s) as [|w ws] eqn:E; [discriminate IH | exact IH].
Qed.

Lemma split_app_last (sep c : N) (s : jsstring) :
  c <> sep -> split sep (s ++ [c]) = appendLast c (split sep s).
Proof.
  intros Hc. induction s as [|d s IH].
  - cbn. destruct (N.eqb_spec c sep); [contradiction | reflexivity].
  - cbn [app split]. rewrite IH.
    pose proof (split_nonempty sep s) as Hne.
    destruct (N.eqb_spec d sep) as [->|Hd].
    + destruct (split sep s) as [|w ws]; [contradiction | reflexivity].
    + destruct (split sep s) as [|w [|w' ws]]; [contradiction | reflexivity | reflexivity].
Qed.

Lemma appendLast_length (c : N) (fields : list jsstring) :
  length (appendLast c fields) = length fields.
Proof.
  induction fields as [|f [|g rest] IH]; [reflexivity | reflexivity |].
  cbn [appendLast length] in *. rewrite IH. reflexivity.
Qed.

Lemma appendLast_nth (c : N) (fields : list jsstring) (i : nat) :
  (S i < length fields)%nat -> nth i (appendLast c fields) [] = nth i fields [].
Proof.
  revert i. induction fields as [|f [|g rest] IH]; intros i Hi.
  - cbn in Hi. lia.
  - cbn in Hi. lia.
  - destruct i as [|i]; [reflexivity|].
    cbn [appendLast nth]. apply IH. cbn [length] in *. lia.
Qed.

Lemma appendLast_nth_last (c : N) (fields : list jsstring) (i : nat) :
  length fields = S i -> nth i (appendLast c fields) [] = nth i fields [] ++ [c].
Proof.
  revert i. induction fields as [|f [|g rest] IH]; intros i Hi.
  - discriminate.
  - injection Hi as <-. reflexivity.
  - destruct i as [|i]; [discriminate|].
    cbn [appendLast nth]. apply IH. cbn [length] in *. lia.
Qed.

Lemma trimStart_app_ws (f : jsstring) (c : N) :
  isWhiteSpace c = true ->
  trimStart (f ++ [c]) = if forallb isWhiteSpace f then [] else trimStart f ++ [c].
Proof.
  intros Hc. induction f as [|d f IH].
  - cbn. rewrite Hc. reflexivity.
  - cbn [app trimStart forallb]. destruct (isWhiteSpace d); [exact IH | reflexivity].
Qed.

Lemma trimStart_all_ws (f : jsstring) :
  forallb isWhiteSpace f = true -> trimStart f = [].
Proof.
  induction f as [|d f IH]; [reflexivity|].
  cbn [forallb trimStart]. destruct (isWhiteSpace d); [exact IH | discriminate].
Qed.

Lemma trim_app_ws (f : jsstring) (c : N) :
  isWhiteSpace c = true -> trim (f ++ [c]) = trim f.
Proof.
  intros Hc. unfold trim. rewrite (trimStart_app_ws f c Hc).
  destruct (forallb isWhiteSpace f) eqn:E.
  - rewrite (trimStart_all_ws f E). reflexivity.
  - unfold trimEnd. rewrite rev_app_distr. cbn [rev app trimStart]. rewrite Hc.
    reflexivity.
Qed.

Lemma whitespace_not_bar (c : N) : isWhiteSpace c = true -> c <> 124%N.
Proof. intros H ->. discriminate H. Qed.

(** A white-space character after a line does not change what the line
    means. *)
Lemma parseLine_app_ws (rates : CnbRates) (line : jsstring) (c : N) :
  isWhiteSpace c = true -> parseLine rates (line ++ [c]) = parseLine rates line.
Proof.
  intros Hc. pose proof (whitespace_not_bar c Hc) as Hbar.
  destruct line as [|d line].
  - cbn [app]. unfold parseLine. cbn [split].
    destruct (N.eqb_spec c 124); [contradiction | reflexivity].
  - unfold parseLine. cbn [app].
    change (d :: line ++ [c]) with ((d :: line) ++ [c]).
    rewrite (split_app_last 124 c (d :: line) Hbar), appendLast_length.
    set (parts := split 124 (d :: line)).
    destruct (length parts <? 5)%nat eqn:E; [reflexivity|].
    apply Nat.ltb_ge in E.
    rewrite (appendLast_nth c parts 3), (appendLast_nth c parts 2) by lia.
    assert (H4 : trim (nth 4 (appendLast c parts) []) = trim (nth 4 parts [])).
    { destruct (Nat.eq_dec (length parts) 5%nat) as [E5|N5].
      - rewrite (appendLast_nth_last c parts 4 E5). apply trim_app_ws, Hc.
      - rewrite (appendLast_nth c parts 4) by lia. reflexivity. }
    rewrite H4. reflexivity.
Qed.

(** ** Carriage returns *)

Lemma trimStart_crlf (s : jsstring) : trimStart (crlf s) = crlf (trimStart s).
Proof.
  induction s as [|c s IH]; [reflexivity|].
  cbn [crlf]. destruct (N.eqb_spec c 10) as [->|Hc].
  - cbn. exact IH.
  - cbn [trimStart]. destruct (isWhiteSpace c); [exact IH|].
    cbn [crlf]. destruct (N.eqb_spec c 10); [contradiction | reflexivity].
Qed.

Lemma crlf_app (s t : jsstring) : crlf (s ++ t) = crlf s ++ crlf t.
Proof.
  induction s as [|c s IH]; [reflexivity|].
  cbn [app crlf]. rewrite IH. destruct (c =? 10)%N; reflexivity.
Qed.

Lemma lfcr_app (s t : jsstring) : lfcr (s ++ t) = lfcr s ++ lfcr t.
Proof.
  induction s as [|c s IH]; [reflexivity|].
  cbn [app lfcr]. rewrite IH. destruct (c =? 10)%N; reflexivity.
Qed.

Lemma rev_crlf (s : jsstring) : rev (crlf s) = lfcr (rev s).
Proof.
  induction s as [|c s IH]; [reflexivity|].
  cbn [crlf rev]. rewrite lfcr_app, <- IH.
  cbn [lfcr]. destruct (c =? 10)%N; cbn [rev]; rewrite <- ?app_assoc; reflexivity.
Qed.

Lemma rev_lfcr (s : jsstring) : rev (lfcr s) = crlf (rev s).
Proof.
  induction s as [|c s IH]; [reflexivity|].
  cbn [lfcr rev]. rewrite crlf_app, <- IH.
  cbn [crlf]. destruct (c =? 10)%N; cbn [rev]; rewrite <- ?app_assoc; reflexivity.
Qed.

Lemma trimStart_lfcr (s : jsstring) : trimStart (lfcr s) = lfcr (trimStart s).
Proof.
  induction s as [|c s IH]; [reflexivity|].
  cbn [lfcr]. destruct (N.eqb_spec c 10) as [->|Hc].
  - cbn. exact IH.
  - cbn [trimStart]. destruct (isWhiteSpace c); [exact IH|].
    cbn [lfcr]. destruct (N.eqb_spec c 10); [contradiction | reflexivity].
Qed.

Lemma trim_crlf (s : jsstring) : trim (crlf s) = crlf (trim s).
Proof.
  unfold trim, trimEnd.
  rewrite trimStart_crlf, rev_crlf, trimStart_lfcr, rev_lfcr. reflexivity.
Qed.

Lemma split_crlf (s : jsstring) : split 10 (crlf s) = withCR (split 10 s).
Proof.
  induction s as [|c s IH]; [reflexivity|].
  pose proof (split_nonempty 10 s) as Hne.
  cbn [crlf]. destruct (N.eqb_spec c 10) as [->|Hc].
  - cbn [split N.eqb Pos.eqb]. rewrite IH.
    destruct (split 10 s) as [|w ws]; [contradiction | reflexivity].
  - cbn [split]. destruct (N.eqb_spec c 10); [contradiction|]. rewrite IH.
    destruct (split 10 s) as [|w [|w' ws]]; [contradiction | reflexivity | reflexivity].
Qed.

Lemma withCR_drop (n : nat) (lines : list jsstring) :
  drop n (withCR lines) = withCR (drop n lines).
Proof.
  revert lines. induction n as [|n IH]; intros lines; [reflexivity|].
  destruct lines as [|l [|l' rest]].
  - reflexivity.
  - cbn [withCR drop]. rewrite drop_nil. reflexivity.
  - change (withCR (l :: l' :: rest)) with ((l ++ [13%N]) :: withCR (l' :: rest)).
    cbn [drop]. apply IH.
Qed.

Lemma fold_withCR (lines : list jsstring) (rates : CnbRates) :
  fold_left parseLine (withCR lines) rates = fold_left parseLine lines rates.
Proof.
  revert rates. induction lines as [|l [|l' rest] IH]; intros rates;
    [reflexivity | reflexivity |].
  change (withCR (l :: l' :: rest)) with ((l ++ [13%N]) :: withCR (l' :: rest)).
  cbn [fold_left]. rewrite parseLine_app_ws by reflexivity. apply IH.
Qed.

(** X5.  Line endings do not matter: a payload whose lines end in carriage
    return and line feed gives the same rate table as the payload with
    bare line feeds. *)
Theorem parseRatesText_crlf (text : jsstring) :
  parseRatesText (crlf text) = parseRatesText text.
Proof.
  unfold parseRatesText, parseLines.
  rewrite trim_crlf, split_crlf, withCR_drop. apply fold_withCR.
Qed.

(** ** Short payloads *)

(** X6.  A payload that, stripped of surrounding white space, has fewer than
    three lines (an empty body, a lone header) gives a table without any
    rate. *)
Theorem parseRatesText_short (text : jsstring) :
  (lineFeeds (trim text) <= 1)%nat -> parseRatesText text = noRates.
Proof.
  intros H. unfold parseRatesText, parseLines.
  pose proof (split_length 10 (trim text)) as L. fold (lineFeeds (trim text)) in L.
  rewrite drop_ge by lia. reflexivity.
Qed.

Lemma parseRatesText_short_witness :
  parseRatesText (ofString "02.01.2024 #1" ++ [10%N] ++ ofString "zeme|mena|mnozstvi|kod|kurz")
  = noRates.
Proof.
  apply parseRatesText_short. vm_compute. lia.
Defined.

(* ===================================================================== *)
(** * More on the order service and the summary                           *)
(* ===================================================================== *)

Section Orders.

Variable formatPrice : number -> jsstring -> jsstring.
Variable formatPriceCZK : number -> jsstring.

Local Abbreviation enrich :=
  (OrdersService.enrichOrderWithConversions formatPrice formatPriceCZK).
Local Abbreviation create := (OrdersService.create formatPrice formatPriceCZK).
Local Abbreviation findById := (OrdersService.findById formatPrice formatPriceCZK).
Local Abbreviation getSummary := (OrdersController.getSummary formatPrice formatPriceCZK).

Lemma enrich_fields (network : Network) (order : OrderWithProduct) (w : Net) :
  OrderWithConversions.order (fst (enrich network order w)) = fst order
  /\ OrderWithConversions.product (fst (enrich network order w))
     = ProductsService.toProductDTO formatPriceCZK (snd order)
  /\ snd (enrich network order w) = snd (fetchCnbRates network w).
Proof.
  unfold OrdersService.enrichOrderWithConversions, fetchAndConvert.
  destruct (fetchCnbRates network w) as [r w']. cbn. auto.
Qed.

(** X7.  The response that [enrichOrderWithConversions] assembles.  The order
    row passes through unchanged; the product is the DTO that the product
    service would give for the included product; there are always exactly
    three conversions, for EUR, USD and PLN in this order, also when the
    rates could not be fetched (then each has amount 0 and the text N/A);
    and one request is sent. *)
Theorem enrich_always_three_conversions :
  forall network order w,
    let r := fst (enrich network order w) in
    OrderWithConversions.order r = fst order
    /\ OrderWithConversions.product r
       = ProductsService.toProductDTO formatPriceCZK (snd order)
    /\ map CurrencyConversion.code (OrderWithConversions.conversions r) = [EUR; USD; PLN]
    /\ requests (snd (enrich network order w)) = CNB_API_URL :: requests w
    /\ (success (fst (fetchCnbRates network w)) = false ->
        OrderWithConversions.conversions r
        = map (fun c => {| CurrencyConversion.code := c;
                           CurrencyConversion.amount := pzero;
                           CurrencyConversion.formatted := notAvailable |})
              [EUR; USD; PLN]).
Proof.
  intros network order w r. subst r.
  destruct (enrich_fields network order w) as (H1 & H2 & H3).
  split; [exact H1|]. split; [exact H2|].
  rewrite H3, fetchCnbRates_requests, enrich_conversions.
  split.
  { unfold convertFromCzk, SUPPORTED_CURRENCIES.
    cbn [map conversions CurrencyConversion.code].
    set (total := Order.totalPriceCzk (fst order)).
    set (tbl := rates (fst (fetchCnbRates network w))).
    destruct (convertOne_amount formatPrice total tbl EUR) as (-> & _).
    destruct (convertOne_amount formatPrice total tbl USD) as (-> & _).
    destruct (convertOne_amount formatPrice total tbl PLN) as (-> & _).
    reflexivity. }
  split; [reflexivity|].
  intros Hfail.
  destruct (fetchCnbRates_failure_or_parse network w) as [[msg E] | (text & E & _)].
  - rewrite E. reflexivity.
  - rewrite E in Hfail. discriminate.
Qed.

(** ** Reading orders *)

Lemma findOrder_missing (id : Z) (t : Tables) :
  findOrderRow id t = None -> OrdersService.findOrder false id t = Ok None.
Proof. intros H. unfold OrdersService.findOrder. rewrite H. reflexivity. Qed.

Lemma findById_effects :
  forall readFails network id w,
    let full := findById readFails network id w in
    let basic := OrdersService.findByIdBasic readFails id (tables (db w)) in
    db (snd full) = db w
    /\ (readFails = false -> findOrderRow id (tables (db w)) = None ->
        fst full = Throws (Api (NotFoundError (ofString "Order") id))
        /\ basic = Throws (Api (NotFoundError (ofString "Order") id)))
    /\ (readFails = true ->
        exists what,
          fst full = Throws (StorageFailure what)
          /\ basic = Throws (StorageFailure what))
    /\ match fst full with
       | Ok r =>
           basic = Ok (basicOf r)
           /\ requests (net (snd full)) = CNB_API_URL :: requests (net w)
       | Throws e => basic = Throws e /\ snd full = w
       end.
Proof.
  intros readFails network id w full basic. subst full basic.
  unfold OrdersService.findById, OrdersService.findByIdBasic.
  split; [|split; [|split]].
  - destruct (OrdersService.findOrder readFails id (tables (db w))) as [[o|]|e];
      try reflexivity.
    destruct (enrich network o (net w)) as [r n']. reflexivity.
  - intros -> Hnone. rewrite (findOrder_missing id _ Hnone). auto.
  - intros ->. eexists. split; reflexivity.
  - destruct (OrdersService.findOrder readFails id (tables (db w))) as [[[o p]|]|e];
      try (split; reflexivity).
    destruct (enrich_fields network (o, p) (net w)) as (H1 & H2 & H3).
    destruct (enrich network (o, p) (net w)) as [r n'] eqn:E.
    cbn [fst snd net] in *. subst n'. split.
    + unfold basicOf. rewrite H1, H2. reflexivity.
    + apply fetchCnbRates_requests.
Qed.

(** X8.  Reading an order never writes.  [findById] and [findByIdBasic] leave
    the database as it is.  When the storage answers the read, an id
    without a row makes both throw NotFoundError for the resource Order;
    when the storage fails the read (as it does for an id beyond the
    range of the id column, which the route's schema admits) both throw
    the storage's error instead, whether or not there is a row.  No rate
    request is sent when they throw; [findById] sends one request exactly
    when it returns; and the basic view is the full response without the
    conversions: whenever [findById] returns, [findByIdBasic] returns the
    same order fields with the product's title, and when one throws the
    other throws the same. *)
Theorem reading_orders_is_consistent :
  forall readFails network id w,
    let full := findById readFails network id w in
    let basic := OrdersService.findByIdBasic readFails id (tables (db w)) in
    db (snd full) = db w
    /\ (readFails = false -> findOrderRow id (tables (db w)) = None ->
        fst full = Throws (Api (NotFoundError (ofString "Order") id))
        /\ basic = Throws (Api (NotFoundError (ofString "Order") id)))
    /\ (readFails = true ->
        exists what,
          fst full = Throws (StorageFailure what)
          /\ basic = Throws (StorageFailure what))
    /\ match fst full with
       | Ok r =>
           basic = Ok (basicOf r)
           /\ requests (net (snd full)) = CNB_API_URL :: requests (net w)
       | Throws e => basic = Throws e /\ snd full = w
       end.
Proof. exact findById_effects. Qed.

(** ** The summary *)

Lemma getSummary_effects :
  forall readFails network id w,
    let res := getSummary readFails network id w in
    db (snd res) = db w
    /\ (readFails = false -> findOrderRow id (tables (db w)) = None ->
        res = (Throws (Api (NotFoundError (ofString "Order") id)), w))
    /\ (readFails = true -> exists what, res = (Throws (StorageFailure what), w))
    /\ match fst res with
       | Ok _ => requests (net (snd res)) = CNB_API_URL :: requests (net w)
       | Throws _ => snd res = w
       end.
Proof.
  intros readFails network id w res. subst res. unfold OrdersController.getSummary.
  split; [|split; [|split]].
  - destruct (OrdersService.findByIdBasic readFails id (tables (db w))) as [o|e];
      [|reflexivity].
    destruct (fetchCnbRates network (net w)) as [r n']. reflexivity.
  - intros -> Hnone. unfold OrdersService.findByIdBasic.
    rewrite (findOrder_missing id _ Hnone). reflexivity.
  - intros ->. eexists. reflexivity.
  - destruct (OrdersService.findByIdBasic readFails id (tables (db w))) as [o|e];
      [|reflexivity].
    pose proof (fetchCnbRates_requests network (net w)) as H.
    destruct (fetchCnbRates network (net w)) as [r n']. exact H.
Qed.

(** X9.  What [getSummary] does to the world.  It never writes to the
    database.  When the storage answers the read, an id without an order
    makes it throw NotFoundError before any rate request is sent; when
    the storage fails the read (as for an id beyond the range of the id
    column, which the route's schema admits) it throws the storage's
    error instead.  Whenever it throws, nothing was requested; when it
    answers, exactly one request was sent. *)
Theorem getSummary_reads_then_fetches :
  forall readFails network id w,
    let res := getSummary readFails network id w in
    db (snd res) = db w
    /\ (readFails = false -> findOrderRow id (tables (db w)) = None ->
        res = (Throws (Api (NotFoundError (ofString "Order") id)), w))
    /\ (readFails = true -> exists what, res = (Throws (StorageFailure what), w))
    /\ match fst res with
       | Ok _ => requests (net (snd res)) = CNB_API_URL :: requests (net w)
       | Throws _ => snd res = w
       end.
Proof. exact getSummary_effects. Qed.

(** X10.  The fx section of a summary is never half of each: when it carries
    an error, nothing is available and the three conversions are the
    unavailable ones; when something is available, there is no error and
    the fetch had succeeded. *)
Theorem summary_error_excludes_conversions (readFails : bool) (network : Network)
    (id : Z) (w : World) (s : OrdersController.Summary) (w' : World) :
  getSummary readFails network id w = (Ok s, w') ->
  (OrdersController.error (OrdersController.fx s) <> None ->
   OrdersController.available (OrdersController.fx s) = false
   /\ OrdersController.conversions (OrdersController.fx s) = allUnavailable)
  /\ (OrdersController.available (OrdersController.fx s) = true ->
      OrdersController.error (OrdersController.fx s) = None
      /\ success (fst (fetchCnbRates network (net w))) = true).
Proof.
  intros H. unfold OrdersController.getSummary in H.
  destruct (OrdersService.findByIdBasic readFails id (tables (db w))) as [o|e];
    [|discriminate].
  destruct (fetchCnbRates_failure_or_parse network (net w)) as [[msg E] | (text & E1 & E2 & E3)].
  - destruct (fetchCnbRates network (net w)) as [r n']. cbn [fst] in E. subst r.
    injection H as <- _. cbn. split; [auto | intros; discriminate].
  - destruct (fetchCnbRates network (net w)) as [r n']. cbn [fst] in *.
    injection H as <- _. cbn [OrdersController.fx OrdersController.error
      OrdersController.available OrdersController.conversions].
    rewrite E1. split; [intros C; contradiction | auto].
Qed.

End Orders.

Lemma summary_error_excludes_conversions_witness :
  exists s w',
    OrdersController.getSummary codeOnly unitOnly false Sample.unreachable 7 Sample.shop
    = (Ok s, w')
    /\ OrdersController.available (OrdersController.fx s) = false
    /\ OrdersController.conversions (OrdersController.fx s) = allUnavailable.
Proof.
  eexists; eexists. split; [vm_compute; reflexivity|].
  eapply (summary_error_excludes_conversions codeOnly unitOnly false Sample.unreachable
            7 Sample.shop);
    [vm_compute; reflexivity | vm_compute; discriminate].
Defined.

(* ===================================================================== *)
(** * Orders written and read back                                        *)
(* ===================================================================== *)

Lemma find_fresh (id : Z) (rows : list Order.t) (row : Order.t) :
  Forall (fun o => Order.id o < id) rows -> Order.id row = id ->
  find (fun o => (Order.id o =? id)%Z) (rows ++ [row]) = Some row.
Proof.
  intros Hall Hid. induction Hall as [|o rows Ho _ IH].
  - cbn. rewrite Hid, Z.eqb_refl. reflexivity.
  - cbn [app find]. destruct (Z.eqb_spec (Order.id o) id); [lia | exact IH].
Qed.

Lemma stock_ordered (input : CreateOrderInput.t) (p : Product.t) (row : Order.t)
    (t : Tables) (id : Z) :
  products t !! CreateOrderInput.productId input = Some p ->
  Concurrent.stock (ordered input p row t) id
  = if (id =? CreateOrderInput.productId input)%Z
    then Product.quantity p - CreateOrderInput.quantity input
    else Concurrent.stock t id.
Proof.
  intros Hp. unfold Concurrent.stock, ordered. cbn [products].
  destruct (Z.eqb_spec id (CreateOrderInput.productId input)) as [->|Hne].
  - rewrite lookup_insert_eq. destruct p; reflexivity.
  - rewrite lookup_insert_ne by congruence. reflexivity.
Qed.

Lemma transaction_success (faulty : Faults) (input : CreateOrderInput.t) (d d' : Db)
    (row : Order.t) (p : Product.t) :
  transaction faulty (OrdersService.createTx input) d = (Ok (row, p), d') ->
  products (tables d) !! CreateOrderInput.productId input = Some p
  /\ CreateOrderInput.quantity input <= Product.quantity p
  /\ row = Order.ofData (orderSeq d) (dbClock d) (pricedOrder input p)
  /\ d' = {| tables := ordered input p row (tables d);
             orderSeq := orderSeq d + 1;
             dbClock := dbClock d |}.
Proof.
  unfold transaction, OrdersService.createTx. cbn [runTx].
  destruct (faulty SFind); [discriminate|].
  destruct (products (tables d) !! CreateOrderInput.productId input) as [q|] eqn:Hp;
    [|discriminate].
  destruct (Product.quantity q <? CreateOrderInput.quantity input) eqn:Hq; [discriminate|].
  cbn [runTx Order.dProductId].
  destruct (faulty SCreate); [discriminate|].
  rewrite Hp. cbn [runTx products].
  destruct (faulty SUpdate); [discriminate|].
  rewrite Hp. cbn [runTx].
  destruct (faulty SCommit); [discriminate|].
  intros H. injection H as <- <- <-. apply Z.ltb_ge in Hq.
  repeat split; try assumption; reflexivity.
Qed.

Section WrittenAndRead.

Variable formatPrice : number -> jsstring -> jsstring.
Variable formatPriceCZK : number -> jsstring.

Local Abbreviation enrich :=
  (OrdersService.enrichOrderWithConversions formatPrice formatPriceCZK).
Local Abbreviation create := (OrdersService.create formatPrice formatPriceCZK).
Local Abbreviation findById := (OrdersService.findById formatPrice formatPriceCZK).

(** What a successful [create] did, in full. *)
Lemma create_returns (faulty : Faults) (network : Network) (input : CreateOrderInput.t)
    (w : World) (resp : OrderWithConversions.t) (w' : World) :
  create faulty network input w = (Ok resp, w') ->
  exists p,
    let row := Order.ofData (orderSeq (db w)) (dbClock (db w)) (pricedOrder input p) in
    products (tables (db w)) !! CreateOrderInput.productId input = Some p
    /\ CreateOrderInput.quantity input <= Product.quantity p
    /\ resp = fst (enrich network (row, p) (net w))
    /\ tables (db w') = ordered input p row (tables (db w))
    /\ orderSeq (db w') = orderSeq (db w) + 1.
Proof.
  intros H. unfold OrdersService.create in H.
  destruct (transaction faulty (OrdersService.createTx input) (db w))
    as [[[row p]|e] d'] eqn:E; [|discriminate].
  destruct (transaction_success faulty input (db w) d' row p E) as (Hp & Hq & Hrow & ->).
  exists p. cbv zeta. rewrite <- Hrow.
  destruct (enrich network (row, p) (net w)) as [r n'] eqn:Er.
  injection H as <- <-. cbn [db fst tables orderSeq]. auto.
Qed.

(** X11.  An order that [create] returned can be read back.  In a database
    whose order ids lie below the id sequence, after [create] returned an
    order, [findById] with the id of that order returns the same order
    row; the product it shows has the stock lowered by the ordered
    quantity, while the response of [create] itself still shows the stock
    from before the decrement. *)
Theorem created_order_reads_back (faulty : Faults) (network network' : Network)
    (input : CreateOrderInput.t) (w : World) (resp : OrderWithConversions.t)
    (w' : World) :
  idsBelowSequence (db w) ->
  create faulty network input w = (Ok resp, w') ->
  exists p read w'',
    products (tables (db w)) !! CreateOrderInput.productId input = Some p
    /\ findById false network' (Order.id (OrderWithConversions.order resp)) w'
       = (Ok read, w'')
    /\ OrderWithConversions.order read = OrderWithConversions.order resp
    /\ ProductDTO.quantity (OrderWithConversions.product resp) = Product.quantity p
    /\ ProductDTO.quantity (OrderWithConversions.product read)
       = Product.quantity p - CreateOrderInput.quantity input
    /\ idsBelowSequence (db w').
Proof.
  intros Hids H.
  destruct (create_returns faulty network input w resp w' H) as (p & Hp & Hq & Hr & Ht & Hs).
  cbv zeta in *.
  set (row := Order.ofData (orderSeq (db w)) (dbClock (db w)) (pricedOrder input p)) in *.
  destruct (enrich_fields formatPrice formatPriceCZK network (row, p) (net w))
    as (E1 & E2 & _).
  rewrite <- Hr in E1, E2. cbn [fst snd] in E1, E2.
  set (p' := Product.withQuantity (Product.quantity p - CreateOrderInput.quantity input) p).
  assert (Hfind : OrdersService.findOrder false (Order.id row) (tables (db w'))
                  = Ok (Some (row, p'))).
  { unfold OrdersService.findOrder, findOrderRow. rewrite Ht. unfold ordered at 1.
    cbn [orders]. change (Order.id row) with (orderSeq (db w)).
    rewrite (find_fresh (orderSeq (db w)) _ row Hids eq_refl).
    unfold ordered. cbn [products Order.productId row Order.ofData pricedOrder
      Order.dProductId]. rewrite lookup_insert_eq. reflexivity. }
  destruct (enrich_fields formatPrice formatPriceCZK network' (row, p') (net w'))
    as (F1 & F2 & _).
  exists p, (fst (enrich network' (row, p') (net w'))),
    {| db := db w'; net := snd (enrich network' (row, p') (net w')) |}.
  split; [exact Hp|]. split.
  { unfold OrdersService.findById. rewrite E1, Hfind.
    destruct (enrich network' (row, p') (net w')) as [r n']. reflexivity. }
  split; [rewrite F1, E1; reflexivity|].
  split; [rewrite E2; reflexivity|].
  split; [rewrite F2; unfold p'; destruct p; reflexivity|].
  unfold idsBelowSequence. rewrite Ht, Hs. unfold ordered. cbn [orders].
  apply Forall_app. split.
  - eapply Forall_impl; [exact Hids|]. cbn. intros o Ho. lia.
  - constructor; [|constructor]. cbn. lia.
Qed.

(** X12.  Run one at a time, [create] never drives a stock negative: if no
    product has a negative stock before the call, none has after it,
    whatever the request and whatever the storage does; and the stock of
    every product other than the requested one is as it was. *)
Theorem create_alone_keeps_stock (faulty : Faults) (network : Network)
    (input : CreateOrderInput.t) (w : World) :
  stockNonNegative (tables (db w)) ->
  let w' := snd (create faulty network input w) in
  stockNonNegative (tables (db w'))
  /\ (forall id, id <> CreateOrderInput.productId input ->
        Concurrent.stock (tables (db w')) id = Concurrent.stock (tables (db w)) id)
  /\ (0 <= CreateOrderInput.quantity input ->
      Concurrent.stock (tables (db w')) (CreateOrderInput.productId input)
      <= Concurrent.stock (tables (db w)) (CreateOrderInput.productId input)).
Proof.
  intros Hst. cbv zeta.
  destruct (create faulty network input w) as [[resp|e] w'] eqn:E; cbn [snd].
  - destruct (create_returns faulty network input w resp w' E) as (p & Hp & Hq & _ & Ht & _).
    cbv zeta in *. rewrite Ht. split; [|split].
    + intros id. rewrite (stock_ordered input p _ _ id Hp).
      destruct (id =? CreateOrderInput.productId input); [lia | apply Hst].
    + intros id Hne. rewrite (stock_ordered input p _ _ id Hp).
      destruct (Z.eqb_spec id (CreateOrderInput.productId input)); [contradiction|reflexivity].
    + intros Hpos. rewrite (stock_ordered input p _ _ _ Hp), Z.eqb_refl.
      unfold Concurrent.stock. rewrite Hp. cbn. lia.
  - pose proof (create_both_or_neither formatPrice formatPriceCZK faulty network input w) as B.
    rewrite E in B. rewrite B. split; [exact Hst|]. split; [reflexivity | lia].
Qed.

End WrittenAndRead.

Lemma sample_ids_below (stock : Z) : idsBelowSequence (db (Sample.world stock)).
Proof. constructor. Qed.

Lemma sample_stock_nonnegative : stockNonNegative (tables (db (Sample.world 5))).
Proof.
  intros id. unfold Concurrent.stock. cbn [Sample.world db Sample.database tables products].
  destruct (Z.eq_dec id 1) as [->|Hne].
  - rewrite lookup_singleton_eq. cbn. lia.
  - rewrite lookup_singleton_ne by congruence. cbn. lia.
Qed.

(** Three units ordered from a stock of five, and read back. *)
Lemma created_order_reads_back_witness :
  exists resp w' p read w'',
    OrdersService.create codeOnly unitOnly noFaults (Sample.responds 200 Sample.payload)
      (Sample.order 3) (Sample.world 5) = (Ok resp, w')
    /\ products (tables (db (Sample.world 5))) !! CreateOrderInput.productId (Sample.order 3)
       = Some p
    /\ OrdersService.findById codeOnly unitOnly false Sample.unreachable
         (Order.id (OrderWithConversions.order resp)) w' = (Ok read, w'')
    /\ OrderWithConversions.order read = OrderWithConversions.order resp
    /\ ProductDTO.quantity (OrderWithConversions.product resp) = Product.quantity p
    /\ ProductDTO.quantity (OrderWithConversions.product read)
       = Product.quantity p - CreateOrderInput.quantity (Sample.order 3)
    /\ idsBelowSequence (db w').
Proof.
  destruct (OrdersService.create codeOnly unitOnly noFaults
              (Sample.responds 200 Sample.payload) (Sample.order 3) (Sample.world 5))
    as [[resp|e] w'] eqn:E.
  - exists resp, w'.
    destruct (created_order_reads_back codeOnly unitOnly noFaults
                (Sample.responds 200 Sample.payload) Sample.unreachable (Sample.order 3)
                (Sample.world 5) resp w' (sample_ids_below 5) E)
      as (p & read & w'' & H).
    exists p, read, w''. split; [reflexivity | exact H].
  - vm_compute in E. discriminate E.
Defined.

Lemma create_alone_keeps_stock_witness :
  let w' := snd (OrdersService.create codeOnly unitOnly noFaults
                   (Sample.responds 200 Sample.payload) (Sample.order 3)
                   (Sample.world 5)) in
  stockNonNegative (tables (db w'))
  /\ (forall id, id <> CreateOrderInput.productId (Sample.order 3) ->
        Concurrent.stock (tables (db w')) id
        = Concurrent.stock (tables (db (Sample.world 5))) id)
  /\ (0 <= CreateOrderInput.quantity (Sample.order 3) ->
      Concurrent.stock (tables (db w')) (CreateOrderInput.productId (Sample.order 3))
      <= Concurrent.stock (tables (db (Sample.world 5)))
           (CreateOrderInput.productId (Sample.order 3))).
Proof.
  apply (create_alone_keeps_stock codeOnly unitOnly noFaults
           (Sample.responds 200 Sample.payload) (Sample.order 3) (Sample.world 5)).
  exact sample_stock_nonnegative.
Defined.

(* ===================================================================== *)
(** * Validation details                                                  *)
(* ===================================================================== *)

Import Validation.

Section Details.

Variable inherited : jsstring -> bool.
Variable notAFunction : jsstring.

Lemma jsstring_eqb_eq (a b : jsstring) : JsString.eqb a b = true <-> a = b.
Proof. unfold JsString.eqb. apply bool_decide_eq_true. Qed.

Lemma jsstring_eqb_refl (a : jsstring) : JsString.eqb a a = true.
Proof. apply jsstring_eqb_eq. reflexivity. Qed.

Lemma jsstring_eqb_neq (a b : jsstring) : a <> b -> JsString.eqb a b = false.
Proof. intros H. unfold JsString.eqb. apply bool_decide_eq_false. exact H. Qed.

Lemma messagesAt_cons (k : jsstring) (e : ZodIssue) (errors : list ZodIssue) :
  messagesAt k (e :: errors)
  = if JsString.eqb (pathString (path e)) k then message e :: messagesAt k errors
    else messagesAt k errors.
Proof.
  unfold messagesAt. cbn [List.filter].
  destruct (JsString.eqb (pathString (path e)) k); reflexivity.
Qed.

Lemma addIssues_extended (errors : list ZodIssue) (details : Details) :
  (forall e, In e errors -> inherited (pathString (path e)) = false) ->
  exists details',
    addIssues inherited notAFunction details errors = inr details'
    /\ forall k, details' !! k = extended details errors k.
Proof.
  revert details. induction errors as [|e errors IH]; intros details Hin.
  - exists details. split; reflexivity.
  - assert (He : inherited (pathString (path e)) = false) by (apply Hin; left; reflexivity).
    cbn [addIssues]. unfold addIssue. rewrite He.
    set (p := pathString (path e)).
    set (details1 := match details !! p with
                     | Some messages => <[p := messages ++ [message e]]> details
                     | None => <[p := [message e]]> details
                     end).
    assert (E1 : (match details !! p with
                  | Some messages => inr (<[p := messages ++ [message e]]> details)
                  | None => inr (<[p := [message e]]> details)
                  end : Raised + Details) = inr details1).
    { unfold details1. destruct (details !! p); reflexivity. }
    rewrite E1.
    destruct (IH details1 (fun e' H => Hin e' (or_intror H))) as (d' & Hd & Hk).
    exists d'. split; [exact Hd|]. intros k. rewrite Hk. unfold extended.
    rewrite messagesAt_cons. fold p.
    assert (L1 : details1 !! p = Some (default [] (details !! p) ++ [message e])).
    { unfold details1, Details in *. destruct (details !! p); cbv beta iota;
        rewrite lookup_insert_eq; reflexivity. }
    assert (L2 : forall k', p <> k' -> details1 !! k' = details !! k').
    { intros k' Hne. unfold details1, Details in *.
      destruct (details !! p); cbv beta iota;
        rewrite lookup_insert_ne by exact Hne; reflexivity. }
    destruct (decide (p = k)) as [<-|Hne].
    + rewrite jsstring_eqb_refl, L1.
      destruct (messagesAt p errors) as [|m ms]; [reflexivity|].
      simpl (default _ (Some _)). rewrite <- app_assoc. reflexivity.
    + rewrite (jsstring_eqb_neq _ _ Hne), (L2 k Hne). reflexivity.
Qed.

Lemma addIssues_inherited (errors : list ZodIssue) (details : Details) :
  (forall k, inherited k = true -> details !! k = None) ->
  (exists e, In e errors /\ inherited (pathString (path e)) = true) ->
  addIssues inherited notAFunction details errors
  = inl (RaisedError (ofString "TypeError") notAFunction).
Proof.
  revert details. induction errors as [|e errors IH]; intros details Hd (e0 & Hin & Hinh).
  - destruct Hin.
  - cbn [addIssues]. unfold addIssue.
    destruct (inherited (pathString (path e))) eqn:He.
    + rewrite (Hd _ He). reflexivity.
    + assert (Hin' : exists e1, In e1 errors /\ inherited (pathString (path e1)) = true).
      { destruct Hin as [<-|Hin]; [congruence | eauto]. }
      unfold Details in *.
      destruct (details !! pathString (path e)) as [ms|]; apply IH; try exact Hin';
        intros k Hk; (rewrite lookup_insert_ne by congruence); apply Hd, Hk.
Qed.

Lemma validate_details (A : Type) (errors : list ZodIssue) :
  (forall e, In e errors -> inherited (pathString (path e)) = false) ->
  exists details,
    validate inherited notAFunction (ParseFailure errors : SafeParse A)
    = inl (ValidationError (ofString "Validation failed") details)
    /\ forall k,
         details !! k = match messagesAt k errors with
                        | [] => None
                        | ms => Some ms
                        end.
Proof.
  intros Hin. destruct (addIssues_extended errors ∅ Hin) as (d & Hd & Hk).
  exists d. cbn [validate]. rewrite Hd. split; [reflexivity|].
  intros k. rewrite Hk. unfold extended, Details. rewrite lookup_empty. reflexivity.
Qed.

(** X13.  What [validate] throws for a failed parse.  When no issue sits on a
    name that plain objects inherit, it throws ValidationError (400,
    VALIDATION_ERROR, 'Validation failed') whose details hold, under each
    path, exactly the messages of the issues on that path, in their
    order, and nothing under any other key. *)
Theorem validate_groups_messages (A : Type) (errors : list ZodIssue) :
  (forall e, In e errors -> inherited (pathString (path e)) = false) ->
  exists details,
    validate inherited notAFunction (ParseFailure errors : SafeParse A)
    = inl (ValidationError (ofString "Validation failed") details)
    /\ forall k,
         details !! k = match messagesAt k errors with
                        | [] => None
                        | ms => Some ms
                        end.
Proof. exact (validate_details A errors). Qed.

(** X14.  When some issue sits on a name that plain objects inherit
    ([constructor], [toString], ...), the lookup [details[path]] finds the
    inherited value, [push] is not a function of it, and [validate]
    throws a TypeError instead of the ValidationError. *)
Theorem validate_inherited_path (A : Type) (errors : list ZodIssue) :
  (exists e, In e errors /\ inherited (pathString (path e)) = true) ->
  validate inherited notAFunction (ParseFailure errors : SafeParse A)
  = inl (RaisedError (ofString "TypeError") notAFunction).
Proof.
  intros Hex. cbn [validate].
  rewrite (addIssues_inherited errors ∅ (fun k _ => lookup_empty k) Hex). reflexivity.
Qed.

End Details.

Lemma threeIssues_not_inherited :
  forall e, In e threeIssues -> inheritsName (pathString (path e)) = false.
Proof. intros e [<- | [<- | [<- | []]]]; reflexivity. Qed.

(** Two issues on the quantity and one on the customer's email. *)
Lemma validate_groups_messages_witness :
  exists details,
    validate inheritsName [] (ParseFailure threeIssues : SafeParse CreateOrderInput.t)
    = inl (ValidationError (ofString "Validation failed") details)
    /\ forall k,
         details !! k = match messagesAt k threeIssues with
                        | [] => None
                        | ms => Some ms
                        end.
Proof.
  apply (validate_groups_messages inheritsName [] CreateOrderInput.t threeIssues).
  exact threeIssues_not_inherited.
Defined.

(** An issue on a field named constructor. *)
Lemma validate_inherited_path_witness :
  validate inheritsName []
    (ParseFailure [ {| path := [Key (ofString "constructor")];
                       message := ofString "Required" |} ] : SafeParse CreateOrderInput.t)
  = inl (RaisedError (ofString "TypeError") []).
Proof.
  apply (validate_inherited_path inheritsName [] CreateOrderInput.t).
  eexists. split; [left; reflexivity | reflexivity].
Defined.

(* ===================================================================== *)
(** * The products service                                                *)
(* ===================================================================== *)

Section Products.

Variable formatPrice : number -> jsstring -> jsstring.
Variable formatPriceCZK : number -> jsstring.
Variable orderByTitle : list Product.t -> list Product.t.

Local Abbreviation toProductDTO := (ProductsService.toProductDTO formatPriceCZK).
Local Abbreviation findAll := (ProductsService.findAll formatPriceCZK orderByTitle).

Lemma productRows_lookup (t : Tables) (p : Product.t) :
  In p (ProductsService.productRows t) <-> exists id, products t !! id = Some p.
Proof.
  unfold ProductsService.productRows. rewrite in_map_iff. split.
  - intros ([id q] & <- & Hin). exists id.
    apply elem_of_map_to_list. apply list_elem_of_In. exact Hin.
  - intros (id & Hid). exists (id, p). split; [reflexivity|].
    apply list_elem_of_In. apply elem_of_map_to_list. exact Hid.
Qed.

Lemma filter_map_snd (f : Product.t -> bool) (l : list (Z * Product.t)) :
  List.filter f (map snd l) = map snd (List.filter (fun kp => f (snd kp)) l).
Proof.
  induction l as [|kp l IH]; [reflexivity|].
  cbn [map List.filter]. destruct (f (snd kp)); cbn [map]; rewrite IH; reflexivity.
Qed.

Lemma NoDup_keys_filter (f : Z * Product.t -> bool) (l : list (Z * Product.t)) :
  List.NoDup (map fst l) -> List.NoDup (map fst (List.filter f l)).
Proof.
  induction l as [|kp l IH]; intros H; [constructor|].
  cbn [map] in H. apply List.NoDup_cons_iff in H. destruct H as [Hnot Hnd].
  cbn [List.filter]. destruct (f kp); [|exact (IH Hnd)].
  cbn [map]. apply List.NoDup_cons_iff. split; [|exact (IH Hnd)].
  intros Hin. apply Hnot. apply in_map_iff in Hin. destruct Hin as (kp' & E & Hin).
  apply filter_In in Hin. apply in_map_iff. exists kp'. tauto.
Qed.

(** The rows of the table with their keys that [findAll] is to list. *)
Lemma listed_rows (includeOutOfStock : bool) (t : Tables) :
  let keyed := List.filter (fun kp => ProductsService.listed includeOutOfStock (snd kp))
                 (map_to_list (products t)) in
  List.NoDup (map fst keyed)
  /\ (forall id p,
        In (id, p) keyed
        <-> products t !! id = Some p
            /\ (includeOutOfStock = true \/ 0 < Product.quantity p))
  /\ List.filter (ProductsService.listed includeOutOfStock) (ProductsService.productRows t)
     = map snd keyed.
Proof.
  cbv zeta. split; [|split].
  - apply NoDup_keys_filter.
    pose proof (NoDup_fst_map_to_list (products t)) as H.
    apply NoDup_ListNoDup in H.
    exact H.
  - intros id p. rewrite filter_In. cbn [snd].
    unfold ProductsService.listed. rewrite orb_true_iff, Z.ltb_lt.
    rewrite <- list_elem_of_In, elem_of_map_to_list. tauto.
  - apply filter_map_snd.
Qed.

(** X16.  The product list.  [findAll] returns one DTO for each product row
    that is in stock, or for each product row at all when out-of-stock
    products are asked for, and nothing else: the list is a rearrangement
    of the DTOs of those rows, each row of the table (its key taken once)
    giving exactly one entry.  Every DTO of the default list is marked
    available with a positive quantity, and in the full list a DTO is
    marked available exactly when its quantity is positive. *)
Theorem findAll_lists_products_in_stock (includeOutOfStock : bool) (t : Tables) :
  reorders orderByTitle ->
  exists dtos,
    findAll false includeOutOfStock t = Ok dtos
    /\ (forall dto,
          In dto dtos
          <-> exists id p,
                products t !! id = Some p
                /\ (includeOutOfStock = true \/ 0 < Product.quantity p)
                /\ dto = toProductDTO p)
    /\ (exists keyed : list (Z * Product.t),
          List.NoDup (map fst keyed)
          /\ (forall id p,
                In (id, p) keyed
                <-> products t !! id = Some p
                    /\ (includeOutOfStock = true \/ 0 < Product.quantity p))
          /\ Permutation dtos (map (fun kp => toProductDTO (snd kp)) keyed)
          /\ length dtos = length keyed)
    /\ (forall dto, In dto dtos ->
          ProductDTO.available dto = true <-> 0 < ProductDTO.quantity dto)
    /\ (includeOutOfStock = false ->
        forall dto, In dto dtos -> ProductDTO.available dto = true).
Proof.
  intros Hperm. eexists. split; [reflexivity|].
  assert (Hrows : exists keyed : list (Z * Product.t),
            List.NoDup (map fst keyed)
            /\ (forall id p,
                  In (id, p) keyed
                  <-> products t !! id = Some p
                      /\ (includeOutOfStock = true \/ 0 < Product.quantity p))
            /\ Permutation
                 (map toProductDTO
                    (orderByTitle (List.filter (ProductsService.listed includeOutOfStock)
                                     (ProductsService.productRows t))))
                 (map (fun kp => toProductDTO (snd kp)) keyed)
            /\ length (map toProductDTO
                         (orderByTitle (List.filter (ProductsService.listed includeOutOfStock)
                                          (ProductsService.productRows t))))
               = length keyed).
  { destruct (listed_rows includeOutOfStock t) as (Hnd & Hin & Hmap). cbv zeta in *.
    eexists. split; [exact Hnd|]. split; [exact Hin|].
    assert (HP : Permutation
                   (map toProductDTO
                      (orderByTitle (List.filter (ProductsService.listed includeOutOfStock)
                                       (ProductsService.productRows t))))
                   (map (fun kp => toProductDTO (snd kp))
                      (List.filter
                         (fun kp => ProductsService.listed includeOutOfStock (snd kp))
                         (map_to_list (products t))))).
    { rewrite <- (map_map snd toProductDTO). rewrite <- Hmap.
      apply Permutation_map. apply Hperm. }
    split; [exact HP|].
    rewrite (Permutation_length HP). apply length_map. }
  assert (Hin : forall dto,
            In dto (map toProductDTO
                      (orderByTitle (List.filter (ProductsService.listed includeOutOfStock)
                                       (ProductsService.productRows t))))
            <-> exists id p,
                  products t !! id = Some p
                  /\ (includeOutOfStock = true \/ 0 < Product.quantity p)
                  /\ dto = toProductDTO p).
  { intros dto. rewrite in_map_iff. split.
    - intros (p & <- & Hp). apply (Permutation_in _ (Hperm _)) in Hp.
      apply filter_In in Hp. destruct Hp as [Hrow Hl].
      apply productRows_lookup in Hrow. destruct Hrow as (id & Hid).
      exists id, p. split; [exact Hid|]. split; [|reflexivity].
      unfold ProductsService.listed in Hl. apply orb_true_iff in Hl.
      destruct Hl as [Hl|Hl]; [left; exact Hl | right; apply Z.ltb_lt, Hl].
    - intros (id & p & Hid & Hl & ->). exists p. split; [reflexivity|].
      apply (Permutation_in _ (Permutation_sym (Hperm _))).
      apply filter_In. split; [apply productRows_lookup; eauto|].
      unfold ProductsService.listed. apply orb_true_iff.
      destruct Hl as [Hl|Hl]; [left; exact Hl | right; apply Z.ltb_lt, Hl]. }
  split; [exact Hin|]. split; [exact Hrows|]. split.
  - intros dto Hd. apply Hin in Hd. destruct Hd as (id & p & _ & _ & ->).
    cbn. apply Z.ltb_lt.
  - intros -> dto Hd. apply Hin in Hd. destruct Hd as (id & p & _ & Hl & ->).
    cbn. destruct Hl as [Hl|Hl]; [discriminate | apply Z.ltb_lt, Hl].
Qed.

(** X17.  The availability check and order creation agree.  With the storage
    working, [checkAvailability] answers true for a product and a
    quantity exactly when [create] for them returns an order; for a
    product that does not exist it answers false (where [create] throws
    NotFoundError). *)
Theorem availability_matches_create :
  forall network input w,
    (ProductsService.checkAvailability false (CreateOrderInput.productId input)
       (CreateOrderInput.quantity input) (tables (db w)) = Ok true
     <-> exists resp w',
           OrdersService.create formatPrice formatPriceCZK noFaults network input w
           = (Ok resp, w'))
    /\ (products (tables (db w)) !! CreateOrderInput.productId input = None ->
        ProductsService.checkAvailability false (CreateOrderInput.productId input)
          (CreateOrderInput.quantity input) (tables (db w)) = Ok false).
Proof.
  intros network input w. unfold ProductsService.checkAvailability. split; [split|].
  - destruct (products (tables (db w)) !! CreateOrderInput.productId input) as [p|] eqn:Hp;
      [|discriminate].
    intros H. injection H as H. apply Z.leb_le in H.
    pose proof (create_order formatPrice formatPriceCZK noFaults network input w) as C.
    rewrite (transaction_enough input (db w) p Hp H) in C.
    destruct C as (resp & Hr & _).
    destruct (OrdersService.create formatPrice formatPriceCZK noFaults network input w)
      as [res w'] eqn:E.
    cbn [fst] in Hr. subst res. eauto.
  - intros (resp & w' & H).
    destruct (create_returns formatPrice formatPriceCZK noFaults network input w resp w' H)
      as (p & Hp & Hq & _). cbv zeta in *. rewrite Hp. f_equal. apply Z.leb_le, Hq.
  - intros ->. reflexivity.
Qed.

End Products.

Lemma findAll_lists_products_in_stock_witness :
  exists dtos,
    ProductsService.findAll unitOnly (fun rows => rows) false false
      (tables (db (Sample.world 5))) = Ok dtos
    /\ forall dto, In dto dtos -> ProductDTO.available dto = true.
Proof.
  destruct (findAll_lists_products_in_stock unitOnly (fun rows => rows) false
              (tables (db (Sample.world 5))) (fun rows => Permutation_refl rows))
    as (dtos & H1 & _ & _ & _ & H4).
  exists dtos. split; [exact H1 | exact (H4 eq_refl)].
Defined.

(* ===================================================================== *)
(** * The phone field of the order form                                   *)
(* ===================================================================== *)

Lemma filter_digits_all (s : jsstring) :
  forallb OrderForm.isDigit (List.filter OrderForm.isDigit s) = true.
Proof.
  induction s as [|c s IH]; [reflexivity|].
  cbn [List.filter]. destruct (OrderForm.isDigit c) eqn:E; [|exact IH].
  cbn [forallb]. rewrite E. exact IH.
Qed.

Lemma filter_digits_id (s : jsstring) :
  forallb OrderForm.isDigit s = true -> List.filter OrderForm.isDigit s = s.
Proof.
  induction s as [|c s IH]; [reflexivity|].
  cbn [forallb List.filter]. intros H. apply andb_true_iff in H. destruct H as [H1 H2].
  rewrite H1, (IH H2). reflexivity.
Qed.

Lemma forallb_take (n : nat) (s : jsstring) :
  forallb OrderForm.isDigit s = true -> forallb OrderForm.isDigit (take n s) = true.
Proof.
  revert n. induction s as [|c s IH]; intros [|n] H; try reflexivity.
  cbn [forallb take] in *. apply andb_true_iff in H. destruct H as [H1 H2].
  rewrite H1. apply IH, H2.
Qed.


(* ===================================================================== *)
(** * The answers of POST /orders                                         *)
(* ===================================================================== *)

Import Validation.

Lemma createTx_throws (faulty : Faults) (input : CreateOrderInput.t) (d d' : Db)
    (e : Exception) :
  transaction faulty (OrdersService.createTx input) d = (Throws e, d') ->
  e = Api (NotFoundError (ofString "Product") (CreateOrderInput.productId input))
  \/ (exists p,
        e = Api (ConflictError
                   (OrdersService.insufficientStock (Product.quantity p)
                      (CreateOrderInput.quantity input))))
  \/ exists what, e = StorageFailure what.
Proof.
  unfold transaction, OrdersService.createTx. cbn [runTx].
  destruct (faulty SFind).
  { intros H. injection H as <- _. right; right. eexists. reflexivity. }
  destruct (products (tables d) !! CreateOrderInput.productId input) as [p|] eqn:Hp.
  2:{ intros H. injection H as <- _. left. reflexivity. }
  destruct (Product.quantity p <? CreateOrderInput.quantity input).
  { intros H. injection H as <- _. right; left. eexists. reflexivity. }
  cbn [runTx Order.dProductId].
  destruct (faulty SCreate).
  { intros H. injection H as <- _. right; right. eexists. reflexivity. }
  rewrite Hp. cbn [runTx products].
  destruct (faulty SUpdate).
  { intros H. injection H as <- _. right; right. eexists. reflexivity. }
  rewrite Hp. cbn [runTx].
  destruct (faulty SCommit); [|discriminate].
  intros H. injection H as <- _. right; right. eexists. reflexivity.
Qed.

Section PostOrder.

Variable formatPrice : number -> jsstring -> jsstring.
Variable formatPriceCZK : number -> jsstring.
Variable inherited : jsstring -> bool.
Variable notAFunction : jsstring.
Variable development : bool.
Variable storageErrorName : jsstring -> jsstring.

Local Abbreviation postOrder :=
  (Http.postOrder formatPrice formatPriceCZK inherited notAFunction development
     storageErrorName).
Local Abbreviation create := (OrdersService.create formatPrice formatPriceCZK).

Lemma input_eta (input : CreateOrderInput.t) :
  {| CreateOrderInput.productId := CreateOrderInput.productId input;
     CreateOrderInput.quantity := CreateOrderInput.quantity input;
     CreateOrderInput.customer := CreateOrderInput.customer input |} = input.
Proof. destruct input; reflexivity. Qed.

Lemma postOrder_parsed (input : CreateOrderInput.t) (faulty : Faults)
    (network : Network) (w : World) :
  postOrder (ParseSuccess input) faulty network w
  = match create faulty network input w with
    | (Ok order, w') => (Http.Sent 201 order, w')
    | (Throws e, w') =>
        (Http.Failed (Http.errorHandler development (Http.raised storageErrorName e)), w')
    end.
Proof. unfold Http.postOrder. cbn [validate]. rewrite input_eta. reflexivity. Qed.

Lemma validate_failure_raises (A : Type) (errors : list ZodIssue) :
  exists err,
    validate inherited notAFunction (ParseFailure errors : SafeParse A) = inl err
    /\ (err = RaisedError (ofString "TypeError") notAFunction
        \/ exists details, err = ValidationError (ofString "Validation failed") details).
Proof.
  cbn [validate].
  destruct (addIssues inherited notAFunction ∅ errors) as [e|d] eqn:E.
  - exists e. split; [reflexivity|]. left.
    revert E. generalize (∅ : Details).
    induction errors as [|x errors IH]; intros d0 E; [discriminate|].
    cbn [addIssues] in E. unfold addIssue in E.
    destruct (d0 !! pathString (path x)) as [ms|].
    + exact (IH _ E).
    + destruct (inherited (pathString (path x))); [congruence | exact (IH _ E)].
  - eexists. split; [reflexivity|]. right. eauto.
Qed.

Lemma errorHandler_status_of_raised (e : Raised) :
  (exists a d, e = RaisedApi a d
               /\ Http.status (Http.errorHandler development e) = statusCode a)
  \/ (exists n m, e = RaisedError n m
                  /\ Http.status (Http.errorHandler development e) = 500
                  /\ (development = false ->
                      In (Http.message (Http.error (Http.errorHandler development e)))
                         genericMessages)).
Proof.
  destruct e as [a d | n m]; [left; eauto|].
  right. exists n, m. split; [reflexivity|]. cbn [Http.errorHandler].
  destruct (JsString.eqb n _); cbn; split; try reflexivity.
  - intros _. left. reflexivity.
  - intros ->. right. left. reflexivity.
Qed.

Lemma raised_status (e : Exception) :
  forall input,
    e = Api (NotFoundError (ofString "Product") (CreateOrderInput.productId input))
    \/ (exists p,
          e = Api (ConflictError
                     (OrdersService.insufficientStock (Product.quantity p)
                        (CreateOrderInput.quantity input))))
    \/ (exists what, e = StorageFailure what) ->
    In (Http.status (Http.errorHandler development (Http.raised storageErrorName e)))
       [404; 409; 500]
    /\ (Http.status (Http.errorHandler development (Http.raised storageErrorName e)) = 500 ->
        development = false ->
        In (Http.message
              (Http.error (Http.errorHandler development (Http.raised storageErrorName e))))
           genericMessages).
Proof.
  intros input [-> | [(p & ->) | (what & ->)]].
  - split; [left; reflexivity | cbn; discriminate].
  - split; [right; left; reflexivity | cbn; discriminate].
  - destruct (errorHandler_status_of_raised (Http.raised storageErrorName (StorageFailure what)))
      as [(a & dd & Ea & _) | (n & m & _ & Es & Em)]; [discriminate Ea|].
    rewrite Es. split; [right; right; left; reflexivity | intros _; exact Em].
Qed.

Lemma postOrder_status (body : SafeParse CreateOrderInput.t) (faulty : Faults)
    (network : Network) (w : World) :
  In (Http.replyStatus (fst (postOrder body faulty network w))) [201; 400; 404; 409; 500].
Proof.
  destruct body as [input | errors].
  - rewrite postOrder_parsed. unfold OrdersService.create.
    destruct (transaction faulty (OrdersService.createTx input) (db w)) as [[o|e] d'] eqn:T.
    + destruct (OrdersService.enrichOrderWithConversions _ _ _ _ _) as [resp n'].
      left. reflexivity.
    + cbn [fst Http.replyStatus].
      destruct (raised_status e input (createTx_throws faulty input _ _ e T))
        as [[H | [H | [H | []]]] _]; rewrite <- H; cbn; auto 7.
  - unfold Http.postOrder.
    destruct (validate_failure_raises CreateOrderInput.t errors) as (err & Hv & Hk).
    rewrite Hv. cbn [fst Http.replyStatus Http.rejected].
    destruct Hk as [-> | (d & ->)].
    + destruct (errorHandler_status_of_raised
                  (RaisedError (ofString "TypeError") notAFunction))
        as [(a & dd & Ea & _) | (n & m & _ & Es & _)]; [discriminate Ea|].
      rewrite Es. cbn; auto 7.
    + cbn; auto 7.
Qed.

Lemma postOrder_state (body : SafeParse CreateOrderInput.t) (faulty : Faults)
    (network : Network) (w : World) :
  match fst (postOrder body faulty network w) with
  | Http.Sent s order =>
      s = 201
      /\ exists input p,
           body = ParseSuccess input
           /\ products (tables (db w)) !! CreateOrderInput.productId input = Some p
           /\ tables (db (snd (postOrder body faulty network w)))
              = ordered input p (OrderWithConversions.order order) (tables (db w))
  | Http.Failed e =>
      tables (db (snd (postOrder body faulty network w))) = tables (db w)
      /\ (Http.status e = 500 -> development = false ->
          In (Http.message (Http.error e)) genericMessages)
  end.
Proof.
  destruct body as [input | errors].
  - rewrite postOrder_parsed.
    pose proof (create_both_or_neither formatPrice formatPriceCZK faulty network input w) as B.
    destruct (create faulty network input w) as [[resp|e] w'] eqn:E; cbn [fst snd].
    + destruct B as (p & Hp & Ht & _). split; [reflexivity|]. eauto.
    + split; [exact B|].
      unfold OrdersService.create in E.
      destruct (transaction faulty (OrdersService.createTx input) (db w)) as [[o|e'] d'] eqn:T.
      * destruct (OrdersService.enrichOrderWithConversions _ _ _ _ _); discriminate E.
      * injection E as <- _.
        exact (proj2 (raised_status e' input
                        (createTx_throws faulty input _ _ e' T))).
  - unfold Http.postOrder.
    destruct (validate_failure_raises CreateOrderInput.t errors) as (err & Hv & Hk).
    rewrite Hv. cbn [fst snd Http.rejected]. split; [reflexivity|].
    destruct Hk as [-> | (d & ->)].
    + destruct (errorHandler_status_of_raised
                  (RaisedError (ofString "TypeError") notAFunction))
        as [(a & dd & Ea & _) | (n & m & _ & _ & Em)]; [discriminate Ea|].
      intros _. exact Em.
    + cbn. discriminate.
Qed.


End PostOrder.

(* ===================================================================== *)
(** * The answers of the GET routes                                       *)
(* ===================================================================== *)

Import Validation.

Section GetRoutes.

Variable formatPrice : number -> jsstring -> jsstring.
Variable formatPriceCZK : number -> jsstring.
Variable orderByTitle : list Product.t -> list Product.t.
Variable inherited : jsstring -> bool.
Variable notAFunction : jsstring.
Variable development : bool.
Variable storageErrorName : jsstring -> jsstring.

Local Abbreviation getOrder :=
  (Http.getOrder formatPrice formatPriceCZK inherited notAFunction development
     storageErrorName).
Local Abbreviation getOrderSummary :=
  (Http.getOrderSummary formatPrice formatPriceCZK inherited notAFunction development
     storageErrorName).
Local Abbreviation getProduct :=
  (Http.getProduct formatPriceCZK inherited notAFunction development storageErrorName).
Local Abbreviation getProducts :=
  (Http.getProducts formatPriceCZK orderByTitle development storageErrorName).
Local Abbreviation handled :=
  (fun e => Http.errorHandler development (Http.raised storageErrorName e)).

Lemma findOrder_throws (readFails : bool) (id : Z) (t : Tables) (e : Exception) :
  OrdersService.findOrder readFails id t = Throws e -> exists what, e = StorageFailure what.
Proof.
  unfold OrdersService.findOrder. destruct readFails.
  - intros H. injection H as <-. eauto.
  - destruct (findOrderRow id t) as [o|]; [|discriminate].
    destruct (products t !! Order.productId o); [discriminate|].
    intros H. injection H as <-. eauto.
Qed.

Lemma handled_storage_status (what : jsstring) :
  Http.status (handled (StorageFailure what)) = 500.
Proof.
  destruct (errorHandler_status_of_raised development
              (Http.raised storageErrorName (StorageFailure what)))
    as [(a & dd & Ea & _) | (n & m & _ & Es & _)]; [discriminate Ea | exact Es].
Qed.

Lemma handled_read_status (id : Z) (resource : jsstring) (e : Exception) :
  e = Api (NotFoundError resource id) \/ (exists what, e = StorageFailure what) ->
  In (Http.status (handled e)) [404; 500].
Proof.
  intros [-> | (what & ->)]; [left; reflexivity|].
  destruct (errorHandler_status_of_raised development
              (Http.raised storageErrorName (StorageFailure what)))
    as [(a & dd & Ea & _) | (n & m & _ & Es & _)]; [discriminate Ea|].
  rewrite Es. right; left; reflexivity.
Qed.

Lemma rejected_parse_status (A : Type) (errors : list ZodIssue) :
  exists err,
    validate inherited notAFunction (ParseFailure errors : SafeParse A) = inl err
    /\ In (Http.status (Http.errorHandler development err)) [400; 500].
Proof.
  destruct (validate_failure_raises inherited notAFunction A errors) as (err & Hv & Hk).
  exists err. split; [exact Hv|].
  destruct Hk as [-> | (d & ->)]; [|left; reflexivity].
  destruct (errorHandler_status_of_raised development
              (RaisedError (ofString "TypeError") notAFunction))
    as [(a & dd & Ea & _) | (n & m & _ & Es & _)]; [discriminate Ea|].
  rewrite Es. right; left; reflexivity.
Qed.

Lemma findById_throws (readFails : bool) (network : Network) (id : Z) (w w' : World)
    (e : Exception) :
  OrdersService.findById formatPrice formatPriceCZK readFails network id w = (Throws e, w') ->
  e = Api (NotFoundError (ofString "Order") id) \/ exists what, e = StorageFailure what.
Proof.
  unfold OrdersService.findById.
  destruct (OrdersService.findOrder readFails id (tables (db w))) as [[o|]|e'] eqn:F.
  - destruct (OrdersService.enrichOrderWithConversions _ _ _ _ _); discriminate.
  - intros H. injection H as <- _. left. reflexivity.
  - intros H. injection H as <- _. right. exact (findOrder_throws _ _ _ _ F).
Qed.

Lemma getSummary_throws (readFails : bool) (network : Network) (id : Z) (w w' : World)
    (e : Exception) :
  OrdersController.getSummary formatPrice formatPriceCZK readFails network id w
  = (Throws e, w') ->
  e = Api (NotFoundError (ofString "Order") id) \/ exists what, e = StorageFailure what.
Proof.
  unfold OrdersController.getSummary, OrdersService.findByIdBasic.
  destruct (OrdersService.findOrder readFails id (tables (db w))) as [[[o p]|]|e'] eqn:F.
  - destruct (fetchCnbRates network (net w)); discriminate.
  - intros H. injection H as <- _. left. reflexivity.
  - intros H. injection H as <- _. right. exact (findOrder_throws _ _ _ _ F).
Qed.

(** X19.  The GET routes, from the parsed parameters to the answer.  GET
    /orders/:id and GET /orders/:id/summary answer 200, 400, 404 or 500
    and never change the database.  When the storage answers the read,
    an id without an order is answered 404 NOT_FOUND with the message of
    the error; when the storage fails the read (as it does for an id
    beyond the range of the id column, which the schema of the
    parameters admits) the answer is 500, whether or not there is a row.
    GET /products/:id answers the same statuses, 404 for an id without a
    product when the storage answers and 500 when it fails.  GET
    /products answers 200 or 500, and lists out-of-stock products only
    when the query parameter is exactly the string true: every other
    value is treated like no value. *)
Theorem get_routes_answer :
  (forall params readFails network w,
      let r := getOrder params readFails network w in
      In (Http.replyStatus (fst r)) [200; 400; 404; 500]
      /\ db (snd r) = db w
      /\ (forall id, params = ParseSuccess id -> readFails = false ->
            findOrderRow id (tables (db w)) = None ->
            fst r = Http.Failed (apiFailure (NotFoundError (ofString "Order") id)))
      /\ (forall id, params = ParseSuccess id -> readFails = true ->
            exists e, fst r = Http.Failed e /\ Http.status e = 500))
  /\ (forall params readFails network w,
        let r := getOrderSummary params readFails network w in
        In (Http.replyStatus (fst r)) [200; 400; 404; 500]
        /\ db (snd r) = db w
        /\ (forall id, params = ParseSuccess id -> readFails = false ->
              findOrderRow id (tables (db w)) = None ->
              fst r = Http.Failed (apiFailure (NotFoundError (ofString "Order") id)))
        /\ (forall id, params = ParseSuccess id -> readFails = true ->
              exists e, fst r = Http.Failed e /\ Http.status e = 500))
  /\ (forall params readFails w,
        In (Http.replyStatus (getProduct params readFails w)) [200; 400; 404; 500]
        /\ (forall id, params = ParseSuccess id -> readFails = false ->
              products (tables (db w)) !! id = None ->
              getProduct params readFails w
              = Http.Failed (apiFailure (NotFoundError (ofString "Product") id)))
        /\ (forall id, params = ParseSuccess id -> readFails = true ->
              exists e, getProduct params readFails w = Http.Failed e
                        /\ Http.status e = 500))
  /\ (forall query readFails w,
        In (Http.replyStatus (getProducts query readFails w)) [200; 500]
        /\ (query <> Some (ofString "true") ->
            getProducts query readFails w = getProducts None readFails w)).
Proof.
  split; [|split; [|split]].
  - intros params readFails network w r. subst r. unfold Http.getOrder.
    destruct params as [id | errors].
    + cbn [validate].
      pose proof (findById_effects formatPrice formatPriceCZK readFails
                    network id w) as (Hdb & Hmiss & Hfail & _).
      cbv zeta in Hdb, Hmiss, Hfail.
      destruct (OrdersService.findById formatPrice formatPriceCZK readFails network id w)
        as [[o|e] w'] eqn:E; cbn [fst snd Http.replyStatus Http.rejected] in *.
      * split; [left; reflexivity|]. split; [exact Hdb|]. split.
        -- intros i H -> Hn. injection H as <-. destruct (Hmiss eq_refl Hn) as [C _].
           discriminate C.
        -- intros i _ ->. destruct (Hfail eq_refl) as (what & C & _). discriminate C.
      * split.
        { pose proof (handled_read_status id (ofString "Order") e
                        (findById_throws _ _ _ _ _ _ E)) as [H | [H | []]];
            rewrite <- H; cbn; auto. }
        split; [exact Hdb|]. split.
        -- intros i H -> Hn. injection H as <-. destruct (Hmiss eq_refl Hn) as [C _].
           injection C as ->. reflexivity.
        -- intros i _ ->. destruct (Hfail eq_refl) as (what & C & _).
           injection C as ->. eexists. split; [reflexivity|].
           apply handled_storage_status.
    + destruct (rejected_parse_status Z errors) as (err & Hv & Hs).
      rewrite Hv. cbn [fst snd Http.replyStatus Http.rejected].
      split; [destruct Hs as [H | [H | []]]; rewrite <- H; cbn; auto|].
      split; [reflexivity|]. split; intros id H; discriminate H.
  - intros params readFails network w r. subst r. unfold Http.getOrderSummary.
    destruct params as [id | errors].
    + cbn [validate].
      pose proof (getSummary_effects formatPrice formatPriceCZK readFails
                    network id w) as (Hdb & Hmiss & Hfail & _).
      cbv zeta in Hdb, Hmiss, Hfail.
      destruct (OrdersController.getSummary formatPrice formatPriceCZK readFails network id w)
        as [[o|e] w'] eqn:E; cbn [fst snd Http.replyStatus Http.rejected] in *.
      * split; [left; reflexivity|]. split; [exact Hdb|]. split.
        -- intros i H -> Hn. injection H as <-. discriminate (Hmiss eq_refl Hn).
        -- intros i _ ->. destruct (Hfail eq_refl) as (what & C). discriminate C.
      * split.
        { pose proof (handled_read_status id (ofString "Order") e
                        (getSummary_throws _ _ _ _ _ _ E)) as [H | [H | []]];
            rewrite <- H; cbn; auto. }
        split; [exact Hdb|]. split.
        -- intros i H -> Hn. injection H as <-. pose proof (Hmiss eq_refl Hn) as C.
           injection C as -> _. reflexivity.
        -- intros i _ ->. destruct (Hfail eq_refl) as (what & C).
           injection C as -> _. eexists. split; [reflexivity|].
           apply handled_storage_status.
    + destruct (rejected_parse_status Z errors) as (err & Hv & Hs).
      rewrite Hv. cbn [fst snd Http.replyStatus Http.rejected].
      split; [destruct Hs as [H | [H | []]]; rewrite <- H; cbn; auto|].
      split; [reflexivity|]. split; intros id H; discriminate H.
  - intros params readFails w. unfold Http.getProduct.
    destruct params as [id | errors].
    + cbn [validate]. unfold ProductsService.findById. destruct readFails.
      * split; [|split; [intros i _ H; discriminate H|]].
        -- cbn [Http.replyStatus Http.rejected]. rewrite handled_storage_status.
           cbn; auto.
        -- intros i _ _. eexists. split; [reflexivity|]. apply handled_storage_status.
      * destruct (products (tables (db w)) !! id) as [p|] eqn:Hp.
        -- split; [left; reflexivity|]. split; [|intros i _ H; discriminate H].
           intros i H _ Hn. injection H as <-. congruence.
        -- split; [cbn; auto|]. split; [|intros i _ H; discriminate H].
           intros i H _ _. injection H as <-. reflexivity.
    + destruct (rejected_parse_status Z errors) as (err & Hv & Hs).
      rewrite Hv. cbn [Http.replyStatus Http.rejected].
      split; [destruct Hs as [H | [H | []]]; rewrite <- H; cbn; auto|].
      split; intros id H; discriminate H.
  - intros query readFails w. unfold Http.getProducts, ProductsService.findAll. split.
    + destruct readFails; [|left; reflexivity].
      cbn [Http.replyStatus Http.rejected]. rewrite handled_storage_status.
      right; left; reflexivity.
    + intros Hq. destruct query as [v|]; [|reflexivity].
      rewrite (jsstring_eqb_neq v (ofString "true")) by congruence. reflexivity.
Qed.

End GetRoutes.

Section Cents.
Local Open Scope R_scope.

(** Two well-formed finite numbers of the same value are the same datum. *)
Lemma canonical_le (m1 m2 : positive) (e1 e2 : Z) :
  bounded prec emax m1 e1 = true -> bounded prec emax m2 e2 = true ->
  IZR (Zpos m1) * powerRZ 2 e1 = IZR (Zpos m2) * powerRZ 2 e2 ->
  (e1 <= e2)%Z -> m1 = m2 /\ e1 = e2.
Proof.
  intros B1 B2 E Hle.
  destruct (bounded_digits _ _ B1) as (Hd1 & He1 & Hc1).
  destruct (bounded_digits _ _ B2) as (Hd2 & He2 & Hc2).
  assert (Hm : Zpos m1 = (Zpos m2 * 2 ^ (e2 - e1))%Z).
  { apply eq_IZR. rewrite mult_IZR, <- bpow_IZR by lia. rewrite bpow_inv.
    pose proof (bpow_pos e1) as P1.
    apply (Rmult_eq_reg_r (powerRZ 2 e1)); [|lra]. rewrite E. field. lra. }
  assert (Hdig : Zdigits2 (Zpos m1) = (Zdigits2 (Zpos m2) + (e2 - e1))%Z).
  { rewrite Hm. apply Zdigits2_shift. lia. }
  simpl Zdigits2 in Hdig.
  assert (He : e1 = e2) by lia.
  split; [|exact He]. subst e2. rewrite Z.sub_diag in Hm. simpl in Hm. lia.
Qed.

Lemma canonical_unique (m1 m2 : positive) (e1 e2 : Z) :
  bounded prec emax m1 e1 = true -> bounded prec emax m2 e2 = true ->
  IZR (Zpos m1) * powerRZ 2 e1 = IZR (Zpos m2) * powerRZ 2 e2 ->
  m1 = m2 /\ e1 = e2.
Proof.
  intros B1 B2 E. destruct (Z.le_ge_cases e1 e2) as [H | H].
  - apply canonical_le; assumption.
  - destruct (canonical_le m2 m1 e2 e1 B2 B1 (eq_sym E) H) as [-> ->]. split; reflexivity.
Qed.

(** A well-formed positive number whose value is an integer below 2^53
    is that integer's number. *)
Lemma integer_value_ofZ (m : positive) (e : Z) (n : Z) :
  bounded prec emax m e = true -> (0 < n < 2 ^ 53)%Z ->
  IZR (Zpos m) * powerRZ 2 e = IZR n -> S754_finite false m e = ofZ n.
Proof.
  intros B Hn E. destruct (ofZ_exact n Hn) as (m' & e' & E1 & E2 & E3).
  rewrite E1. rewrite <- E3 in E.
  destruct (canonical_unique m m' e e' B E2 E) as [-> ->]. reflexivity.
Qed.

(** [Math.round] of a number within half a unit of a positive integer is
    that integer. *)
Lemma round_to_integer (x : number) (n : Z) :
  fin_nonneg x -> (0 < n < 2 ^ 53)%Z -> Rabs (toR x - IZR n) < 1 / 2 ->
  round x = ofZ n.
Proof.
  intros Hx Hn Hclose.
  destruct (round_nonneg_correct x Hx) as (z & Hz0 & Hf & Ez & Hb).
  assert (z = n).
  { apply IZR_close_eq. apply Rabs_def1; apply Rabs_def2 in Hclose; lra. }
  subst z.
  destruct Hf as [[sg E] | (m & e & E & B)].
  - rewrite E in Ez. cbn [toR] in Ez.
    assert (IZR 0 < IZR n) by (apply IZR_lt; lia). lra.
  - rewrite E. rewrite E in Ez. cbn [toR cond_Zopp] in Ez.
    apply integer_value_ofZ; assumption.
Qed.

(** An amount already rounded to cents is rounded to itself. *)
Lemma roundToTwoDecimals_fixed (v : number) :
  fin_nonneg v -> toR v <= 3000000000 ->
  roundToTwoDecimals (roundToTwoDecimals v) = roundToTwoDecimals v.
Proof.
  intros Hv Hb. pose proof (toR_nonneg v Hv) as Hv0.
  destruct (ofZ_pos_nonneg 100 ltac:(lia)) as [H100 E100].
  pose proof bpow_1023_large as Hbig.
  assert (Hc : approx (mul v (ofZ 100)) (toR v * toR (ofZ 100))).
  { apply mul_nonneg_correct; [exact Hv | exact H100 | rewrite E100; lra]. }
  rewrite E100 in Hc. pose proof (approx_error _ _ Hc) as Hce. destruct Hc as [Hcf _].
  destruct (round_nonneg_correct _ Hcf) as (N & HN0 & Hnf & En & Hn).
  apply Rabs_le_inv in Hce.
  assert (HNb : IZR N <= 300000000001) by lra.
  assert (HNz : (N <= 300000000001)%Z) by (apply le_IZR; exact HNb).
  assert (HNR : 0 <= IZR N) by (apply IZR_le; lia).
  unfold roundToTwoDecimals at 2 3.
  set (r1 := round (mul v (ofZ 100))) in *.
  destruct Hnf as [[sg E] | (m & e & E & B)].
  - rewrite E. destruct sg; vm_compute; reflexivity.
  - assert (HNpos : (0 < N)%Z).
    { apply lt_IZR. rewrite <- En, E. apply toR_pos_finite. }
    assert (Hr1 : r1 = ofZ N).
    { rewrite E. apply integer_value_ofZ; [exact B | lia |].
      rewrite E in En. exact En. }
    assert (Hd : approx (div r1 (ofZ 100)) (toR r1 / toR (ofZ 100))).
    { apply div_nonneg_correct; [right; eauto | exact H100 | rewrite E100; lra |].
      rewrite En, E100. lra. }
    rewrite En, E100 in Hd. pose proof (approx_error _ _ Hd) as Hde.
    destruct Hd as [Hdf _]. apply Rabs_le_inv in Hde.
    set (y := div r1 (ofZ 100)) in *.
    assert (Hc2 : approx (mul y (ofZ 100)) (toR y * toR (ofZ 100))).
    { apply mul_nonneg_correct; [exact Hdf | exact H100 | rewrite E100; lra]. }
    rewrite E100 in Hc2. pose proof (approx_error _ _ Hc2) as Hce2.
    destruct Hc2 as [Hc2f _]. apply Rabs_le_inv in Hce2.
    unfold roundToTwoDecimals.
    rewrite (round_to_integer (mul y (ofZ 100)) N Hc2f ltac:(lia)).
    + rewrite <- Hr1. reflexivity.
    + apply Rabs_def1; lra.
Qed.

(** [Math.round] keeps the sign of a positive number, also when the
    result is zero. *)
Lemma round_positiveOrZero (x : number) :
  positiveOrZero x -> positiveOrZero (round x).
Proof.
  intros [-> | (m & e & -> & B)]; [left; reflexivity|].
  destruct (round_nonneg_correct (S754_finite false m e)) as (z & _ & Hf & _ & _);
    [right; eauto|].
  destruct Hf as [[sg E] | H]; [|right; exact H].
  left. destruct (bounded_digits _ _ B) as (Hd & He & _).
  destruct e as [|k|k]; try discriminate E.
  cbn [round] in E. cbn [round].
  set (z' := roundHalfUpZ false m (Zneg k)) in *.
  assert (Ez : z' = ((2 * Zpos m + 2 ^ Zpos k) / 2 ^ (Zpos k + 1))%Z) by reflexivity.
  assert (Hp : (0 < 2 ^ Zpos k)%Z) by (apply Z.pow_pos_nonneg; lia).
  assert (Hp1 : (2 ^ (Zpos k + 1) = 2 * 2 ^ Zpos k)%Z) by (rewrite Z.pow_add_r by lia; ring).
  assert (Hz0 : (0 <= z')%Z) by (rewrite Ez; apply Z.div_pos; lia).
  assert (Hzlt : (z' < 2 ^ 53)%Z).
  { assert (Hm : (Zpos m < 2 ^ 53)%Z).
    { destruct (Zdigits2_bounds (Zpos m) ltac:(lia)) as [_ Hu]. simpl Zdigits2 in Hu.
      eapply Z.lt_le_trans; [exact Hu|]. apply Z.pow_le_mono_r; lia. }
    rewrite Ez. apply Z.div_lt_upper_bound; [lia|].
    rewrite Hp1.
    assert (2 <= 2 ^ Zpos k)%Z.
    { change 2%Z with (2 ^ 1)%Z at 1. apply Z.pow_le_mono_r; lia. }
    nia. }
  destruct z' as [|p|p]; [reflexivity | | lia].
  destruct (ofZ_exact (Zpos p) ltac:(lia)) as (m' & e' & E1 & _).
  rewrite E1 in E. discriminate E.
Qed.

Lemma mul_positiveOrZero (x y : number) :
  positiveOrZero x -> positiveOrZero y ->
  positiveOrZero (mul x y) \/ mul x y = Infinity.
Proof.
  intros [-> | (mx & ex & -> & Bx)] [-> | (my & ey & -> & By)];
    try (left; left; reflexivity).
  destruct (mul_finite_total false false mx my ex ey Bx By) as [[H _] | [H _]].
  - left. exact H.
  - right. exact H.
Qed.

(** Rounding to cents keeps the sign as well; the result is [Infinity]
    only on overflow. *)
Lemma roundToTwoDecimals_positiveOrZero (v : number) :
  positiveOrZero v ->
  positiveOrZero (roundToTwoDecimals v) \/ roundToTwoDecimals v = Infinity.
Proof.
  intros Hv. unfold roundToTwoDecimals.
  destruct (ofZ_exact 100 ltac:(lia)) as (m100 & e100 & E100 & B100 & V100).
  assert (P100 : positiveOrZero (ofZ 100)) by (right; eauto).
  destruct (mul_positiveOrZero v (ofZ 100) Hv P100) as [Hc | Hc].
  - left. apply round_positiveOrZero in Hc.
    destruct Hc as [-> | (m & e & -> & B)].
    + rewrite E100. left. reflexivity.
    + rewrite E100.
      assert (Hlt : IZR (Zpos m) * powerRZ 2 e / (IZR (Zpos m100) * powerRZ 2 e100)
                    < powerRZ 2 1023).
      { rewrite V100. pose proof (bounded_lt_max m e B) as H.
        replace 1024%Z with (1023 + 1)%Z in H by lia. rewrite bpow_succ in H.
        pose proof (toR_pos_finite m e) as P. cbn [toR cond_Zopp] in P. lra. }
      destruct (div_finite_correct false false m m100 e e100 Hlt) as [H _].
      exact H.
  - right. rewrite Hc. rewrite E100. reflexivity.
Qed.

Lemma sanitizePrice_positiveOrZero (x : number) :
  positiveOrZero x -> sanitizePrice x = x.
Proof. intros [-> | (m & e & -> & _)]; reflexivity. Qed.

Lemma sanitized_positiveOrZero (p q : number) :
  valid p = true -> valid q = true ->
  positiveOrZero (sanitizePrice p) /\ positiveOrZero (sanitizeQuantity q).
Proof.
  intros Vp Vq. split.
  - destruct (sanitizePrice_nonneg p Vp) as [[sg E] | H]; [|right; exact H].
    destruct (sanitizePrice_shape p) as [E' | (m & e & E')]; [left; exact E'|].
    rewrite E in E'. discriminate E'.
  - destruct (sanitizeQuantity_nonneg q Vq) as [[sg E] | H]; [|right; exact H].
    destruct (sanitizeQuantity_shape q Vq) as [E' | (m & e & E')]; [left; exact E'|].
    rewrite E in E'. discriminate E'.
Qed.

(** The subtotal of a breakdown is [+0], a positive finite number or, on
    overflow, [Infinity]. *)
Lemma subtotal_positiveOrZero (p q : number) (rate : option number) :
  valid p = true -> valid q = true ->
  let b := calculateVatBreakdown {| unitPriceCzk := p; quantity := q; vatRate := rate |} in
  positiveOrZero (subtotalCzk b) \/ subtotalCzk b = Infinity.
Proof.
  intros Vp Vq. cbn zeta. cbn [calculateVatBreakdown subtotalCzk unitPriceCzk quantity].
  destruct (sanitized_positiveOrZero p q Vp Vq) as [Hp Hq].
  destruct (mul_positiveOrZero _ _ Hp Hq) as [H | H].
  - apply roundToTwoDecimals_positiveOrZero. exact H.
  - right. rewrite H. reflexivity.
Qed.

End Cents.

(** X20.  Amounts in cents are fixed points of the rounding.  For a
    well-formed finite amount between 0 and 3 000 000 000, rounding to two
    decimals a second time returns the first result unchanged, bit for
    bit. *)
Theorem rounding_to_cents_is_idempotent (v : number) :
  valid v = true -> isFinite v = true -> lt v pzero = false ->
  gt v (ofZ 3000000000) = false ->
  roundToTwoDecimals (roundToTwoDecimals v) = roundToTwoDecimals v.
Proof.
  intros V F L G.
  pose proof (fin_nonneg_of_checks v V F L) as Hv.
  apply roundToTwoDecimals_fixed; [exact Hv|].
  apply (le_of_gt_false v 3000000000 Hv); [lia | exact G].
Qed.

Lemma rounding_to_cents_is_idempotent_witness :
  roundToTwoDecimals (roundToTwoDecimals price33333) = roundToTwoDecimals price33333.
Proof.
  apply (rounding_to_cents_is_idempotent price33333); vm_compute; reflexivity.
Defined.

(** The subtotal does overflow: the largest number, twice. *)
Lemma subtotal_can_overflow :
  subtotalCzk (calculateVatBreakdown
                 {| unitPriceCzk := MAX_VALUE; quantity := ofZ 2; vatRate := None |})
  = Infinity.
Proof. vm_compute. reflexivity. Qed.

(** X21.  The helper functions agree with the breakdown.  For well-formed
    inputs whose subtotal did not overflow, [calculateVatAmount] and
    [calculateTotalWithVat] applied to the subtotal of
    [calculateVatBreakdown], with the same rate argument, return exactly
    the breakdown's VAT amount and total.  When the subtotal overflowed
    to [Infinity] they do not: with the default rate the breakdown's VAT
    amount is [Infinity] while [calculateVatAmount] of that subtotal
    is [0]. *)
Theorem helpers_agree_with_breakdown (p q : number) (rate : option number) :
  valid p = true -> valid q = true ->
  let b := calculateVatBreakdown {| unitPriceCzk := p; quantity := q; vatRate := rate |} in
  (isFinite (subtotalCzk b) = true ->
   calculateVatAmount (subtotalCzk b) rate = vatAmountCzk b
   /\ calculateTotalWithVat (subtotalCzk b) rate = totalCzk b)
  /\ (isFinite (subtotalCzk b) = false -> rate = None ->
      vatAmountCzk b = Infinity /\ calculateVatAmount (subtotalCzk b) rate = pzero).
Proof.
  intros Vp Vq b.
  pose proof (subtotal_positiveOrZero p q rate Vp Vq) as Hs. cbn zeta in Hs.
  fold b in Hs. split.
  - intros F. destruct Hs as [Hs | Hs]; [|rewrite Hs in F; discriminate F].
    pose proof (sanitizePrice_positiveOrZero _ Hs) as Es.
    unfold calculateTotalWithVat, calculateVatAmount.
    rewrite !Es. destruct rate as [r|]; split; reflexivity.
  - intros F ->. destruct Hs as [[Hs | (m & e & Hs & _)] | Hs];
      try (rewrite Hs in F; discriminate F).
    assert (Ev : vatAmountCzk b = roundToTwoDecimals (mul (subtotalCzk b) DEFAULT_VAT_RATE))
      by reflexivity.
    rewrite Ev, Hs. split; vm_compute; reflexivity.
Qed.

Lemma helpers_agree_with_breakdown_witness :
  let b := calculateVatBreakdown
             {| unitPriceCzk := price1990; quantity := ofZ 2; vatRate := None |} in
  (isFinite (subtotalCzk b) = true ->
   calculateVatAmount (subtotalCzk b) None = vatAmountCzk b
   /\ calculateTotalWithVat (subtotalCzk b) None = totalCzk b)
  /\ (isFinite (subtotalCzk b) = false -> @None number = None ->
      vatAmountCzk b = Infinity /\ calculateVatAmount (subtotalCzk b) None = pzero).
Proof.
  apply (helpers_agree_with_breakdown price1990 (ofZ 2) None); vm_compute; reflexivity.
Defined.
